(** * Parallel Research Kernels, C++11/CUDA matrix transpose

    A shallow embedding of [Cxx11/transpose-cuda.cu]: the two [transpose]
    kernels (bounds-checked element-wise, and the 32 x 8 tiled one selected
    by the [TILED] macro), the host program [main] with its input checks,
    the timed launch loop and the analytic validation, followed by the
    properties proved about them.

    Conventions of the model.
    - [double] is IEEE 754 binary64, taken from the Standard Library's
      executable specification [SpecFloat] (precision 53, [emax] 1024).
    - [unsigned] and [size_t] values are integers reduced modulo 2^32 and
      2^64. Arithmetic on [int] that leaves the range of [int] is undefined
      in C++; the model stops there with the fault [SignedOverflow]. The
      conversion of a [long] to [int] in [atoi] is the two's complement
      reduction [int_wrap].
    - An array is a list; reading or writing outside it is the fault
      [OutOfBounds] (undefined behaviour in the source). A host pointer
      released by [free_host] dangles; reading through it is the fault
      [UseAfterFree].
    - The macros [TILED] and [VERBOSE] are boolean parameters of the
      model. The source sets [TILED] to 0 and leaves [VERBOSE] undefined.
    - A kernel launch runs its threads one after the other in a fixed
      enumeration; the kernels are shown not to depend on that order. The
      limit of a device on the threads of a block is not modelled: results
      of launches are stated for blocks of at most 32 x 32 threads.
    - What the program does to the outside world (printing, allocation,
      copies, launches, synchronisation, clock readings) is recorded as a
      list of [event]s. *)

From Stdlib Require Import ZArith Lia Ascii String SpecFloat.
From stdpp Require Import base numbers list strings.

Local Open Scope Z_scope.

(** ** Binary64 arithmetic *)

Definition double : Type := spec_float.

Definition dadd : double -> double -> double := SFadd 53 1024.
Definition dsub : double -> double -> double := SFsub 53 1024.
Definition dmul : double -> double -> double := SFmul 53 1024.
Definition ddiv : double -> double -> double := SFdiv 53 1024.
Definition dabs : double -> double := SFabs.
Definition dltb : double -> double -> bool := SFltb.

(** [dyadic m e] is the double nearest to [m * 2^e]; [of_Z] is the
    conversion of an integer to [double]. *)
Definition dyadic (m e : Z) : double := binary_normalize 53 1024 m e false.
Definition of_Z (z : Z) : double := dyadic z 0.

(** The literals [1.0e-8] and [1.0e-6]: the doubles nearest to 10^-8 and
    10^-6. *)
Definition epsilon : double := S754_finite false 6044629098073146 (-79).
Definition micro : double := S754_finite false 4722366482869645 (-72).

Global Instance double_inhabited : Inhabited double := populate S754_nan.

(** ** Machine integers *)

Definition INT_MAX : Z := 2147483647.
Definition LONG_MAX : Z := 9223372036854775807.

Definition int_wrap (v : Z) : Z := (v + 2147483648) mod 4294967296 - 2147483648.
Definition u32 (v : Z) : Z := v mod 4294967296.
Definition size_t (v : Z) : Z := v mod 18446744073709551616.

(** ** Faults and the error monad *)

Inductive fault := OutOfBounds | SignedOverflow | UseAfterFree | OutOfFuel.

Inductive result (T : Type) :=
  | Ok (t : T)
  | Fault (f : fault).
Arguments Ok {T} t.
Arguments Fault {T} f.

Global Instance result_ret : MRet result := fun _ t => Ok t.
Global Instance result_bind : MBind result := fun _ _ k r =>
  match r with
  | Ok t => k t
  | Fault f => Fault f
  end.

Fixpoint for_each {S T : Type} (body : T -> S -> result S) (l : list T) (s : S)
    : result S :=
  match l with
  | [] => Ok s
  | t :: l' => s' ← body t s; for_each body l' s'
  end.

(** Sum and product of two [int]s. *)
Definition int_add (a b : Z) : result Z :=
  if (-2147483648 <=? a + b) && (a + b <=? INT_MAX) then Ok (a + b)
  else Fault SignedOverflow.

Definition int_mul (a b : Z) : result Z :=
  if (-2147483648 <=? a * b) && (a * b <=? INT_MAX) then Ok (a * b)
  else Fault SignedOverflow.

(** ** Arrays of doubles *)

Definition load (p : list double) (k : Z) : result double :=
  if (0 <=? k) && (k <? Z.of_nat (length p))
  then Ok (p !!! Z.to_nat k) else Fault OutOfBounds.

Definition store (p : list double) (k : Z) (v : double) : result (list double) :=
  if (0 <=? k) && (k <? Z.of_nat (length p))
  then Ok (<[Z.to_nat k := v]> p) else Fault OutOfBounds.

(** A pointer to host storage. [prk::CUDA::free_host] leaves it dangling,
    and a read through a dangling pointer is a fault. *)
Inductive pointer :=
  | Valid (contents : list double)
  | Dangling.

Definition free_host (p : pointer) : pointer := Dangling.

Definition read (p : pointer) (k : Z) : result double :=
  match p with
  | Valid contents => load contents k
  | Dangling => Fault UseAfterFree
  end.

(** The pair of matrices a kernel works on ([A] and [B] in the kernels,
    [d_a] and [d_b], [h_a] and [h_b] in [main]). *)
Record mem := Mem { bufA : list double; bufB : list double }.

(** ** The kernels *)

Record dim3 := Dim3 { dim_x : Z; dim_y : Z; dim_z : Z }.

Definition tile_dim : Z := 32.
Definition block_rows : Z := 8.

(** Index expressions [j*order+i] and [i*order+j], in [unsigned]. *)
Definition a_index (order i j : Z) : Z := u32 (j * order + i).
Definition b_index (order i j : Z) : Z := u32 (i * order + j).

(** [B[ib] += A[ia]; A[ia] += (double)1;] *)
Definition accumulate (ia ib : Z) (m : mem) : result mem :=
  a ← load (bufA m) ia;
  b ← load (bufB m) ib;
  B' ← store (bufB m) ib (dadd b a);
  a' ← load (bufA m) ia;
  A' ← store (bufA m) ia (dadd a' (of_Z 1));
  Ok (Mem A' B').

(** The kernel compiled when [TILED] is 0: one thread of it. *)
Definition transpose (order : Z) (gridDim blockDim blockIdx threadIdx : dim3)
    (m : mem) : result mem :=
  let i := u32 (dim_x blockIdx * dim_x blockDim + dim_x threadIdx) in
  let j := u32 (dim_y blockIdx * dim_y blockDim + dim_y threadIdx) in
  if (i <? order) && (j <? order)
  then accumulate (a_index order i j) (b_index order i j) m
  else Ok m.

(** [for (int j = 0; j < tile_dim; j += block_rows) body] *)
Fixpoint band_loop (fuel : nat) (j : Z) (body : Z -> mem -> result mem) (m : mem)
    : result mem :=
  match fuel with
  | O => Fault OutOfFuel
  | S fuel' =>
      if j <? tile_dim
      then m' ← body j m; band_loop fuel' (j + block_rows) body m'
      else Ok m
  end.

(** The kernel compiled when [TILED] is 1: one thread of it. [order] is
    not used; the row length is recomputed from the grid. *)
Definition transpose_tiled (order : Z) (gridDim blockDim blockIdx threadIdx : dim3)
    (m : mem) : result mem :=
  let x := u32 (dim_x blockIdx * tile_dim + dim_x threadIdx) in
  let y := u32 (dim_y blockIdx * tile_dim + dim_y threadIdx) in
  let width := u32 (dim_x gridDim * tile_dim) in
  band_loop 5 0
    (fun j => accumulate (a_index width x (u32 (y + j))) (b_index width x (u32 (y + j))))
    m.

(** ** Kernel launches *)

(** The index vectors below a [dim3] extent, row after row. All launches
    of the program have depth 1, so the third coordinate is always 0. *)
Definition indices (d : dim3) : list dim3 :=
  y ← seqZ 0 (dim_y d); x ← seqZ 0 (dim_x d); [Dim3 x y 0].

(** The threads of a grid, block after block: [(blockIdx, threadIdx)]. *)
Definition threads (gridDim blockDim : dim3) : list (dim3 * dim3) :=
  blockIdx ← indices gridDim; threadIdx ← indices blockDim; [(blockIdx, threadIdx)].

Definition kernel : Type := Z -> dim3 -> dim3 -> dim3 -> dim3 -> mem -> result mem.

(** Running a list of threads in the order given. *)
Definition run_threads (k : kernel) (gridDim blockDim : dim3) (order : Z)
    (ts : list (dim3 * dim3)) (m : mem) : result mem :=
  for_each (fun t => k order gridDim blockDim t.1 t.2) ts m.

(** [k<<<gridDim, blockDim>>>(order, d_a, d_b)]: every thread of the grid
    runs. A device performs a launch only when the block has at most 1024
    threads, which is what the warning of [main] about a tile size above
    32 is for; the model has no such limit, so it describes the launches
    a device performs: blocks of [tile_size] x [tile_size] threads with
    [tile_size] from 1 to 32, and the 32 x 8 blocks of the tiled build.
    What is proved below about the values that a launch of the
    element-wise kernel leaves in memory is stated for those tile sizes. *)
Definition launch (k : kernel) (gridDim blockDim : dim3) (order : Z) (m : mem)
    : result mem :=
  run_threads k gridDim blockDim order (threads gridDim blockDim) m.

(** ** Command-line numbers: [std::atoi] *)

Definition isspace (c : ascii) : bool :=
  let n := Z.of_N (N_of_ascii c) in (n =? 32) || ((9 <=? n) && (n <=? 13)).

Definition isdigit (c : ascii) : bool :=
  let n := Z.of_N (N_of_ascii c) in (48 <=? n) && (n <=? 57).

Fixpoint skip_space (s : string) : string :=
  match s with
  | String c s' => if isspace c then skip_space s' else s
  | EmptyString => s
  end.

(** Value of the leading run of decimal digits, continuing from [acc]. *)
Fixpoint digits_value (s : string) (acc : Z) : Z :=
  match s with
  | String c s' =>
      if isdigit c
      then digits_value s' (10 * acc + (Z.of_N (N_of_ascii c) - 48))
      else acc
  | EmptyString => acc
  end.

(** [strtol(s, NULL, 10)]: blanks, an optional sign, then digits; the value
    is clamped to the range of [long]. *)
Definition strtol (s : string) : Z :=
  let clamp v := Z.max (- LONG_MAX - 1) (Z.min LONG_MAX v) in
  match skip_space s with
  | String "-" s' => clamp (- digits_value s' 0)
  | String "+" s' => clamp (digits_value s' 0)
  | s' => clamp (digits_value s' 0)
  end.

(** [atoi] is [(int) strtol(s, NULL, 10)]. *)
Definition atoi (s : string) : Z := int_wrap (strtol s).

(** An argument in which [atoi] finds no number to convert: after blanks
    and an optional sign the next character is not a digit. *)
Definition starts_with_digit (s : string) : bool :=
  match s with
  | String c _ => isdigit c
  | EmptyString => false
  end.

Definition numeric (s : string) : bool :=
  match skip_space s with
  | String "-" s' => starts_with_digit s'
  | String "+" s' => starts_with_digit s'
  | s' => starts_with_digit s'
  end.

(** ** What the program does to the outside world *)

Inductive token :=
  | Str (s : string)
  | Int (v : Z)
  | Dbl (d : double)
  | Endl.

Inductive event :=
  | Cout (line : list token)
  | InfoPrint
  | CheckDims (dimBlock dimGrid : dim3)
  | MallocHost (nelems : Z)
  | MallocDevice (nelems : Z)
  | CopyH2D (nelems : Z)
  | CopyD2H (nelems : Z)
  | Launch (dimGrid dimBlock : dim3)
  | Sync
  | Wtime
  | FreeDevice
  | FreeHost.

(** ** What the program takes from [prk_util.h] and [prk_cuda.h]

    Neither header is part of the sources, so their constants and helpers
    are inputs of the model. [wtime n] is what the [n]-th call of
    [prk::wtime()] returns. *)
Record prk := Prk {
  PRKVERSION : string;
  get_max_matrix_size : Z;
  wtime : nat -> double
}.

(** Modelled from the spec: [prk::divceil] is in the missing [prk_util.h];
    the grid is described as covering the index space with groups of
    [tile_size], the last one possibly partial, that is, a quotient rounded
    up. *)
Definition divceil (numerator denominator : Z) : Z :=
  Z.quot numerator denominator + (if 0 <? Z.rem numerator denominator then 1 else 0).

(** Modelled from the spec: [prk::abs] is in the missing [prk_util.h]; the
    aggregate error is described as a sum of absolute differences. *)
Definition prk_abs (v : double) : double := dabs v.

(** ** Reading and testing the input parameters *)

Record input := Input { iterations : Z; order : Z; tile_size : Z }.

Definition newline : string := String (ascii_of_nat 10) EmptyString.

Definition order_warning (order : Z) : event :=
  Cout [Str "Sorry, but order ("; Int order; Str ") must be evenly divible by ";
        Int tile_dim; Str " or the results are going to be wrong."; Str newline].

Definition tile_warning : event :=
  Cout [Str "The results are probably going to be wrong; use tile_size<=32.";
        Str newline].

(** The statements under [#else] of the [try] block: the default tile size
    and the optional third argument. *)
Definition read_tile_size (argv : list string) (order : Z) : list event * Z :=
  let tile_size := 32 in
  if 3 <? Z.of_nat (length argv) then
    let tile_size := atoi (argv !!! 3%nat) in
    let tile_size := if tile_size <=? 0 then order else tile_size in
    let tile_size := if order <? tile_size then order else tile_size in
    (if 32 <? tile_size then [tile_warning] else [], tile_size)
  else ([], tile_size).

(** The [try] block of [main]: the events it prints, and either the string
    it throws or the parameters read. With [TILED] the variable [tile_size]
    is never assigned nor read; the model puts [tile_dim] there. *)
Definition read_input (TILED : bool) (env : prk) (argv : list string)
    : list event * (string + input) :=
  if Z.of_nat (length argv) <? 3 then
    ([], inl "Usage: <# iterations> <matrix order>")
  else
    let iterations := atoi (argv !!! 1%nat) in
    if iterations <? 1 then ([], inl "ERROR: iterations must be >= 1")
    else
      let order := atoi (argv !!! 2%nat) in
      if order <=? 0 then ([], inl "ERROR: Matrix Order must be greater than 0")
      else if get_max_matrix_size env <? order then
        ([], inl "ERROR: matrix dimension too large - overflow risk")
      else if TILED then
        (if negb (Z.rem order tile_dim =? 0) then [order_warning order] else [],
         inr (Input iterations order tile_dim))
      else
        let '(warn, tile_size) := read_tile_size argv order in
        (warn, inr (Input iterations order tile_size)).

(** ** Buffers, launch geometry and the timed loop *)

Definition dimGrid (TILED : bool) (inp : input) : dim3 :=
  if TILED
  then Dim3 (u32 (Z.quot (order inp) tile_dim)) (u32 (Z.quot (order inp) tile_dim)) 1
  else Dim3 (u32 (divceil (order inp) (tile_size inp)))
            (u32 (divceil (order inp) (tile_size inp))) 1.

Definition dimBlock (TILED : bool) (inp : input) : dim3 :=
  if TILED
  then Dim3 (u32 tile_dim) (u32 block_rows) 1
  else Dim3 (u32 (tile_size inp)) (u32 (tile_size inp)) 1.

Definition the_kernel (TILED : bool) : kernel :=
  if TILED then transpose_tiled else transpose.

(** [malloc_host] and [malloc_device] hand out storage whose contents are
    not defined; the model fills it with NaN, which any use before a write
    would carry into the result. *)
Definition malloc (nelems : Z) : list double := replicate (Z.to_nat nelems) S754_nan.

(** The two nested loops that fill [h_a] with 0 .. order^2-1 and clear
    [h_b]. *)
Definition fill_host (order : Z) (h : mem) : result mem :=
  for_each (fun j =>
    for_each (fun i h =>
      jo ← int_mul j order;
      ji ← int_add jo i;
      oj ← int_mul order j;
      v ← int_add oj i;
      A' ← store (bufA h) ji (of_Z v);
      B' ← store (bufB h) ji (of_Z 0);
      Ok (Mem A' B'))
      (seqZ 0 order))
    (seqZ 0 order) h.

(** State of the launch loop. [reads] counts the calls of [prk::wtime()]
    made so far. *)
Record loop_state := LoopState {
  device : mem;
  trans_time : double;
  reads : nat;
  events : list event
}.

(** One turn of [for (int iter = 0; iter<=iterations; iter++)]. *)
Definition cycle (TILED : bool) (env : prk) (inp : input) (iter : Z) (st : loop_state)
    : result loop_state :=
  let st1 :=
    if iter =? 1
    then LoopState (device st) (wtime env (reads st)) (S (reads st))
                   (events st ++ [Sync; Wtime])
    else st in
  m ← launch (the_kernel TILED) (dimGrid TILED inp) (dimBlock TILED inp) (order inp)
             (device st1);
  Ok (LoopState m (trans_time st1) (reads st1)
        (events st1 ++ [Launch (dimGrid TILED inp) (dimBlock TILED inp); Sync])).

Fixpoint launch_loop (TILED : bool) (env : prk) (inp : input) (fuel : nat) (iter : Z)
    (st : loop_state) : result loop_state :=
  match fuel with
  | O => Fault OutOfFuel
  | S fuel' =>
      if iter <=? iterations inp
      then st' ← cycle TILED env inp iter st;
           iter' ← int_add iter 1;
           launch_loop TILED env inp fuel' iter' st'
      else Ok st
  end.

(** ** Analysis of the result *)

Definition addit (iterations : Z) : double :=
  dmul (dadd (of_Z iterations) (of_Z 1)) (ddiv (of_Z iterations) (of_Z 2)).

Definition reference (iterations order i j : Z) : double :=
  let ij := size_t (size_t i * size_t order + size_t j) in
  dadd (dmul (of_Z ij) (dadd (of_Z 1) (of_Z iterations))) (addit iterations).

(** The loops that accumulate [abserr]. *)
Definition aggregate_error (iterations order : Z) (h_b : list double) : result double :=
  for_each (fun j =>
    for_each (fun i abserr =>
      let ji := size_t (size_t j * size_t order + size_t i) in
      b ← load h_b ji;
      Ok (dadd abserr (prk_abs (dsub b (reference iterations order i j)))))
      (seqZ 0 order))
    (seqZ 0 order) (of_Z 0).

(** The element-by-element dump printed under [VERBOSE] on failure. It
    reads through [h_a] and [h_b] as they are at that point of [main]. *)
Definition dump (order : Z) (h_a h_b : pointer) : result (list event) :=
  for_each (fun i =>
    for_each (fun j out =>
      io ← int_mul i order;
      ij ← int_add io j;
      a ← read h_a ij;
      b ← read h_b ij;
      Ok (out ++ [Cout [Str "("; Int i; Str ","; Int j; Str ") = "; Dbl a; Str ", ";
                        Dbl b; Str newline]]))
      (seqZ 0 order))
    (seqZ 0 order) [].

Definition avgtime (trans_time : double) (iterations : Z) : double :=
  ddiv trans_time (of_Z iterations).

Definition rate (order : Z) (avg : double) : double :=
  let bytes := size_t (size_t (size_t order * size_t order) * 8) in
  ddiv (dmul micro (of_Z (size_t (2 * bytes)))) avg.

Definition success_report (inp : input) (trans_time : double) : list event :=
  [Cout [Str "Solution validates"; Endl];
   Cout [Str "Rate (MB/s): "; Dbl (rate (order inp) (avgtime trans_time (iterations inp)));
         Str " Avg time (s): "; Dbl (avgtime trans_time (iterations inp)); Endl]].

Definition failure_report (abserr : double) : event :=
  Cout [Str "ERROR: Aggregate squared error "; Dbl abserr;
        Str " exceeds threshold "; Dbl epsilon; Endl].

(** ** The program *)

Record outcome := Outcome { trace : list event; exit_code : Z }.

Definition banner (env : prk) : list event :=
  [Cout [Str "Parallel Research Kernels version "; Str (PRKVERSION env); Endl];
   Cout [Str "C++11/CUDA Matrix transpose: B = A^T"; Endl];
   InfoPrint].

Definition echo (TILED : bool) (inp : input) : list event :=
  [Cout [Str "Number of iterations  = "; Int (iterations inp); Endl];
   Cout [Str "Matrix order          = "; Int (order inp); Endl];
   Cout [Str "Tile size             = ";
         Int (if TILED then tile_dim else tile_size inp); Endl]].

(** What a run leaves behind once the loop, the read-back, the error
    summation and the release of the host buffers are done: [host] is what
    the host buffers held when [abserr] was summed, [h_a] and [h_b] are the
    two pointers as [free_host] leaves them. *)
Record measurement := Measurement {
  run_events : list event;
  elapsed : double;
  abserr : double;
  host : mem;
  h_a : pointer;
  h_b : pointer
}.

(** From the allocation of the buffers to the release of the host buffers. *)
Definition benchmark (TILED VERBOSE : bool) (env : prk) (fuel : nat) (inp : input)
    : result measurement :=
  let nelems := size_t (size_t (order inp) * size_t (order inp)) in
  h ← fill_host (order inp) (Mem (malloc nelems) (malloc nelems));
  let d := Mem (bufA h) (bufB h) in
  let before :=
    [CheckDims (dimBlock TILED inp) (dimGrid TILED inp);
     MallocHost nelems; MallocHost nelems;
     MallocDevice nelems; MallocDevice nelems;
     CopyH2D nelems; CopyH2D nelems] in
  st ← launch_loop TILED env inp fuel 0 (LoopState d (of_Z 0) 0%nat before);
  let trans_time := dsub (wtime env (reads st)) (trans_time st) in
  let h := Mem (if VERBOSE then bufA (device st) else bufA h) (bufB (device st)) in
  let after :=
    [Wtime; CopyD2H nelems] ++ (if VERBOSE then [CopyD2H nelems] else [])
      ++ [FreeDevice; FreeDevice] in
  abserr ← aggregate_error (iterations inp) (order inp) (bufB h);
  let summary :=
    (if VERBOSE then [Cout [Str "Sum of absolute differences: "; Dbl abserr; Endl]]
     else []) ++ [FreeHost; FreeHost] in
  Ok (Measurement (events st ++ after ++ summary) trans_time abserr h
        (free_host (Valid (bufA h))) (free_host (Valid (bufB h)))).

(** The last statements of [main]: the verdict and the exit code. *)
Definition verdict (VERBOSE : bool) (inp : input) (r : measurement) : result outcome :=
  if dltb (abserr r) epsilon then
    Ok (Outcome (success_report inp (elapsed r)) 0)
  else
    d ← (if VERBOSE then dump (order inp) (h_a r) (h_b r) else Ok []);
    Ok (Outcome (d ++ [failure_report (abserr r)]) 1).

Definition main (TILED VERBOSE : bool) (env : prk) (fuel : nat) (argv : list string)
    : result outcome :=
  match read_input TILED env argv with
  | (warn, inl e) => Ok (Outcome (banner env ++ warn ++ [Cout [Str e; Endl]]) 1)
  | (warn, inr inp) =>
      r ← benchmark TILED VERBOSE env fuel inp;
      v ← verdict VERBOSE inp r;
      Ok (Outcome (banner env ++ warn ++ echo TILED inp ++ run_events r ++ trace v)
                  (exit_code v))
  end.

(** ** Notions used in the statements and proofs *)

(** The representation [SpecFloat] gives to [v * 2^e]: the mantissa shifted
    up to 53 digits. *)
Definition canon (s : bool) (v : positive) (e : Z) : double :=
  S754_finite s (Z.to_pos (Zpos v * 2 ^ (53 - Zpos (digits2_pos v))))
    (e + Zpos (digits2_pos v) - 53).

Definition exact_rec (z : Z) : shr_record :=
  {| shr_m := z; shr_r := false; shr_s := false |}.

(** The memory after [B[ib] += A[ia]; A[ia] += 1] when both indices are
    inside the buffers. *)
Definition accumulated (ia ib : Z) (m : mem) : mem :=
  Mem (<[Z.to_nat ia := dadd (bufA m !!! Z.to_nat ia) (of_Z 1)]> (bufA m))
      (<[Z.to_nat ib := dadd (bufB m !!! Z.to_nat ib) (bufA m !!! Z.to_nat ia)]> (bufB m)).

(** The work of the unit at coordinate [(i, j)] of a matrix with rows of
    length [w]: nothing outside the matrix. *)
Definition cell_step (w : Z) (m : mem) (p : Z * Z) : mem :=
  if (0 <=? p.1) && (p.1 <? w) && (0 <=? p.2) && (p.2 <? w)
  then accumulated (p.2 * w + p.1) (p.1 * w + p.2) m
  else m.

Definition cellwise (w : Z) (cells : list (Z * Z)) (m : mem) : mem :=
  foldl (cell_step w) m cells.

(** A memory with room for a [w] x [w] matrix in each buffer. *)
Definition holds (w : Z) (m : mem) : Prop :=
  w * w <= Z.of_nat (length (bufA m)) /\ w * w <= Z.of_nat (length (bufB m)).

(** The contract in the words of the specification: for every pair
    [(i, j)] with [0 <= i, j < order], [B[i*order+j] += A[j*order+i]] and
    [A[j*order+i] += 1.0], the right-hand sides read before the launch. *)
Definition transpose_contract (order : Z) (m m' : mem) : Prop :=
  length (bufA m') = length (bufA m) /\
  length (bufB m') = length (bufB m) /\
  forall i j, 0 <= i < order -> 0 <= j < order ->
    bufB m' !!! Z.to_nat (i * order + j) =
      dadd (bufB m !!! Z.to_nat (i * order + j)) (bufA m !!! Z.to_nat (j * order + i)) /\
    bufA m' !!! Z.to_nat (j * order + i) =
      dadd (bufA m !!! Z.to_nat (j * order + i)) (of_Z 1).

(** The coordinate [(i, j)] a thread of the element-wise kernel works on. *)
Definition thread_cell (blockDim : dim3) (t : dim3 * dim3) : Z * Z :=
  (u32 (dim_x t.1 * dim_x blockDim + dim_x t.2),
   u32 (dim_y t.1 * dim_y blockDim + dim_y t.2)).

(** The four coordinates a thread of the tiled kernel works on, one per
    band of [block_rows] rows. *)
Definition tiled_cells (t : dim3 * dim3) : list (Z * Z) :=
  (fun j => (u32 (dim_x t.1 * tile_dim + dim_x t.2),
             u32 (u32 (dim_y t.1 * tile_dim + dim_y t.2) + j))) <$> [0; 8; 16; 24].

(** A thread of a [q] x [q] grid of 32 x 8 blocks. *)
Definition tiled_thread (q : Z) (t : dim3 * dim3) : Prop :=
  0 <= dim_x t.1 < q /\ 0 <= dim_y t.1 < q /\
  0 <= dim_x t.2 < 32 /\ 0 <= dim_y t.2 < 8.

(** The projections of [input], for proofs about a matrix order or an
    iteration count that carries the same name as the field. *)
Local Abbreviation input_order := order.
Local Abbreviation input_iterations := iterations.
Local Abbreviation input_tile_size := tile_size.

(** The index pairs of two nested loops over [0, order). *)
Definition matrix_cells (order : Z) : list (Z * Z) :=
  x ← seqZ 0 order; y ← seqZ 0 order; [(x, y)].

(** What one turn of the inner filling loop stores. *)
Definition fill_step (order : Z) (h : mem) (p : Z * Z) : mem :=
  Mem (<[Z.to_nat (p.1 * order + p.2) := of_Z (p.1 * order + p.2)]> (bufA h))
      (<[Z.to_nat (p.1 * order + p.2) := of_Z 0]> (bufB h)).

Definition fill_index (order : Z) (p : Z * Z) : nat := Z.to_nat (p.1 * order + p.2).

(** One launch with the kernel and the geometry of the program. *)
Definition launch_once (TILED : bool) (inp : input) (m : mem) : result mem :=
  launch (the_kernel TILED) (dimGrid TILED inp) (dimBlock TILED inp) (order inp) m.

Fixpoint launches (TILED : bool) (inp : input) (n : nat) (m : mem) : result mem :=
  match n with
  | O => Ok m
  | S n' => m' ← launch_once TILED inp m; launches TILED inp n' m'
  end.

(** [n] turns of the loop, starting at [iter], without the loop test. *)
Fixpoint cycles (TILED : bool) (env : prk) (inp : input) (n : nat) (iter : Z)
    (st : loop_state) : result loop_state :=
  match n with
  | O => Ok st
  | S n' => st' ← cycle TILED env inp iter st; cycles TILED env inp n' (iter + 1) st'
  end.

(** The events of [n] turns of the loop, starting at [iter]. *)
Fixpoint loop_events (TILED : bool) (inp : input) (n : nat) (iter : Z) : list event :=
  match n with
  | O => []
  | S n' =>
      (if iter =? 1 then [Sync; Wtime] else [])
        ++ [Launch (dimGrid TILED inp) (dimBlock TILED inp); Sync]
        ++ loop_events TILED inp n' (iter + 1)
  end.

(** The line that announces success. *)
Definition success_line : event := Cout [Str "Solution validates"; Endl].

(** The matrices copied to the device. *)
Definition initial (order : Z) : mem :=
  Mem (of_Z <$> seqZ 0 (order * order)) (replicate (Z.to_nat (order * order)) (of_Z 0)).

(** The events of a run, from [checkDims] to the release of the host
    buffers. *)
Definition benchmark_events (TILED VERBOSE : bool) (inp : input) (abserr : double)
    : list event :=
  let nelems := order inp * order inp in
  [CheckDims (dimBlock TILED inp) (dimGrid TILED inp);
   MallocHost nelems; MallocHost nelems;
   MallocDevice nelems; MallocDevice nelems;
   CopyH2D nelems; CopyH2D nelems]
  ++ loop_events TILED inp (Z.to_nat (iterations inp + 1)) 0
  ++ ([Wtime; CopyD2H nelems] ++ (if VERBOSE then [CopyD2H nelems] else [])
        ++ [FreeDevice; FreeDevice])
  ++ (if VERBOSE then [Cout [Str "Sum of absolute differences: "; Dbl abserr; Endl]]
      else []) ++ [FreeHost; FreeHost].

(** 0 + 1 + ... + (k - 1). *)
Definition triangle (k : Z) : Z := k * (k - 1) / 2.

(** The slot of the transposed coordinate. *)
Definition transposed (order idx : Z) : Z := idx mod order * order + idx / order.

(** The memory after [k] launches, as long as every number in it is below
    2^53: A has grown by [k], and B holds [k] times the transposed initial
    A plus 0 + 1 + ... + (k - 1). *)
Definition after (order k : Z) : mem :=
  Mem ((fun idx => of_Z (idx + k)) <$> seqZ 0 (order * order))
      ((fun idx => of_Z (k * transposed order idx + triangle k)) <$> seqZ 0 (order * order)).

(** The events that reserve a buffer or start a kernel. *)
Definition allocates_or_launches (e : event) : Prop :=
  match e with
  | MallocHost _ | MallocDevice _ | Launch _ _ => True
  | _ => False
  end.

(** Every slot from [n] on holds in [m'] what it held in [m]. *)
Definition untouched_from (n : Z) (m m' : mem) : Prop :=
  forall k, n <= k ->
    bufA m' !!! Z.to_nat k = bufA m !!! Z.to_nat k /\
    bufB m' !!! Z.to_nat k = bufB m !!! Z.to_nat k.

(** The memory after [k] launches of the tiled kernel on buffers of [len]
    elements filled by [main], when the grid gives rows of length [w]: the
    first [w * w] slots are those of a [w] x [w] matrix, the others keep
    what [main] put there. *)
Definition after_tiled (w len k : Z) : mem :=
  Mem ((fun idx => of_Z (if idx <? w * w then idx + k else idx)) <$> seqZ 0 len)
      ((fun idx => of_Z (if idx <? w * w then k * transposed w idx + triangle k else 0))
         <$> seqZ 0 len).

(** A number, as opposed to an infinity or a NaN. *)
Definition is_finite (x : double) : bool :=
  match x with
  | S754_zero _ | S754_finite _ _ _ => true
  | S754_infinity _ | S754_nan => false
  end.

(** * Properties *)

(** ** Tactics *)

(** Settles a goal [b = (x <? y)] and the like, where [b] is the value the
    test has by linear arithmetic. *)
Ltac settle_test :=
  symmetry;
  first [apply Z.ltb_ge | apply Z.ltb_lt | apply Z.leb_le | apply Z.leb_gt
        | apply Z.eqb_neq | apply Z.eqb_eq];
  lia.

(** ** Binary64: operations that are exact

    Every double in play is a non-negative dyadic number [v * 2^e] with
    [v < 2^53]. For those the rounding step of [SpecFloat] does nothing,
    and sums, products and halvings whose result is again of that form are
    computed exactly. *)

Lemma digits2_log2 p : Zpos (digits2_pos p) = Z.log2 (Zpos p) + 1.
Proof.
  induction p as [p IH|p IH|]; simpl; try reflexivity.
  - rewrite Pos2Z.inj_succ, IH. destruct p; simpl; lia.
  - rewrite Pos2Z.inj_succ, IH. destruct p; simpl; lia.
Qed.

Lemma digits2_shift (m v : positive) k :
  0 <= k -> Zpos m = Zpos v * 2 ^ k ->
  Zpos (digits2_pos m) = Zpos (digits2_pos v) + k.
Proof.
  intros Hk Hm. rewrite !digits2_log2, Hm, Z.log2_mul_pow2 by lia. lia.
Qed.

Lemma digits2_lt (v : positive) d :
  0 <= d -> Zpos v < 2 ^ d -> Zpos (digits2_pos v) <= d.
Proof.
  intros Hd Hv. rewrite digits2_log2.
  destruct (Z.log2_spec (Zpos v)) as [Hlo _]; [lia|].
  assert (2 ^ Z.log2 (Z.pos v) < 2 ^ d) as H by lia.
  apply Z.pow_lt_mono_r_iff in H; lia.
Qed.

Lemma shr_1_double z : shr_1 (exact_rec (2 * z)) = exact_rec z.
Proof. destruct z; reflexivity. Qed.

Lemma pow2_xO p : 2 ^ Zpos p~0 = 2 ^ Zpos p * 2 ^ Zpos p.
Proof. rewrite <- Z.pow_add_r by lia. f_equal. lia. Qed.

Lemma pow2_xI p : 2 ^ Zpos p~1 = 2 * (2 ^ Zpos p * 2 ^ Zpos p).
Proof.
  rewrite <- Z.pow_add_r, <- Z.pow_succ_r by lia. f_equal. lia.
Qed.

Lemma iter_shr_1_exact p : forall z,
  SpecFloat.iter_pos shr_1 p (exact_rec (z * 2 ^ Zpos p)) = exact_rec z.
Proof.
  induction p as [p IH|p IH|]; intros z; cbn [SpecFloat.iter_pos].
  - replace (z * 2 ^ Zpos p~1) with (2 * ((z * 2 ^ Zpos p) * 2 ^ Zpos p))
      by (rewrite pow2_xI; ring).
    now rewrite shr_1_double, !IH.
  - replace (z * 2 ^ Zpos p~0) with ((z * 2 ^ Zpos p) * 2 ^ Zpos p)
      by (rewrite pow2_xO; ring).
    now rewrite !IH.
  - replace (z * 2 ^ 1) with (2 * z) by (change (2 ^ 1) with 2; ring).
    apply shr_1_double.
Qed.

Lemma shr_exact z e n :
  0 <= n -> shr (exact_rec (z * 2 ^ n)) e n = (exact_rec z, e + n).
Proof.
  intros Hn. destruct n as [|p|p]; [| |lia]; unfold shr.
  - now rewrite Z.mul_1_r, Z.add_0_r.
  - now rewrite iter_shr_1_exact.
Qed.

(** A 53-digit mantissa within the exponent range is left alone. *)
Lemma binary_round_aux_shift s (m m' : positive) e n :
  0 <= n -> Zpos m = Zpos m' * 2 ^ n -> Zpos (digits2_pos m') = 53 ->
  -1074 <= e + n <= 971 ->
  binary_round_aux 53 1024 s (Zpos m) e loc_Exact = S754_finite s m' (e + n).
Proof.
  intros Hn Hm Hd He.
  assert (Hdm := digits2_shift m m' n Hn Hm).
  unfold binary_round_aux, shr_fexp, fexp, emin. cbn [Zdigits2 shr_record_of_loc].
  rewrite Hdm, Hd.
  replace (Z.max (53 + n + e - 53) (3 - 1024 - 53) - e) with n by lia.
  fold (exact_rec (Zpos m)). rewrite Hm, shr_exact by lia.
  cbn [exact_rec shr_m loc_of_shr_record round_nearest_even Zdigits2 shr_record_of_loc].
  rewrite Hd.
  replace (Z.max (53 + (e + n) - 53) (3 - 1024 - 53) - (e + n)) with 0 by lia.
  cbn [shr shr_m].
  replace (e + n <=? 1024 - 53) with true by settle_test.
  reflexivity.
Qed.

Lemma pos_iter_xO (m d : positive) :
  Zpos (Pos.iter xO m d) = Zpos m * 2 ^ Zpos d.
Proof.
  revert m. induction d as [d IH|d IH|]; intros m; cbn [Pos.iter].
  - rewrite Pos2Z.inj_xO, !IH, pow2_xI. ring.
  - rewrite !IH, pow2_xO. ring.
  - rewrite Pos2Z.inj_xO. change (2 ^ 1) with 2. ring.
Qed.

Lemma shl_align_le (mx : positive) ex ez :
  ez <= ex ->
  exists mz, shl_align mx ex ez = (mz, ez) /\ Zpos mz = Zpos mx * 2 ^ (ex - ez).
Proof.
  intros Hle. unfold shl_align.
  destruct (ez - ex) as [|d|d] eqn:Hd; try lia.
  - exists mx. replace ex with ez by lia. rewrite Z.sub_diag. split; [easy|lia].
  - exists (Pos.iter xO mx d). split; [easy|].
    rewrite pos_iter_xO. f_equal. f_equal. lia.
Qed.

(** Rounding a dyadic number whose odd part fits 53 bits is exact: the
    result is the canonical representation of [v * 2 ^ (e + k)]. *)
Lemma binary_round_exact s (m v : positive) e k :
  0 <= k -> Zpos m = Zpos v * 2 ^ k -> Zpos (digits2_pos v) <= 53 ->
  -1074 <= e + k + Zpos (digits2_pos v) - 53 <= 971 ->
  binary_round 53 1024 s m e = canon s v (e + k).
Proof.
  intros Hk Hm Hd He.
  assert (Hdm := digits2_shift m v k Hk Hm).
  set (dv := Zpos (digits2_pos v)) in *.
  assert (0 < dv) by (unfold dv; lia).
  unfold binary_round, fexp, emin. rewrite Hdm.
  replace (Z.max (dv + k + e - 53) (3 - 1024 - 53)) with (e + (dv + k - 53)) by lia.
  unfold canon. fold dv.
  set (v' := Z.to_pos (Zpos v * 2 ^ (53 - dv))).
  assert (Hv' : Zpos v' = Zpos v * 2 ^ (53 - dv)).
  { unfold v'. rewrite Z2Pos.id; [easy|]. apply Z.mul_pos_pos; [lia|].
    apply Z.pow_pos_nonneg; lia. }
  assert (Hdv' : Zpos (digits2_pos v') = 53).
  { rewrite (digits2_shift v' v (53 - dv)); fold dv; lia. }
  destruct (Z.le_gt_cases (e + (dv + k - 53)) e) as [Hle|Hgt].
  - destruct (shl_align_le m e _ Hle) as (mz & -> & Hmz).
    assert (mz = v') as ->.
    { apply Pos2Z.inj. rewrite Hmz, Hv', Hm, <- Z.mul_assoc, <- Z.pow_add_r by lia.
      do 2 f_equal. lia. }
    rewrite (binary_round_aux_shift s v' v' _ 0); try lia.
    f_equal. lia.
  - unfold shl_align.
    destruct (e + (dv + k - 53) - e) as [|d|d] eqn:Hd'; try lia.
    rewrite (binary_round_aux_shift s m v' e (dv + k - 53)); try lia.
    + f_equal. lia.
    + rewrite Hm, Hv', <- Z.mul_assoc, <- Z.pow_add_r by lia. do 2 f_equal. lia.
Qed.

Lemma dyadic_exact (v : positive) k e :
  0 <= k -> Zpos (digits2_pos v) <= 53 ->
  -1074 <= e + k + Zpos (digits2_pos v) - 53 <= 971 ->
  dyadic (Zpos v * 2 ^ k) e = canon false v (e + k).
Proof.
  intros Hk Hd He. unfold dyadic, binary_normalize.
  assert (0 < Zpos v * 2 ^ k) as Hpos.
  { apply Z.mul_pos_pos; [lia|]. apply Z.pow_pos_nonneg; lia. }
  destruct (Zpos v * 2 ^ k) as [|m|m] eqn:Hm; try lia.
  now apply binary_round_exact.
Qed.

Lemma dyadic_canon (v : positive) e :
  Zpos (digits2_pos v) <= 53 ->
  -1074 <= e + Zpos (digits2_pos v) - 53 <= 971 ->
  dyadic (Zpos v) e = canon false v e.
Proof.
  intros Hd He. rewrite <- (Z.mul_1_r (Zpos v)) at 1.
  change 1 with (2 ^ 0) at 1. rewrite dyadic_exact by lia. f_equal. lia.
Qed.

(** The value alone determines the result: powers of two move freely
    between mantissa and exponent. *)
Lemma dyadic_shift v k e :
  0 < v < 2 ^ 53 -> 0 <= k -> -1000 <= e + k <= 900 ->
  dyadic (v * 2 ^ k) e = dyadic v (e + k).
Proof.
  intros Hv Hk He. destruct v as [|v|v]; try lia.
  assert (Zpos (digits2_pos v) <= 53) by (apply digits2_lt; lia).
  assert (0 < Zpos (digits2_pos v)) by lia.
  rewrite dyadic_exact, dyadic_canon by lia. reflexivity.
Qed.

Lemma digits2_bounds (v : positive) :
  2 ^ (Zpos (digits2_pos v) - 1) <= Zpos v < 2 ^ Zpos (digits2_pos v).
Proof.
  rewrite digits2_log2. replace (Z.log2 (Zpos v) + 1 - 1) with (Z.log2 (Zpos v)) by lia.
  apply Z.log2_spec. lia.
Qed.

Lemma canon_mantissa (v : positive) :
  Zpos (digits2_pos v) <= 53 ->
  Zpos (Z.to_pos (Zpos v * 2 ^ (53 - Zpos (digits2_pos v)))) =
  Zpos v * 2 ^ (53 - Zpos (digits2_pos v)).
Proof.
  intros Hd. rewrite Z2Pos.id; [easy|]. apply Z.mul_pos_pos; [lia|].
  apply Z.pow_pos_nonneg; lia.
Qed.

Lemma dyadic_zero e : dyadic 0 e = S754_zero false.
Proof. reflexivity. Qed.

Lemma dyadic_pos v e :
  0 < v < 2 ^ 53 -> -1000 <= e <= 900 -> dyadic v e = canon false (Z.to_pos v) e.
Proof.
  intros Hv He. destruct v as [|v|v]; try lia.
  assert (Zpos (digits2_pos v) <= 53) by (apply digits2_lt; lia).
  assert (0 < Zpos (digits2_pos v)) by lia.
  cbn [Z.to_pos]. apply dyadic_canon; lia.
Qed.

Lemma dadd_dyadic a b e :
  0 <= a -> 0 <= b -> a + b < 2 ^ 53 -> -1000 <= e <= 900 ->
  dadd (dyadic a e) (dyadic b e) = dyadic (a + b) e.
Proof.
  intros Ha Hb Hab He.
  destruct (Z.eq_dec a 0) as [->|Ha0]; destruct (Z.eq_dec b 0) as [->|Hb0];
    rewrite ?dyadic_zero; try reflexivity.
  - rewrite Z.add_0_l, dyadic_pos by lia. reflexivity.
  - rewrite Z.add_0_r, dyadic_pos by lia. reflexivity.
  - rewrite (dyadic_pos a), (dyadic_pos b) by lia.
    destruct a as [|a|a], b as [|b|b]; try lia. cbn [Z.to_pos].
    assert (Zpos (digits2_pos a) <= 53) as Hda by (apply digits2_lt; lia).
    assert (Zpos (digits2_pos b) <= 53) as Hdb by (apply digits2_lt; lia).
    unfold canon, dadd, SFadd. cbn [cond_Zopp].
    set (ez := Z.min _ _).
    destruct (shl_align_le (Z.to_pos (Zpos a * 2 ^ (53 - Zpos (digits2_pos a))))
                (e + Zpos (digits2_pos a) - 53) ez) as (ma & -> & Hma); [lia|].
    destruct (shl_align_le (Z.to_pos (Zpos b * 2 ^ (53 - Zpos (digits2_pos b))))
                (e + Zpos (digits2_pos b) - 53) ez) as (mb & -> & Hmb); [lia|].
    cbn [fst]. rewrite Hma, Hmb, !canon_mantissa by lia.
    rewrite <- !Z.mul_assoc, <- !Z.pow_add_r by lia.
    replace (53 - Zpos (digits2_pos a) + (e + Zpos (digits2_pos a) - 53 - ez))
      with (e - ez) by lia.
    replace (53 - Zpos (digits2_pos b) + (e + Zpos (digits2_pos b) - 53 - ez))
      with (e - ez) by lia.
    rewrite <- Z.mul_add_distr_r.
    fold (dyadic ((Zpos a + Zpos b) * 2 ^ (e - ez)) ez).
    rewrite dyadic_shift by lia. f_equal. lia.
Qed.

Lemma dsub_dyadic_diag a e :
  0 <= a < 2 ^ 53 -> -1000 <= e <= 900 ->
  dsub (dyadic a e) (dyadic a e) = S754_zero false.
Proof.
  intros Ha He. destruct (Z.eq_dec a 0) as [->|Ha0]; [reflexivity|].
  rewrite dyadic_pos by lia. unfold canon, dsub, SFsub. cbn [cond_Zopp].
  rewrite Z.min_id, Z.sub_diag. reflexivity.
Qed.

Lemma dmul_dyadic a b ea eb v k :
  0 <= a < 2 ^ 53 -> 0 <= b < 2 ^ 53 ->
  a * b = v * 2 ^ k -> 0 <= v < 2 ^ 53 -> 0 <= k ->
  -300 <= ea <= 300 -> -300 <= eb <= 300 -> k <= 200 ->
  dmul (dyadic a ea) (dyadic b eb) = dyadic v (ea + eb + k).
Proof.
  intros Ha Hb Hab Hv Hk Hea Heb Hk'.
  assert (0 < 2 ^ k) as Hpk by (apply Z.pow_pos_nonneg; lia).
  destruct (Z.eq_dec a 0) as [->|Ha0].
  { assert (v = 0) as -> by nia. rewrite !dyadic_zero.
    destruct (Z.eq_dec b 0) as [->|Hb0]; [reflexivity|].
    rewrite dyadic_pos by lia. reflexivity. }
  destruct (Z.eq_dec b 0) as [->|Hb0].
  { assert (v = 0) as -> by nia. rewrite !dyadic_zero, dyadic_pos by lia.
    reflexivity. }
  assert (0 < v) as Hv0 by nia.
  rewrite (dyadic_pos a), (dyadic_pos b), (dyadic_pos v) by lia.
  destruct a as [|a|a], b as [|b|b], v as [|v|v]; try lia. cbn [Z.to_pos].
  assert (Zpos (digits2_pos a) <= 53) as Hda by (apply digits2_lt; lia).
  assert (Zpos (digits2_pos b) <= 53) as Hdb by (apply digits2_lt; lia).
  assert (Zpos (digits2_pos v) <= 53) as Hdv by (apply digits2_lt; lia).
  pose proof (digits2_bounds a) as Hba. pose proof (digits2_bounds b) as Hbb.
  pose proof (digits2_bounds v) as Hbv.
  set (da := Zpos (digits2_pos a)) in *. set (db := Zpos (digits2_pos b)) in *.
  set (dv := Zpos (digits2_pos v)) in *.
  assert (0 < da) by (unfold da; lia). assert (0 < db) by (unfold db; lia).
  assert (0 < dv) by (unfold dv; lia).
  assert (da + db - 2 < dv + k) as Hdig.
  { apply (Z.pow_lt_mono_r_iff 2); [lia|lia|].
    replace (da + db - 2) with ((da - 1) + (db - 1)) by lia.
    rewrite !Z.pow_add_r by lia.
    apply Z.le_lt_trans with (Zpos a * Zpos b).
    - apply Z.mul_le_mono_nonneg; try lia; apply Z.pow_nonneg; lia.
    - rewrite Hab. apply Z.mul_lt_mono_pos_r; lia. }
  unfold canon at 1 2. fold da db. unfold dmul, SFmul. cbn [xorb].
  unfold canon. fold dv.
  rewrite (binary_round_aux_shift false _ (Z.to_pos (Zpos v * 2 ^ (53 - dv))) _
             (k + 53 + dv - da - db)).
  - f_equal. lia.
  - lia.
  - rewrite Pos2Z.inj_mul. unfold da, db, dv. rewrite !canon_mantissa by assumption.
    fold da db dv.
    replace (Zpos a * 2 ^ (53 - da) * (Zpos b * 2 ^ (53 - db)))
      with ((Zpos a * Zpos b) * (2 ^ (53 - da) * 2 ^ (53 - db))) by ring.
    rewrite Hab, <- !Z.mul_assoc, <- !Z.pow_add_r by lia. do 2 f_equal. lia.
  - rewrite (digits2_shift _ v (53 - dv)); fold dv; lia.
  - lia.
Qed.

Lemma div_eucl_eq a b : Z.div_eucl a b = (a / b, a mod b).
Proof. unfold Z.div, Z.modulo. now destruct (Z.div_eucl a b). Qed.

Lemma ddiv_dyadic_2 a e :
  0 <= a < 2 ^ 53 -> -900 <= e <= 900 ->
  ddiv (dyadic a e) (dyadic 2 0) = dyadic a (e - 1).
Proof.
  intros Ha He. destruct (Z.eq_dec a 0) as [->|Ha0]; [reflexivity|].
  rewrite (dyadic_pos a e), (dyadic_pos a (e - 1)) by lia.
  destruct a as [|a|a]; try lia. cbn [Z.to_pos].
  assert (Zpos (digits2_pos a) <= 53) as Hda by (apply digits2_lt; lia).
  change (dyadic 2 0) with (S754_finite false 4503599627370496 (-51)).
  unfold canon. set (da := Zpos (digits2_pos a)) in *.
  assert (0 < da) by (unfold da; lia).
  set (ma := Z.to_pos _).
  assert (Hma : Zpos ma = Zpos a * 2 ^ (53 - da)) by (apply canon_mantissa; assumption).
  assert (Hdma : Zpos (digits2_pos ma) = 53).
  { rewrite (digits2_shift ma a (53 - da)); fold da; lia. }
  unfold ddiv, SFdiv, SFdiv_core_binary, fexp, emin. cbn [Zdigits2 xorb].
  rewrite Hdma. change (Zpos (digits2_pos 4503599627370496)) with 53.
  set (ex := e + da - 53).
  replace (Z.min (Z.max (53 + ex - (53 + -51) - 53) (3 - 1024 - 53)) (ex - -51))
    with (ex - 2) by lia.
  replace (ex - -51 - (ex - 2)) with 53 by lia.
  rewrite Z.shiftl_mul_pow2, div_eucl_eq by lia.
  replace (Zpos ma * 2 ^ 53) with ((2 * Zpos ma) * 4503599627370496)
    by (change (2 ^ 53) with (2 * 4503599627370496); ring).
  rewrite Z.div_mul, Z.mod_mul by lia.
  change (new_location 4503599627370496 0) with loc_Exact.
  change (2 * Zpos ma) with (Zpos ma~0).
  rewrite (binary_round_aux_shift false _ ma _ 1); try lia.
  f_equal. unfold ex. lia.
Qed.

(** ** Loops over lists *)

Lemma for_each_app {S T} (body : T -> S -> result S) l1 l2 s :
  for_each body (l1 ++ l2) s = for_each body l1 s ≫= for_each body l2.
Proof.
  revert s. induction l1 as [|t l1 IH]; intros s; [reflexivity|].
  cbn [app for_each]. destruct (body t s) as [s'|f]; [apply IH|reflexivity].
Qed.

Lemma for_each_bind {S T U} (body : U -> S -> result S) (h : T -> list U) l s :
  for_each body (l ≫= h) s = for_each (fun t => for_each body (h t)) l s.
Proof.
  revert s. induction l as [|t l IH]; intros s; [reflexivity|].
  rewrite bind_cons, for_each_app. cbn [for_each].
  destruct (for_each body (h t) s) as [s'|f]; [apply IH|reflexivity].
Qed.

Lemma for_each_fmap {S T U} (body : U -> S -> result S) (g : T -> U) l s :
  for_each body (g <$> l) s = for_each (fun t => body (g t)) l s.
Proof.
  revert s. induction l as [|t l IH]; intros s; [reflexivity|].
  cbn [fmap list_fmap for_each]. destruct (body (g t) s); [apply IH|reflexivity].
Qed.

(** A loop whose body cannot fault while an invariant holds is a fold. *)
Lemma for_each_pure {S T} (Inv : S -> Prop) (body : T -> S -> result S)
    (f : S -> T -> S) l s :
  (forall t s, t ∈ l -> Inv s -> body t s = Ok (f s t) /\ Inv (f s t)) ->
  Inv s ->
  for_each body l s = Ok (foldl f s l) /\ Inv (foldl f s l).
Proof.
  revert s. induction l as [|t l IH]; intros s Hbody Hs; [easy|].
  destruct (Hbody t s) as [Heq Hinv]; [left|assumption|].
  cbn [for_each foldl]. rewrite Heq. apply IH; [|assumption].
  intros t' s' Ht'. apply Hbody. now right.
Qed.

(** Lists built by two nested loops. *)
Lemma elem_of_nested {X Y T} (g : X -> Y -> T) (l1 : list X) (l2 : list Y) t :
  t ∈ (x ← l1; y ← l2; [g x y]) <-> exists x y, x ∈ l1 /\ y ∈ l2 /\ t = g x y.
Proof.
  rewrite list_elem_of_bind. split.
  - intros (x & Ht & Hx). apply list_elem_of_bind in Ht as (y & Ht & Hy).
    apply list_elem_of_singleton in Ht. eauto.
  - intros (x & y & Hx & Hy & ->). exists x. split; [|assumption].
    apply list_elem_of_bind. exists y. split; [|assumption].
    now apply list_elem_of_singleton.
Qed.

Lemma NoDup_nested {X Y T} (g : X -> Y -> T) (l1 : list X) (l2 : list Y) :
  NoDup l1 -> NoDup l2 ->
  (forall x y x' y', x ∈ l1 -> y ∈ l2 -> x' ∈ l1 -> y' ∈ l2 ->
     g x y = g x' y' -> x = x' /\ y = y') ->
  NoDup (x ← l1; y ← l2; [g x y]).
Proof.
  intros H1 H2 Hinj. apply NoDup_bind; [| |assumption].
  - intros x x' t Hx Hx' Ht Ht'.
    apply list_elem_of_bind in Ht as (y & Ht & Hy).
    apply list_elem_of_bind in Ht' as (y' & Ht' & Hy').
    apply list_elem_of_singleton in Ht, Ht'. subst t.
    now destruct (Hinj x y x' y').
  - intros x Hx. apply NoDup_bind; [| |assumption].
    + intros y y' t Hy Hy' Ht Ht'.
      apply list_elem_of_singleton in Ht, Ht'. subst t.
      now destruct (Hinj x y x y').
    + intros y _. apply NoDup_singleton.
Qed.

Lemma foldl_commute_perm {S T} (f : S -> T -> S) l1 l2 :
  (forall s t t', f (f s t) t' = f (f s t') t) ->
  l1 ≡ₚ l2 -> forall s, foldl f s l1 = foldl f s l2.
Proof.
  intros Hcomm. induction 1 as [|t l1 l2 _ IH|t t' l|l1 l2 l3 _ IH1 _ IH2];
    intros s; cbn [foldl].
  - reflexivity.
  - apply IH.
  - now rewrite Hcomm.
  - now rewrite IH1.
Qed.

Lemma foldl_ext_elem {S T} (f g : S -> T -> S) l : forall s,
  (forall s t, t ∈ l -> f s t = g s t) -> foldl f s l = foldl g s l.
Proof.
  induction l as [|t l IH]; intros s Hfg; [reflexivity|].
  cbn [foldl]. rewrite Hfg by left. apply IH. intros s' t' Ht'. apply Hfg. now right.
Qed.

Lemma foldl_bind_list {S T U} (f : S -> U -> S) (h : T -> list U) l : forall s,
  foldl f s (l ≫= h) = foldl (fun s t => foldl f s (h t)) s l.
Proof.
  induction l as [|t l IH]; intros s; [reflexivity|].
  rewrite bind_cons, foldl_app. cbn [foldl]. apply IH.
Qed.

(** ** Machine integers *)

Lemma u32_small v : 0 <= v < 4294967296 -> u32 v = v.
Proof. intros Hv. unfold u32. now apply Z.mod_small. Qed.

Lemma u32_range v : 0 <= u32 v < 4294967296.
Proof. unfold u32. apply Z.mod_pos_bound. lia. Qed.

Lemma u32_le v : 0 <= v -> u32 v <= v.
Proof. intros Hv. unfold u32. apply Z.mod_le; lia. Qed.

Lemma size_t_small v : 0 <= v < 18446744073709551616 -> size_t v = v.
Proof. intros Hv. unfold size_t. now apply Z.mod_small. Qed.

Lemma int_wrap_small v : -2147483648 <= v <= INT_MAX -> int_wrap v = v.
Proof. unfold int_wrap, INT_MAX. intros Hv. rewrite Z.mod_small; lia. Qed.

Lemma int_add_ok a b : -2147483648 <= a + b <= INT_MAX -> int_add a b = Ok (a + b).
Proof.
  intros Hv. unfold int_add.
  replace ((-2147483648 <=? a + b) && (a + b <=? INT_MAX)) with true; [reflexivity|].
  symmetry. rewrite andb_true_iff, !Z.leb_le. lia.
Qed.

Lemma int_mul_ok a b : -2147483648 <= a * b <= INT_MAX -> int_mul a b = Ok (a * b).
Proof.
  intros Hv. unfold int_mul.
  replace ((-2147483648 <=? a * b) && (a * b <=? INT_MAX)) with true; [reflexivity|].
  symmetry. rewrite andb_true_iff, !Z.leb_le. lia.
Qed.

Lemma cell_index_range w i j : 0 <= i < w -> 0 <= j < w -> 0 <= j * w + i < w * w.
Proof. intros Hi Hj. nia. Qed.

Lemma cell_index_inj w i j i' j' :
  0 <= i < w -> 0 <= i' < w -> j * w + i = j' * w + i' -> i = i' /\ j = j'.
Proof.
  intros Hi Hi' Heq. assert (j = j') as ->; [|lia].
  destruct (Z.lt_trichotomy j j') as [Hlt|[Heq'|Hgt]]; [|assumption|].
  - assert (j * w + w <= j' * w) by nia. lia.
  - assert (j' * w + w <= j * w) by nia. lia.
Qed.

Lemma a_index_exact w i j :
  0 <= i < w -> 0 <= j < w -> w * w <= 4294967296 -> a_index w i j = j * w + i.
Proof.
  intros Hi Hj Hw. unfold a_index. apply u32_small.
  pose proof (cell_index_range w i j Hi Hj). lia.
Qed.

Lemma b_index_exact w i j :
  0 <= i < w -> 0 <= j < w -> w * w <= 4294967296 -> b_index w i j = i * w + j.
Proof.
  intros Hi Hj Hw. unfold b_index. apply u32_small.
  pose proof (cell_index_range w j i Hj Hi). lia.
Qed.

(** ** One cell of the transposition *)

Lemma in_bounds_true k n : 0 <= k < n -> (0 <=? k) && (k <? n) = true.
Proof. intros Hk. apply andb_true_iff. split; [apply Z.leb_le|apply Z.ltb_lt]; lia. Qed.

Lemma accumulate_ok ia ib m :
  0 <= ia < Z.of_nat (length (bufA m)) -> 0 <= ib < Z.of_nat (length (bufB m)) ->
  accumulate ia ib m = Ok (accumulated ia ib m).
Proof.
  intros Ha Hb. unfold accumulate, load, store.
  rewrite !in_bounds_true by assumption. reflexivity.
Qed.

Lemma accumulated_length ia ib m :
  length (bufA (accumulated ia ib m)) = length (bufA m) /\
  length (bufB (accumulated ia ib m)) = length (bufB m).
Proof. unfold accumulated. cbn [bufA bufB]. now rewrite !length_insert. Qed.

Lemma cell_step_length w m p :
  length (bufA (cell_step w m p)) = length (bufA m) /\
  length (bufB (cell_step w m p)) = length (bufB m).
Proof. unfold cell_step. case_match; [apply accumulated_length|easy]. Qed.

Lemma cell_step_holds w w' m p : holds w' m -> holds w' (cell_step w m p).
Proof.
  unfold holds. destruct (cell_step_length w m p) as [-> ->]. easy.
Qed.

Lemma cellwise_length w cells : forall m,
  length (bufA (cellwise w cells m)) = length (bufA m) /\
  length (bufB (cellwise w cells m)) = length (bufB m).
Proof.
  induction cells as [|p cells IH]; intros m; [easy|].
  unfold cellwise in *. cbn [foldl].
  destruct (IH (cell_step w m p)) as [-> ->]. apply cell_step_length.
Qed.

Lemma cell_step_in w m i j :
  0 <= i < w -> 0 <= j < w ->
  cell_step w m (i, j) = accumulated (j * w + i) (i * w + j) m.
Proof.
  intros Hi Hj. unfold cell_step. cbn [fst snd].
  replace ((0 <=? i) && (i <? w) && (0 <=? j) && (j <? w)) with true; [reflexivity|].
  symmetry. rewrite !andb_true_iff, !Z.leb_le, !Z.ltb_lt. lia.
Qed.

Lemma cell_step_out w m p :
  ~ (0 <= p.1 < w /\ 0 <= p.2 < w) -> cell_step w m p = m.
Proof.
  intros Hout. unfold cell_step. case_match eqn:Hg; [|reflexivity].
  rewrite !andb_true_iff, !Z.leb_le, !Z.ltb_lt in Hg. lia.
Qed.

(** Two units never meet in the same slot, so their order is immaterial. *)
Lemma cell_step_commute w m p q :
  cell_step w (cell_step w m p) q = cell_step w (cell_step w m q) p.
Proof.
  destruct (decide (p = q)) as [->|Hpq]; [reflexivity|].
  destruct (decide (0 <= p.1 < w /\ 0 <= p.2 < w)) as [Hp|Hp];
    [|now rewrite !(cell_step_out w _ p)].
  destruct (decide (0 <= q.1 < w /\ 0 <= q.2 < w)) as [Hq|Hq];
    [|now rewrite !(cell_step_out w _ q)].
  destruct p as [i j], q as [i' j']. cbn [fst snd] in *.
  rewrite !cell_step_in by lia.
  pose proof (cell_index_range w i j) as Ha. pose proof (cell_index_range w j i) as Hb.
  pose proof (cell_index_range w i' j') as Ha'. pose proof (cell_index_range w j' i') as Hb'.
  assert (Z.to_nat (j * w + i) <> Z.to_nat (j' * w + i')) as Hne.
  { intros Heq. apply Hpq. destruct (cell_index_inj w i j i' j'); [lia..|congruence]. }
  assert (Z.to_nat (i * w + j) <> Z.to_nat (i' * w + j')) as Hne'.
  { intros Heq. apply Hpq. destruct (cell_index_inj w j i j' i'); [lia..|congruence]. }
  unfold accumulated. cbn [bufA bufB].
  rewrite !list_lookup_total_insert_ne by congruence.
  f_equal; now apply list_insert_insert_ne.
Qed.

Lemma cellwise_perm w cells cells' m :
  cells ≡ₚ cells' -> cellwise w cells m = cellwise w cells' m.
Proof.
  intros Hperm. unfold cellwise.
  apply foldl_commute_perm; [|assumption]. intros. apply cell_step_commute.
Qed.

(** ** The contract of one launch *)

(** What a list of distinct units leaves in each slot of the matrix. *)
Lemma cellwise_lookup w cells :
  NoDup cells -> forall m, holds w m ->
  forall i j, 0 <= i < w -> 0 <= j < w ->
    bufB (cellwise w cells m) !!! Z.to_nat (i * w + j) =
      (if decide ((i, j) ∈ cells)
       then dadd (bufB m !!! Z.to_nat (i * w + j)) (bufA m !!! Z.to_nat (j * w + i))
       else bufB m !!! Z.to_nat (i * w + j)) /\
    bufA (cellwise w cells m) !!! Z.to_nat (j * w + i) =
      (if decide ((i, j) ∈ cells)
       then dadd (bufA m !!! Z.to_nat (j * w + i)) (of_Z 1)
       else bufA m !!! Z.to_nat (j * w + i)).
Proof.
  induction 1 as [|p cells Hp Hnd IH]; intros m Hm i j Hi Hj.
  { rewrite !decide_False by apply not_elem_of_nil. easy. }
  unfold cellwise in *. cbn [foldl].
  specialize (IH (cell_step w m p) (cell_step_holds w w m p Hm) i j Hi Hj).
  destruct IH as [IHb IHa]. rewrite IHb, IHa. clear IHa IHb.
  pose proof (cell_index_range w i j Hi Hj) as Hij.
  pose proof (cell_index_range w j i Hj Hi) as Hji.
  destruct Hm as [HmA HmB].
  destruct (decide (p = (i, j))) as [->|Hne].
  - rewrite !(decide_False (P := (i, j) ∈ cells)) by assumption.
    rewrite !(decide_True (P := (i, j) ∈ (i, j) :: cells)) by left.
    rewrite cell_step_in by assumption. unfold accumulated. cbn [bufA bufB].
    rewrite !list_lookup_total_insert_eq by lia. easy.
  - assert (bufB (cell_step w m p) !!! Z.to_nat (i * w + j) = bufB m !!! Z.to_nat (i * w + j)
            /\ bufA (cell_step w m p) !!! Z.to_nat (j * w + i) = bufA m !!! Z.to_nat (j * w + i))
      as [-> ->].
    { destruct (decide (0 <= p.1 < w /\ 0 <= p.2 < w)) as [Hin|Hout];
        [|now rewrite cell_step_out].
      destruct p as [i' j']. cbn [fst snd] in Hin. rewrite cell_step_in by lia.
      pose proof (cell_index_range w i' j') as Ha'.
      pose proof (cell_index_range w j' i') as Hb'.
      assert (Z.to_nat (j' * w + i') <> Z.to_nat (j * w + i)) as Hna.
      { intros Heq. apply Hne. destruct (cell_index_inj w i' j' i j); [lia..|congruence]. }
      assert (Z.to_nat (i' * w + j') <> Z.to_nat (i * w + j)) as Hnb.
      { intros Heq. apply Hne. destruct (cell_index_inj w j' i' j i); [lia..|congruence]. }
      unfold accumulated. cbn [bufA bufB].
      now rewrite !list_lookup_total_insert_ne by assumption. }
    destruct (decide ((i, j) ∈ cells)) as [Hin|Hout].
    + rewrite !(decide_True (P := (i, j) ∈ p :: cells)) by now right. easy.
    + assert ((i, j) ∉ p :: cells) as Hnot
        by (intros [?|?]%elem_of_cons; congruence).
      now rewrite !(decide_False (P := (i, j) ∈ p :: cells)) by assumption.
Qed.

(** Distinct units that cover the matrix carry out the contract. *)
Lemma cellwise_contract w cells m :
  NoDup cells -> holds w m ->
  (forall i j, 0 <= i < w -> 0 <= j < w -> (i, j) ∈ cells) ->
  transpose_contract w m (cellwise w cells m).
Proof.
  intros Hnd Hm Hall. destruct (cellwise_length w cells m) as [HlA HlB].
  repeat split; try assumption.
  - destruct (cellwise_lookup w cells Hnd m Hm i j) as [-> _]; try assumption.
    now rewrite !decide_True by now apply Hall.
  - destruct (cellwise_lookup w cells Hnd m Hm i j) as [_ ->]; try assumption.
    now rewrite !decide_True by now apply Hall.
Qed.

Lemma slot_decompose w k :
  0 <= w -> 0 <= k < w * w -> 0 <= k mod w < w /\ 0 <= k / w < w /\ k = (k / w) * w + k mod w.
Proof.
  intros Hw0 Hk. assert (0 < w) as Hw by nia.
  pose proof (Z.mod_pos_bound k w Hw). pose proof (Z.div_mod k w ltac:(lia)).
  assert (0 <= k / w) by (apply Z.div_pos; lia).
  assert (k / w < w) by (apply Z.div_lt_upper_bound; lia).
  lia.
Qed.

(** On matrices of exactly [order] x [order] slots the contract leaves no
    freedom. *)
Lemma transpose_contract_deterministic order m m1 m2 :
  0 <= order ->
  Z.of_nat (length (bufA m)) = order * order ->
  Z.of_nat (length (bufB m)) = order * order ->
  transpose_contract order m m1 -> transpose_contract order m m2 -> m1 = m2.
Proof.
  intros Hord HA HB (HlA1 & HlB1 & H1) (HlA2 & HlB2 & H2).
  destruct m1 as [A1 B1], m2 as [A2 B2]. cbn [bufA bufB] in *.
  f_equal; apply list_eq_same_length with (n := Z.to_nat (order * order));
    try lia; intros n v1 v2 Hn Hv1 Hv2.
  - destruct (slot_decompose order (Z.of_nat n)) as (Hi & Hj & Hk); [lia..|].
    destruct (H1 _ _ Hi Hj) as [_ E1]. destruct (H2 _ _ Hi Hj) as [_ E2].
    rewrite <- Hk, Nat2Z.id in E1, E2.
    apply list_lookup_total_correct in Hv1, Hv2. congruence.
  - destruct (slot_decompose order (Z.of_nat n)) as (Hj & Hi & Hk); [lia..|].
    destruct (H1 _ _ Hi Hj) as [E1 _]. destruct (H2 _ _ Hi Hj) as [E2 _].
    rewrite <- Hk, Nat2Z.id in E1, E2.
    apply list_lookup_total_correct in Hv1, Hv2. congruence.
Qed.

(** ** Grids *)

Lemma elem_of_indices d t :
  t ∈ indices d <->
  exists x y, 0 <= x < dim_x d /\ 0 <= y < dim_y d /\ t = Dim3 x y 0.
Proof.
  unfold indices. rewrite elem_of_nested. split.
  - intros (y & x & Hy%elem_of_seqZ & Hx%elem_of_seqZ & ->). exists x, y.
    repeat split; lia.
  - intros (x & y & Hx & Hy & ->). exists y, x. rewrite !elem_of_seqZ.
    repeat split; lia.
Qed.

Lemma NoDup_indices d : NoDup (indices d).
Proof.
  apply NoDup_nested; try apply NoDup_seqZ.
  intros y x y' x' _ _ _ _ [= -> ->]. easy.
Qed.

Lemma elem_of_threads g b t :
  t ∈ threads g b <-> t.1 ∈ indices g /\ t.2 ∈ indices b.
Proof.
  unfold threads. rewrite elem_of_nested. split.
  - intros (bi & ti & Hbi & Hti & ->). easy.
  - intros [Hbi Hti]. exists t.1, t.2. now destruct t.
Qed.

Lemma NoDup_threads g b : NoDup (threads g b).
Proof.
  apply NoDup_nested; try apply NoDup_indices.
  intros bi ti bi' ti' _ _ _ _ [= -> ->]. easy.
Qed.

(** ** The element-wise kernel *)

Lemma guard_true i j order :
  (i <? order) && (j <? order) = true <-> i < order /\ j < order.
Proof. now rewrite andb_true_iff, !Z.ltb_lt. Qed.

(** A thread of the element-wise kernel never leaves the matrix, whatever
    the geometry of the launch. *)
Lemma transpose_safe order g b bi ti m :
  holds order m ->
  exists m', transpose order g b bi ti m = Ok m' /\ holds order m' /\
    length (bufA m') = length (bufA m) /\ length (bufB m') = length (bufB m) /\
    (~ (thread_cell b (bi, ti)).1 < order \/ ~ (thread_cell b (bi, ti)).2 < order ->
     m' = m).
Proof.
  intros [HA HB]. unfold transpose, thread_cell. cbn [fst snd].
  set (i := u32 (dim_x bi * dim_x b + dim_x ti)).
  set (j := u32 (dim_y bi * dim_y b + dim_y ti)).
  pose proof (u32_range (dim_x bi * dim_x b + dim_x ti)) as Hi. fold i in Hi.
  pose proof (u32_range (dim_y bi * dim_y b + dim_y ti)) as Hj. fold j in Hj.
  destruct ((i <? order) && (j <? order)) eqn:Hg.
  - apply guard_true in Hg as [Hio Hjo].
    pose proof (cell_index_range order i j ltac:(lia) ltac:(lia)) as Ha.
    pose proof (cell_index_range order j i ltac:(lia) ltac:(lia)) as Hb.
    pose proof (u32_le (j * order + i) ltac:(lia)) as Hua.
    pose proof (u32_le (i * order + j) ltac:(lia)) as Hub.
    pose proof (u32_range (j * order + i)) as Hra.
    pose proof (u32_range (i * order + j)) as Hrb.
    exists (accumulated (a_index order i j) (b_index order i j) m).
    unfold a_index, b_index.
    rewrite accumulate_ok by lia.
    destruct (accumulated_length (u32 (j * order + i)) (u32 (i * order + j)) m)
      as [HlA HlB].
    unfold holds. rewrite HlA, HlB. repeat split; first [lia | intros [?|?]; lia].
  - exists m. unfold holds. easy.
Qed.

Lemma run_threads_transpose_safe order g b ts : forall m,
  holds order m ->
  exists m', run_threads transpose g b order ts m = Ok m' /\ holds order m' /\
    length (bufA m') = length (bufA m) /\ length (bufB m') = length (bufB m).
Proof.
  unfold run_threads. induction ts as [|t ts IH]; intros m Hm; [now exists m|].
  destruct (transpose_safe order g b t.1 t.2 m Hm) as (m1 & E1 & H1 & HA1 & HB1 & _).
  destruct (IH m1 H1) as (m' & E' & H' & HA' & HB').
  exists m'. cbn [for_each]. rewrite E1. cbn. rewrite E'. repeat split; congruence || apply H'.
Qed.

(** Within the reach of 32-bit indices a thread does exactly the work of
    its cell. *)
Lemma transpose_cell_step order g b t m :
  order * order <= 4294967296 -> holds order m ->
  transpose order g b t.1 t.2 m = Ok (cell_step order m (thread_cell b t)).
Proof.
  intros Hord [HA HB]. unfold transpose, thread_cell.
  set (i := u32 (dim_x t.1 * dim_x b + dim_x t.2)).
  set (j := u32 (dim_y t.1 * dim_y b + dim_y t.2)).
  pose proof (u32_range (dim_x t.1 * dim_x b + dim_x t.2)) as Hi. fold i in Hi.
  pose proof (u32_range (dim_y t.1 * dim_y b + dim_y t.2)) as Hj. fold j in Hj.
  destruct ((i <? order) && (j <? order)) eqn:Hg.
  - apply guard_true in Hg as [Hio Hjo].
    pose proof (cell_index_range order i j ltac:(lia) ltac:(lia)) as Ha.
    pose proof (cell_index_range order j i ltac:(lia) ltac:(lia)) as Hb.
    rewrite a_index_exact, b_index_exact, cell_step_in by lia.
    apply accumulate_ok; lia.
  - rewrite cell_step_out; [reflexivity|]. cbn [fst snd].
    intros [? ?]. assert ((i <? order) && (j <? order) = true) by (apply guard_true; lia).
    congruence.
Qed.

Lemma run_threads_transpose order g b ts m :
  order * order <= 4294967296 -> holds order m ->
  run_threads transpose g b order ts m =
  Ok (cellwise order (thread_cell b <$> ts) m).
Proof.
  intros Hord Hm. unfold run_threads, cellwise. rewrite foldl_fmap.
  apply (for_each_pure (holds order)); [|assumption].
  intros t s _ Hs. split; [now apply transpose_cell_step|now apply cell_step_holds].
Qed.

Lemma block_offset_inj s b t b' t' :
  0 <= t < s -> 0 <= t' < s -> b * s + t = b' * s + t' -> b = b' /\ t = t'.
Proof. intros Ht Ht' Heq. destruct (cell_index_inj s t b t' b'); easy. Qed.

(** No two threads of a launch share a coordinate, as long as the grid
    stays within 32-bit reach. *)
Lemma NoDup_thread_cells g b :
  dim_x g * dim_x b <= 4294967296 -> dim_y g * dim_y b <= 4294967296 ->
  NoDup (thread_cell b <$> threads g b).
Proof.
  intros Hx Hy. apply NoDup_fmap_2_strong; [|apply NoDup_threads].
  intros [bi ti] [bi' ti'] [Hbi Hti]%elem_of_threads [Hbi' Hti']%elem_of_threads.
  cbn [fst snd] in *.
  apply elem_of_indices in Hbi as (bx & by_ & Hbx & Hby & ->).
  apply elem_of_indices in Hti as (tx & ty & Htx & Hty & ->).
  apply elem_of_indices in Hbi' as (bx' & by' & Hbx' & Hby' & ->).
  apply elem_of_indices in Hti' as (tx' & ty' & Htx' & Hty' & ->).
  unfold thread_cell. cbn [fst snd dim_x dim_y].
  rewrite !u32_small by nia. intros [= Ex Ey].
  destruct (block_offset_inj _ _ _ _ _ Htx Htx' Ex) as [-> ->].
  destruct (block_offset_inj _ _ _ _ _ Hty Hty' Ey) as [-> ->]. reflexivity.
Qed.

(** Every coordinate of the matrix has its thread when the grid covers
    the matrix. *)
Lemma thread_cells_cover order g b i j :
  0 < dim_x b -> 0 < dim_y b ->
  order <= dim_x g * dim_x b <= 4294967296 ->
  order <= dim_y g * dim_y b <= 4294967296 ->
  0 <= i < order -> 0 <= j < order ->
  (i, j) ∈ thread_cell b <$> threads g b.
Proof.
  intros Hbx Hby Hgx Hgy Hi Hj. apply list_elem_of_fmap.
  exists (Dim3 (i / dim_x b) (j / dim_y b) 0, Dim3 (i mod dim_x b) (j mod dim_y b) 0).
  pose proof (Z.div_mod i (dim_x b) ltac:(lia)) as Hdx.
  pose proof (Z.div_mod j (dim_y b) ltac:(lia)) as Hdy.
  pose proof (Z.mod_pos_bound i (dim_x b) Hbx) as Hmx.
  pose proof (Z.mod_pos_bound j (dim_y b) Hby) as Hmy.
  assert (0 <= i / dim_x b) by (apply Z.div_pos; lia).
  assert (0 <= j / dim_y b) by (apply Z.div_pos; lia).
  assert (i / dim_x b < dim_x g) by (apply Z.div_lt_upper_bound; nia).
  assert (j / dim_y b < dim_y g) by (apply Z.div_lt_upper_bound; nia).
  split.
  - unfold thread_cell. cbn [fst snd dim_x dim_y]. rewrite !u32_small by lia.
    f_equal; lia.
  - apply elem_of_threads. cbn [fst snd]. rewrite !elem_of_indices. split; eauto 10.
Qed.

(** One launch of the element-wise kernel carries out the contract. *)
Lemma launch_transpose_contract order g b m :
  order * order <= 4294967296 -> holds order m ->
  0 < dim_x b -> 0 < dim_y b ->
  order <= dim_x g * dim_x b <= 4294967296 ->
  order <= dim_y g * dim_y b <= 4294967296 ->
  exists m', launch transpose g b order m = Ok m' /\ transpose_contract order m m'.
Proof.
  intros Hord Hm Hbx Hby Hgx Hgy. unfold launch.
  rewrite run_threads_transpose by assumption. eexists. split; [reflexivity|].
  apply cellwise_contract; [now apply NoDup_thread_cells|assumption|].
  intros i j Hi Hj. now apply (thread_cells_cover order).
Qed.

(** ** The tiled kernel *)

Lemma band_loop_unroll body m :
  band_loop 5 0 body m = for_each body [0; 8; 16; 24] m.
Proof.
  cbv. destruct (body 0 m) as [m1|]; [|reflexivity].
  destruct (body 8 m1) as [m2|]; [|reflexivity].
  destruct (body 16 m2) as [m3|]; [|reflexivity].
  destruct (body 24 m3) as [m4|]; reflexivity.
Qed.

Lemma tiled_thread_threads q t :
  t ∈ threads (Dim3 q q 1) (Dim3 32 8 1) -> tiled_thread q t.
Proof.
  intros [Hb Ht]%elem_of_threads.
  apply elem_of_indices in Hb as (bx & by_ & Hbx & Hby & Eb).
  apply elem_of_indices in Ht as (tx & ty & Htx & Hty & Et).
  unfold tiled_thread. rewrite Eb, Et. cbn [dim_x dim_y] in *. lia.
Qed.

Lemma tiled_cells_range q t c :
  0 <= q * 32 < 4294967296 -> tiled_thread q t -> c ∈ tiled_cells t ->
  exists j, j ∈ [0; 8; 16; 24] /\
    c = (dim_x t.1 * 32 + dim_x t.2, dim_y t.1 * 32 + dim_y t.2 + j) /\
    0 <= c.1 < q * 32 /\ 0 <= c.2 < q * 32.
Proof.
  intros Hq (Hbx & Hby & Htx & Hty) Hc. unfold tiled_cells in Hc.
  apply list_elem_of_fmap in Hc as (j & -> & Hj). exists j.
  assert (j = 0 \/ j = 8 \/ j = 16 \/ j = 24) as Hj'.
  { pose proof Hj as Hj0. rewrite !elem_of_cons, elem_of_nil in Hj0. tauto. }
  unfold tile_dim.
  rewrite (u32_small (dim_x t.1 * 32 + dim_x t.2)),
    (u32_small (dim_y t.1 * 32 + dim_y t.2)), (u32_small (_ + j)) by lia.
  cbn [fst snd]. repeat split; lia || assumption.
Qed.

(** A thread of the tiled kernel stays inside a matrix of [q * 32] rows. *)
Lemma transpose_tiled_safe order q b t m :
  0 <= q * 32 < 4294967296 -> tiled_thread q t -> holds (q * 32) m ->
  exists m', transpose_tiled order (Dim3 q q 1) b t.1 t.2 m = Ok m' /\
    holds (q * 32) m' /\
    length (bufA m') = length (bufA m) /\ length (bufB m') = length (bufB m) /\
    (q * 32 * (q * 32) <= 4294967296 -> m' = cellwise (q * 32) (tiled_cells t) m).
Proof.
  intros Hq Ht Hm. unfold transpose_tiled. rewrite band_loop_unroll.
  cbn [dim_x]. unfold tile_dim. rewrite (u32_small (q * 32)) by lia.
  set (x := u32 (dim_x t.1 * 32 + dim_x t.2)).
  set (y := u32 (dim_y t.1 * 32 + dim_y t.2)).
  set (w := q * 32) in *.
  set (f := fun (s : mem) (j : Z) =>
              accumulated (a_index w x (u32 (y + j))) (b_index w x (u32 (y + j))) s).
  assert (forall j, j ∈ [0; 8; 16; 24] -> 0 <= x < w /\ 0 <= u32 (y + j) < w) as Hcell.
  { intros j Hj.
    destruct (tiled_cells_range q t (x, u32 (y + j)) Hq Ht) as (j' & _ & _ & Hr).
    - unfold tiled_cells, tile_dim. apply list_elem_of_fmap. now exists j.
    - exact Hr. }
  destruct (for_each_pure
              (fun s => holds w s /\ length (bufA s) = length (bufA m)
                        /\ length (bufB s) = length (bufB m))
              (fun j => accumulate (a_index w x (u32 (y + j))) (b_index w x (u32 (y + j))))
              f [0; 8; 16; 24] m) as [E (Hh & HlA & HlB)].
  - intros j s Hj ([HsA HsB] & HA & HB). destruct (Hcell j Hj) as [Hx Hy].
    pose proof (cell_index_range w x (u32 (y + j)) Hx Hy) as Ha.
    pose proof (cell_index_range w (u32 (y + j)) x Hy Hx) as Hb.
    pose proof (u32_le (u32 (y + j) * w + x) ltac:(lia)) as Hua.
    pose proof (u32_le (x * w + u32 (y + j)) ltac:(lia)) as Hub.
    pose proof (u32_range (u32 (y + j) * w + x)) as Hra.
    pose proof (u32_range (x * w + u32 (y + j))) as Hrb.
    unfold f, a_index, b_index. rewrite accumulate_ok by lia.
    destruct (accumulated_length (u32 (u32 (y + j) * w + x)) (u32 (x * w + u32 (y + j))) s)
      as [HlA HlB].
    unfold holds. rewrite HlA, HlB. repeat split; lia.
  - easy.
  - exists (foldl f m [0; 8; 16; 24]).
    split; [exact E|]. split; [exact Hh|]. split; [exact HlA|]. split; [exact HlB|].
    intros Hw. unfold cellwise, tiled_cells, tile_dim. rewrite foldl_fmap. fold x y.
    apply foldl_ext_elem. intros s j Hj. destruct (Hcell j Hj) as [Hx Hy].
    unfold f. now rewrite cell_step_in, a_index_exact, b_index_exact by lia.
Qed.

Lemma run_threads_tiled_safe order q b ts : forall m,
  0 <= q * 32 < 4294967296 -> Forall (tiled_thread q) ts -> holds (q * 32) m ->
  exists m', run_threads transpose_tiled (Dim3 q q 1) b order ts m = Ok m' /\
    holds (q * 32) m' /\
    length (bufA m') = length (bufA m) /\ length (bufB m') = length (bufB m) /\
    (q * 32 * (q * 32) <= 4294967296 -> m' = cellwise (q * 32) (ts ≫= tiled_cells) m).
Proof.
  unfold run_threads. induction ts as [|t ts IH]; intros m Hq Hts Hm.
  { exists m. easy. }
  apply Forall_cons in Hts as [Ht Hts].
  destruct (transpose_tiled_safe order q b t m Hq Ht Hm) as (m1 & E1 & H1 & HA1 & HB1 & C1).
  destruct (IH m1 Hq Hts H1) as (m' & E' & H' & HA' & HB' & C').
  exists m'. cbn [for_each]. rewrite E1. cbn [mbind result_bind]. rewrite E'.
  repeat split; try congruence; try apply H'.
  intros Hw. rewrite (C' Hw), (C1 Hw). unfold cellwise.
  now rewrite bind_cons, foldl_app.
Qed.

Lemma tiled_threads_Forall q : Forall (tiled_thread q) (threads (Dim3 q q 1) (Dim3 32 8 1)).
Proof. apply Forall_forall. intros t. apply tiled_thread_threads. Qed.

Lemma NoDup_tiled_cells q :
  0 <= q * 32 < 4294967296 ->
  NoDup (threads (Dim3 q q 1) (Dim3 32 8 1) ≫= tiled_cells).
Proof.
  intros Hq. apply NoDup_bind; [| |apply NoDup_threads].
  - intros t t' c Ht Ht' Hc Hc'.
    destruct (tiled_cells_range q t c Hq (tiled_thread_threads q t Ht) Hc)
      as (j & Hj & Ec & _).
    destruct (tiled_cells_range q t' c Hq (tiled_thread_threads q t' Ht') Hc')
      as (j' & Hj' & Ec' & _).
    rewrite !elem_of_cons, elem_of_nil in Hj, Hj'.
    apply elem_of_threads in Ht as [Hb Ht], Ht' as [Hb' Ht'].
    apply elem_of_indices in Hb as (bx & by_ & Hbx & Hby & Eb).
    apply elem_of_indices in Ht as (tx & ty & Htx & Hty & Et).
    apply elem_of_indices in Hb' as (bx' & by' & Hbx' & Hby' & Eb').
    apply elem_of_indices in Ht' as (tx' & ty' & Htx' & Hty' & Et').
    destruct t as [bi ti], t' as [bi' ti']. cbn [fst snd] in *. subst bi ti bi' ti'.
    cbn [dim_x dim_y] in *. rewrite Ec in Ec'.
    apply pair_equal_spec in Ec' as [Ex Ey].
    assert (bx = bx' /\ tx = tx' /\ by_ = by' /\ ty = ty') as (-> & -> & -> & ->) by lia.
    reflexivity.
  - intros t Ht. unfold tiled_cells. apply NoDup_fmap_2_strong.
    + intros j j' Hj Hj' [= E].
      rewrite !elem_of_cons, elem_of_nil in Hj, Hj'.
      apply tiled_thread_threads in Ht as (Hbx & Hby & Htx & Hty).
      unfold tile_dim in E.
      rewrite (u32_small (dim_y t.1 * 32 + dim_y t.2)), !(u32_small (_ + _)) in E by lia.
      lia.
    + repeat constructor; rewrite ?elem_of_cons, ?elem_of_nil; lia.
Qed.

Lemma tiled_cells_cover q i j :
  0 <= q * 32 < 4294967296 -> 0 <= i < q * 32 -> 0 <= j < q * 32 ->
  (i, j) ∈ threads (Dim3 q q 1) (Dim3 32 8 1) ≫= tiled_cells.
Proof.
  intros Hq Hi Hj. apply list_elem_of_bind.
  exists (Dim3 (i / 32) (j / 32) 0, Dim3 (i mod 32) (j mod 32 mod 8) 0). split.
  - unfold tiled_cells. apply list_elem_of_fmap. exists (j mod 32 / 8 * 8). split.
    + cbn [fst snd dim_x dim_y]. unfold tile_dim.
      rewrite (u32_small (i / 32 * 32 + i mod 32)),
        (u32_small (j / 32 * 32 + j mod 32 mod 8)), (u32_small (_ + _))
        by (Z.div_mod_to_equations; lia).
      f_equal; Z.div_mod_to_equations; lia.
    + assert (j mod 32 / 8 = 0 \/ j mod 32 / 8 = 1 \/ j mod 32 / 8 = 2 \/ j mod 32 / 8 = 3)
        as [-> | [-> | [-> | ->]]] by (Z.div_mod_to_equations; lia);
        cbn; rewrite !elem_of_cons; tauto.
  - apply elem_of_threads. cbn [fst snd]. rewrite !elem_of_indices. cbn [dim_x dim_y].
    split; do 2 eexists; (split; [|split; [|reflexivity]]);
      Z.div_mod_to_equations; lia.
Qed.

(** One launch of the tiled kernel on a [q] x [q] grid of 32 x 8 blocks
    carries out the contract for the matrix of order [q * 32]. *)
Lemma launch_tiled_contract order q m :
  0 <= q -> q * 32 * (q * 32) <= 4294967296 -> holds (q * 32) m ->
  exists m', launch transpose_tiled (Dim3 q q 1) (Dim3 32 8 1) order m = Ok m' /\
    transpose_contract (q * 32) m m'.
Proof.
  intros Hq Hw Hm. assert (0 <= q * 32 < 4294967296) as Hq' by nia.
  destruct (run_threads_tiled_safe order q (Dim3 32 8 1) _ m Hq'
              (tiled_threads_Forall q) Hm) as (m' & E & _ & _ & _ & C).
  exists m'. split; [exact E|]. rewrite (C Hw).
  apply cellwise_contract; [now apply NoDup_tiled_cells|assumption|].
  intros i j Hi Hj. now apply tiled_cells_cover.
Qed.

(** ** Launch geometry of the program *)

Lemma divceil_spec n d :
  0 <= n -> 0 < d -> 0 <= divceil n d /\ n <= divceil n d * d < n + d.
Proof.
  intros Hn Hd. unfold divceil.
  rewrite Z.quot_div_nonneg, Z.rem_mod_nonneg by lia.
  pose proof (Z.div_mod n d ltac:(lia)) as Hdm.
  pose proof (Z.mod_pos_bound n d Hd) as Hm.
  assert (0 <= n / d) by (apply Z.div_pos; lia).
  destruct (0 <? n mod d) eqn:Hr; [apply Z.ltb_lt in Hr|apply Z.ltb_ge in Hr]; nia.
Qed.

Lemma elementwise_geometry inp :
  1 <= order inp <= INT_MAX -> 1 <= tile_size inp <= INT_MAX ->
  0 < dim_x (dimBlock false inp) /\ 0 < dim_y (dimBlock false inp) /\
  order inp <= dim_x (dimGrid false inp) * dim_x (dimBlock false inp) <= 4294967296 /\
  order inp <= dim_y (dimGrid false inp) * dim_y (dimBlock false inp) <= 4294967296.
Proof.
  unfold INT_MAX. intros Ho Ht. cbn [dimGrid dimBlock dim_x dim_y].
  destruct (divceil_spec (order inp) (tile_size inp)) as [Hd0 Hd]; [lia..|].
  rewrite (u32_small (tile_size inp)), (u32_small (divceil _ _)) by nia. lia.
Qed.

Lemma tiled_geometry inp :
  1 <= order inp <= INT_MAX ->
  dimGrid true inp = Dim3 (order inp / 32) (order inp / 32) 1 /\
  dimBlock true inp = Dim3 32 8 1 /\
  0 <= order inp / 32 /\ order inp / 32 * 32 <= order inp.
Proof.
  unfold INT_MAX. intros Ho. cbn [dimGrid dimBlock]. unfold tile_dim, block_rows.
  rewrite Z.quot_div_nonneg by lia.
  assert (0 <= order inp / 32 <= order inp) by (Z.div_mod_to_equations; lia).
  rewrite (u32_small (order inp / 32)) by lia.
  repeat split; try reflexivity; Z.div_mod_to_equations; lia.
Qed.

(** ** The two kernels against the contract *)

(** C3: for an order that is a multiple of 32 (and small enough for the
    input check to accept it), one launch of the tiled kernel on its grid of
    (order/32) x (order/32) blocks of 32 x 8 threads and one launch of the
    bounds-checked element-wise kernel on its grid of tile_size x tile_size
    blocks, for a tile size from 1 to 32 (a block the device accepts), end
    in the same memory, and that memory is the one the contract
    [B[i*order+j] += A[j*order+i]; A[j*order+i] += 1.0] prescribes. *)
Theorem C3_tiled_and_elementwise_agree (iterations order tile_size : Z) (m : mem) :
  1 <= order -> order mod 32 = 0 -> order * order <= 4294967296 ->
  1 <= tile_size <= 32 ->
  Z.of_nat (length (bufA m)) = order * order ->
  Z.of_nat (length (bufB m)) = order * order ->
  let inp := Input iterations order tile_size in
  exists m',
    launch transpose_tiled (dimGrid true inp) (dimBlock true inp) order m = Ok m' /\
    launch transpose (dimGrid false inp) (dimBlock false inp) order m = Ok m' /\
    transpose_contract order m m'.
Proof.
  intros Ho Hmul Hsq Hts HA HB inp.
  assert (order <= INT_MAX) as Hmax by (unfold INT_MAX; nia).
  assert (holds order m) as Hm by (unfold holds; lia).
  destruct (tiled_geometry inp) as (-> & -> & Hq & _); [cbn; lia|].
  cbn [input_order inp].
  assert (order / 32 * 32 = order) as Hw by (Z.div_mod_to_equations; lia).
  destruct (launch_tiled_contract order (order / 32) m) as (m1 & E1 & C1);
    rewrite ?Hw; try assumption.
  destruct (elementwise_geometry inp) as (Hbx & Hby & Hgx & Hgy); [cbn; lia..|].
  destruct (launch_transpose_contract order (dimGrid false inp) (dimBlock false inp) m)
    as (m2 & E2 & C2); try assumption.
  rewrite Hw in C1.
  assert (m2 = m1) as ->
    by (eapply (transpose_contract_deterministic order m); eauto; lia).
  exists m1. easy.
Qed.

Lemma C3_witness :
  exists m',
    launch transpose_tiled (dimGrid true (Input 1 32 4)) (dimBlock true (Input 1 32 4)) 32
      (Mem (replicate 1024 (of_Z 0)) (replicate 1024 (of_Z 0))) = Ok m' /\
    launch transpose (dimGrid false (Input 1 32 4)) (dimBlock false (Input 1 32 4)) 32
      (Mem (replicate 1024 (of_Z 0)) (replicate 1024 (of_Z 0))) = Ok m' /\
    transpose_contract 32 (Mem (replicate 1024 (of_Z 0)) (replicate 1024 (of_Z 0))) m'.
Proof.
  apply (C3_tiled_and_elementwise_agree 1 32 4
           (Mem (replicate 1024 (of_Z 0)) (replicate 1024 (of_Z 0))));
    unfold INT_MAX; try lia; reflexivity.
Defined.

(** C4: in the element-wise kernel, whatever the grid and the block, a
    thread whose coordinate [(i, j)] is outside the matrix returns the
    memory as it got it; a thread inside the matrix touches only the two
    indices [j*order+i] and [i*order+j], both below [order * order]; and a
    whole launch, of any geometry, ends without a fault and leaves the
    lengths of both buffers as they were. *)
Theorem C4_elementwise_bounds_checked (order : Z) (gridDim blockDim blockIdx threadIdx : dim3)
    (m : mem) :
  1 <= order ->
  Z.of_nat (length (bufA m)) = order * order ->
  Z.of_nat (length (bufB m)) = order * order ->
  let i := u32 (dim_x blockIdx * dim_x blockDim + dim_x threadIdx) in
  let j := u32 (dim_y blockIdx * dim_y blockDim + dim_y threadIdx) in
  (~ (i < order /\ j < order) ->
     transpose order gridDim blockDim blockIdx threadIdx m = Ok m) /\
  (i < order /\ j < order ->
     0 <= a_index order i j < order * order /\
     0 <= b_index order i j < order * order /\
     transpose order gridDim blockDim blockIdx threadIdx m =
       Ok (accumulated (a_index order i j) (b_index order i j) m)) /\
  (exists m', launch transpose gridDim blockDim order m = Ok m' /\
     length (bufA m') = length (bufA m) /\ length (bufB m') = length (bufB m)).
Proof.
  intros Ho HA HB i j.
  pose proof (u32_range (dim_x blockIdx * dim_x blockDim + dim_x threadIdx)) as Hi.
  pose proof (u32_range (dim_y blockIdx * dim_y blockDim + dim_y threadIdx)) as Hj.
  fold i in Hi. fold j in Hj.
  assert (holds order m) as Hm by (unfold holds; lia).
  split; [|split].
  - intros Hout. unfold transpose. fold i j.
    destruct ((i <? order) && (j <? order)) eqn:Hg; [|reflexivity].
    apply guard_true in Hg. tauto.
  - intros [Hio Hjo].
    pose proof (cell_index_range order i j ltac:(lia) ltac:(lia)) as Ha.
    pose proof (cell_index_range order j i ltac:(lia) ltac:(lia)) as Hb.
    pose proof (u32_le (j * order + i) ltac:(lia)) as Hua.
    pose proof (u32_le (i * order + j) ltac:(lia)) as Hub.
    pose proof (u32_range (j * order + i)) as Hra.
    pose proof (u32_range (i * order + j)) as Hrb.
    unfold a_index, b_index. repeat split; try lia.
    unfold transpose. fold i j.
    replace ((i <? order) && (j <? order)) with true
      by (symmetry; apply guard_true; lia).
    unfold a_index, b_index. apply accumulate_ok; lia.
  - destruct (run_threads_transpose_safe order gridDim blockDim
                (threads gridDim blockDim) m Hm) as (m' & E & _ & HlA & HlB).
    exists m'. easy.
Qed.

Lemma C4_witness :
  let m := Mem (replicate 9 (of_Z 0)) (replicate 9 (of_Z 0)) in
  let i := u32 (1 * 2 + 1) in
  let j := u32 (0 * 2 + 0) in
  (~ (i < 3 /\ j < 3) ->
     transpose 3 (Dim3 2 2 1) (Dim3 2 2 1) (Dim3 1 0 0) (Dim3 1 0 0) m = Ok m) /\
  (i < 3 /\ j < 3 ->
     0 <= a_index 3 i j < 3 * 3 /\
     0 <= b_index 3 i j < 3 * 3 /\
     transpose 3 (Dim3 2 2 1) (Dim3 2 2 1) (Dim3 1 0 0) (Dim3 1 0 0) m =
       Ok (accumulated (a_index 3 i j) (b_index 3 i j) m)) /\
  (exists m', launch transpose (Dim3 2 2 1) (Dim3 2 2 1) 3 m = Ok m' /\
     length (bufA m') = length (bufA m) /\ length (bufB m') = length (bufB m)).
Proof.
  apply (C4_elementwise_bounds_checked 3 (Dim3 2 2 1) (Dim3 2 2 1) (Dim3 1 0 0) (Dim3 1 0 0)
           (Mem (replicate 9 (of_Z 0)) (replicate 9 (of_Z 0)))); [lia|reflexivity..].
Defined.

(** What one thread of the element-wise kernel writes: the slot
    [j*order+i] of A and the slot [i*order+j] of B when its coordinate
    [(i, j)] is inside the matrix, and nothing else. *)
Lemma transpose_writes order g b t m :
  order * order <= 4294967296 -> holds order m ->
  let c := thread_cell b t in
  exists m',
    transpose order g b t.1 t.2 m = Ok m' /\
    length (bufA m') = length (bufA m) /\ length (bufB m') = length (bufB m) /\
    forall k : nat,
      bufA m' !!! k =
        (if decide (c.1 < order /\ c.2 < order /\ k = Z.to_nat (a_index order c.1 c.2))
         then dadd (bufA m !!! k) (of_Z 1) else bufA m !!! k) /\
      bufB m' !!! k =
        (if decide (c.1 < order /\ c.2 < order /\ k = Z.to_nat (b_index order c.1 c.2))
         then dadd (bufB m !!! k) (bufA m !!! Z.to_nat (a_index order c.1 c.2))
         else bufB m !!! k).
Proof.
  intros Hsq Hm c. rewrite transpose_cell_step by assumption. fold c.
  eexists. split; [reflexivity|].
  destruct (cell_step_length order m c) as [HA HB]. split; [exact HA|]. split; [exact HB|].
  intros k.
  pose proof (u32_range (dim_x t.1 * dim_x b + dim_x t.2)) as Hi.
  pose proof (u32_range (dim_y t.1 * dim_y b + dim_y t.2)) as Hj.
  change (u32 (dim_x t.1 * dim_x b + dim_x t.2)) with c.1 in Hi.
  change (u32 (dim_y t.1 * dim_y b + dim_y t.2)) with c.2 in Hj.
  destruct (decide (c.1 < order /\ c.2 < order)) as [[Hio Hjo]|Hout].
  - change (cell_step order m c) with (cell_step order m (c.1, c.2)).
    rewrite cell_step_in by lia.
    rewrite a_index_exact, b_index_exact by lia.
    pose proof (cell_index_range order c.1 c.2 ltac:(lia) ltac:(lia)) as Ha.
    pose proof (cell_index_range order c.2 c.1 ltac:(lia) ltac:(lia)) as Hb.
    destruct Hm as [HmA HmB]. unfold accumulated. cbn [bufA bufB]. split.
    + destruct (decide (k = Z.to_nat (c.2 * order + c.1))) as [->|Hne].
      * rewrite decide_True by easy. apply list_lookup_total_insert_eq. lia.
      * rewrite decide_False by tauto. now apply list_lookup_total_insert_ne.
    + destruct (decide (k = Z.to_nat (c.1 * order + c.2))) as [->|Hne].
      * rewrite decide_True by easy. apply list_lookup_total_insert_eq. lia.
      * rewrite decide_False by tauto. now apply list_lookup_total_insert_ne.
  - rewrite cell_step_out by lia. rewrite !decide_False by tauto. easy.
Qed.

(** C5: on [0, order)^2 the write targets [(i,j) -> i*order+j] (into B)
    and [(i,j) -> j*order+i] (into A) are injective and reach every slot of
    the buffer; in a launch of the program (tile size from 1 to 32) no two
    threads have the same coordinate and every coordinate has its thread;
    the thread at coordinate [(i, j)] adds [A[j*order+i]] to
    [B[i*order+j]] and 1.0 to [A[j*order+i]] and writes nothing else, and
    a thread whose coordinate is outside the matrix writes nothing; so a
    launch changes every slot of A and of B by exactly one such update;
    and running the threads of the launch in any other order ends in the
    same memory. *)
Theorem C5_one_writer_per_slot (iterations order tile_size : Z) :
  1 <= order -> order * order <= 4294967296 -> 1 <= tile_size <= 32 ->
  let inp := Input iterations order tile_size in
  let g := dimGrid false inp in
  let b := dimBlock false inp in
  (forall i j i' j',
     0 <= i < order -> 0 <= j < order -> 0 <= i' < order -> 0 <= j' < order ->
     (b_index order i j = b_index order i' j' -> i = i' /\ j = j') /\
     (a_index order i j = a_index order i' j' -> i = i' /\ j = j')) /\
  (forall k, 0 <= k < order * order ->
     (exists i j, 0 <= i < order /\ 0 <= j < order /\ b_index order i j = k) /\
     (exists i j, 0 <= i < order /\ 0 <= j < order /\ a_index order i j = k)) /\
  NoDup (thread_cell b <$> threads g b) /\
  (forall i j, 0 <= i < order -> 0 <= j < order ->
     (i, j) ∈ thread_cell b <$> threads g b) /\
  (forall m t,
     Z.of_nat (length (bufA m)) = order * order ->
     Z.of_nat (length (bufB m)) = order * order ->
     t ∈ threads g b ->
     let c := thread_cell b t in
     exists m',
       transpose order g b t.1 t.2 m = Ok m' /\
       length (bufA m') = length (bufA m) /\ length (bufB m') = length (bufB m) /\
       forall k : nat,
         bufA m' !!! k =
           (if decide (c.1 < order /\ c.2 < order /\ k = Z.to_nat (a_index order c.1 c.2))
            then dadd (bufA m !!! k) (of_Z 1) else bufA m !!! k) /\
         bufB m' !!! k =
           (if decide (c.1 < order /\ c.2 < order /\ k = Z.to_nat (b_index order c.1 c.2))
            then dadd (bufB m !!! k) (bufA m !!! Z.to_nat (a_index order c.1 c.2))
            else bufB m !!! k)) /\
  (forall m,
     Z.of_nat (length (bufA m)) = order * order ->
     Z.of_nat (length (bufB m)) = order * order ->
     exists m',
       launch transpose g b order m = Ok m' /\
       length (bufA m') = length (bufA m) /\ length (bufB m') = length (bufB m) /\
       forall i j, 0 <= i < order -> 0 <= j < order ->
         bufB m' !!! Z.to_nat (b_index order i j) =
           dadd (bufB m !!! Z.to_nat (b_index order i j))
                (bufA m !!! Z.to_nat (a_index order i j)) /\
         bufA m' !!! Z.to_nat (a_index order i j) =
           dadd (bufA m !!! Z.to_nat (a_index order i j)) (of_Z 1)) /\
  (forall m ts,
     Z.of_nat (length (bufA m)) = order * order ->
     Z.of_nat (length (bufB m)) = order * order ->
     ts ≡ₚ threads g b ->
     run_threads transpose g b order ts m = launch transpose g b order m).
Proof.
  intros Ho Hsq Hts inp g b.
  assert (order <= INT_MAX) as Hmax by (unfold INT_MAX; nia).
  destruct (elementwise_geometry inp) as (Hbx & Hby & Hgx & Hgy);
    [cbn; lia|cbn; unfold INT_MAX; lia|].
  fold g b in Hbx, Hby, Hgx, Hgy. cbn [input_order inp] in Hgx, Hgy.
  split; [|split; [|split; [|split; [|split; [|split]]]]].
  - intros i j i' j' Hi Hj Hi' Hj'.
    rewrite !b_index_exact, !a_index_exact by assumption. split; intros E.
    + destruct (cell_index_inj order j i j' i'); easy.
    + destruct (cell_index_inj order i j i' j'); easy.
  - intros k Hk. destruct (slot_decompose order k) as (Hr & Hq & Ek); [lia..|]. split.
    + exists (k / order), (k mod order). rewrite b_index_exact by assumption. lia.
    + exists (k mod order), (k / order). rewrite a_index_exact by assumption. lia.
  - apply NoDup_thread_cells; lia.
  - intros i j Hi Hj. now apply (thread_cells_cover order).
  - intros m t HA HB _. apply transpose_writes; [assumption|unfold holds; lia].
  - intros m HA HB. assert (holds order m) as Hm by (unfold holds; lia).
    destruct (launch_transpose_contract order g b m) as (m' & E & HlA & HlB & C);
      try assumption.
    exists m'. split; [exact E|]. split; [exact HlA|]. split; [exact HlB|].
    intros i j Hi Hj. rewrite a_index_exact, b_index_exact by assumption.
    now apply C.
  - intros m ts HA HB Hperm. assert (holds order m) as Hm by (unfold holds; lia).
    unfold launch. rewrite !run_threads_transpose by assumption.
    f_equal. apply cellwise_perm. now apply fmap_Permutation.
Qed.

Lemma C5_witness :
  let inp := Input 1 3 2 in
  let g := dimGrid false inp in
  let b := dimBlock false inp in
  (forall i j i' j',
     0 <= i < 3 -> 0 <= j < 3 -> 0 <= i' < 3 -> 0 <= j' < 3 ->
     (b_index 3 i j = b_index 3 i' j' -> i = i' /\ j = j') /\
     (a_index 3 i j = a_index 3 i' j' -> i = i' /\ j = j')) /\
  (forall k, 0 <= k < 3 * 3 ->
     (exists i j, 0 <= i < 3 /\ 0 <= j < 3 /\ b_index 3 i j = k) /\
     (exists i j, 0 <= i < 3 /\ 0 <= j < 3 /\ a_index 3 i j = k)) /\
  NoDup (thread_cell b <$> threads g b) /\
  (forall i j, 0 <= i < 3 -> 0 <= j < 3 -> (i, j) ∈ thread_cell b <$> threads g b) /\
  (forall m t,
     Z.of_nat (length (bufA m)) = 3 * 3 ->
     Z.of_nat (length (bufB m)) = 3 * 3 ->
     t ∈ threads g b ->
     let c := thread_cell b t in
     exists m',
       transpose 3 g b t.1 t.2 m = Ok m' /\
       length (bufA m') = length (bufA m) /\ length (bufB m') = length (bufB m) /\
       forall k : nat,
         bufA m' !!! k =
           (if decide (c.1 < 3 /\ c.2 < 3 /\ k = Z.to_nat (a_index 3 c.1 c.2))
            then dadd (bufA m !!! k) (of_Z 1) else bufA m !!! k) /\
         bufB m' !!! k =
           (if decide (c.1 < 3 /\ c.2 < 3 /\ k = Z.to_nat (b_index 3 c.1 c.2))
            then dadd (bufB m !!! k) (bufA m !!! Z.to_nat (a_index 3 c.1 c.2))
            else bufB m !!! k)) /\
  (forall m,
     Z.of_nat (length (bufA m)) = 3 * 3 ->
     Z.of_nat (length (bufB m)) = 3 * 3 ->
     exists m',
       launch transpose g b 3 m = Ok m' /\
       length (bufA m') = length (bufA m) /\ length (bufB m') = length (bufB m) /\
       forall i j, 0 <= i < 3 -> 0 <= j < 3 ->
         bufB m' !!! Z.to_nat (b_index 3 i j) =
           dadd (bufB m !!! Z.to_nat (b_index 3 i j))
                (bufA m !!! Z.to_nat (a_index 3 i j)) /\
         bufA m' !!! Z.to_nat (a_index 3 i j) =
           dadd (bufA m !!! Z.to_nat (a_index 3 i j)) (of_Z 1)) /\
  (forall m ts,
     Z.of_nat (length (bufA m)) = 3 * 3 ->
     Z.of_nat (length (bufB m)) = 3 * 3 ->
     ts ≡ₚ threads g b ->
     run_threads transpose g b 3 ts m = launch transpose g b 3 m).
Proof.
  apply (C5_one_writer_per_slot 1 3 2); lia.
Defined.

(** ** Filling the host buffers *)

Lemma for_each_ext {S T} (body body' : T -> S -> result S) l s :
  (forall t s, t ∈ l -> body t s = body' t s) -> for_each body l s = for_each body' l s.
Proof.
  revert s. induction l as [|t l IH]; intros s Hext; [reflexivity|].
  cbn [for_each]. rewrite Hext by left. destruct (body' t s) as [s'|]; [|reflexivity].
  apply IH. intros t' s'' Ht'. apply Hext. now right.
Qed.

Lemma for_each_nested {S X Y} (body : X -> Y -> S -> result S) (l1 : list X)
    (l2 : list Y) s :
  for_each (fun x => for_each (body x) l2) l1 s =
  for_each (fun p => body p.1 p.2) (x ← l1; y ← l2; [(x, y)]) s.
Proof.
  rewrite for_each_bind. apply for_each_ext. intros x s' _.
  rewrite for_each_bind. apply for_each_ext. intros y s'' _.
  cbn [for_each fst snd]. now destruct (body x y s'').
Qed.

Lemma elem_of_matrix_cells order p :
  p ∈ matrix_cells order <-> 0 <= p.1 < order /\ 0 <= p.2 < order.
Proof.
  unfold matrix_cells. rewrite elem_of_nested. split.
  - intros (x & y & Hx%elem_of_seqZ & Hy%elem_of_seqZ & ->). cbn. lia.
  - intros [Hx Hy]. exists p.1, p.2. rewrite !elem_of_seqZ. destruct p. repeat split; lia.
Qed.

Lemma fill_step_lookup order cells : forall h n,
  (forall p, p ∈ cells -> 0 <= p.1 * order + p.2) ->
  (n < length (bufA h))%nat -> (n < length (bufB h))%nat ->
  let h' := foldl (fill_step order) h cells in
  length (bufA h') = length (bufA h) /\ length (bufB h') = length (bufB h) /\
  bufA h' !!! n =
    (if decide (n ∈ fill_index order <$> cells)
     then of_Z (Z.of_nat n) else bufA h !!! n) /\
  bufB h' !!! n =
    (if decide (n ∈ fill_index order <$> cells) then of_Z 0 else bufB h !!! n).
Proof.
  induction cells as [|p cells IH]; intros h n Hpos HA HB.
  { cbn. rewrite !decide_False by apply not_elem_of_nil. easy. }
  cbn [foldl].
  destruct (IH (fill_step order h p) n) as (HlA & HlB & EA & EB).
  { intros q Hq. apply Hpos. now right. }
  { unfold fill_step. cbn [bufA]. now rewrite length_insert. }
  { unfold fill_step. cbn [bufB]. now rewrite length_insert. }
  cbn zeta. rewrite HlA, HlB, EA, EB. unfold fill_step at 1 2. cbn [bufA bufB].
  rewrite !length_insert. split; [reflexivity|]. split; [reflexivity|].
  rewrite fmap_cons.
  destruct (decide (n ∈ fill_index order <$> cells)) as [Hin|Hout].
  - rewrite !decide_True by now right. easy.
  - destruct (decide (fill_index order p = n)) as [E|Hne].
    + rewrite !decide_True by (rewrite E; left).
      unfold fill_step. cbn [bufA bufB]. fold (fill_index order p). rewrite E.
      rewrite !list_lookup_total_insert_eq by lia.
      rewrite <- E. unfold fill_index. rewrite Z2Nat.id by (apply Hpos; left). easy.
    + rewrite !decide_False by (intros [?|?]%elem_of_cons; congruence).
      unfold fill_step. cbn [bufA bufB]. fold (fill_index order p).
      now rewrite !list_lookup_total_insert_ne by assumption.
Qed.

Lemma lookup_total_of_Z_seqZ n len :
  Z.of_nat n < len -> (of_Z <$> seqZ 0 len) !!! n = of_Z (Z.of_nat n).
Proof.
  intros Hn. rewrite (list_lookup_total_fmap of_Z) by (rewrite length_seqZ; lia).
  now rewrite lookup_total_seqZ_lt by assumption.
Qed.

Lemma list_eq_total (l1 l2 : list double) :
  length l1 = length l2 ->
  (forall n, (n < length l1)%nat -> l1 !!! n = l2 !!! n) -> l1 = l2.
Proof.
  intros Hlen Heq. apply list_eq_same_length with (n := length l1); [easy|easy|].
  intros n v1 v2 Hn Hv1 Hv2. apply list_lookup_total_correct in Hv1, Hv2.
  rewrite <- Hv1, <- Hv2. now apply Heq.
Qed.

Lemma mem_eq m a b : bufA m = a -> bufB m = b -> m = Mem a b.
Proof. destruct m. cbn. now intros -> ->. Qed.

(** After the filling loops [h_a] holds 0, 1, ..., order^2 - 1 and [h_b]
    holds zeros. *)
Lemma fill_host_ok order h :
  1 <= order -> order * order <= INT_MAX ->
  Z.of_nat (length (bufA h)) = order * order ->
  Z.of_nat (length (bufB h)) = order * order ->
  fill_host order h =
  Ok (Mem (of_Z <$> seqZ 0 (order * order)) (replicate (Z.to_nat (order * order)) (of_Z 0))).
Proof.
  intros Ho Hsq HA HB. unfold fill_host. rewrite for_each_nested. fold (matrix_cells order).
  destruct (for_each_pure
              (fun s => length (bufA s) = length (bufA h) /\ length (bufB s) = length (bufB h))
              (fun p h => jo ← int_mul p.1 order; ji ← int_add jo p.2;
                          oj ← int_mul order p.1; v ← int_add oj p.2;
                          A' ← store (bufA h) ji (of_Z v);
                          B' ← store (bufB h) ji (of_Z 0); Ok (Mem A' B'))
              (fill_step order) (matrix_cells order) h) as [E _].
  - intros p s [Hj Hi]%elem_of_matrix_cells [HsA HsB].
    pose proof (cell_index_range order p.2 p.1 Hi Hj) as Hidx.
    assert (0 <= p.1 * order <= p.1 * order + p.2) by nia.
    rewrite int_mul_ok by lia. cbn [mbind result_bind]. rewrite int_add_ok by lia.
    cbn [mbind result_bind]. rewrite int_mul_ok by lia. cbn [mbind result_bind].
    rewrite int_add_ok by lia. cbn [mbind result_bind]. unfold store.
    rewrite !in_bounds_true by lia. cbn [mbind result_bind]. unfold fill_step.
    cbn [bufA bufB]. rewrite !length_insert. split; [|easy].
    now replace (order * p.1 + p.2) with (p.1 * order + p.2) by lia.
  - easy.
  - rewrite E. f_equal.
    assert (forall p, p ∈ matrix_cells order -> 0 <= p.1 * order + p.2) as Hpos.
    { intros p [Hj Hi]%elem_of_matrix_cells. nia. }
    destruct h as [A B]. cbn [bufA bufB] in *.
    assert (forall n, (n < Z.to_nat (order * order))%nat ->
              n ∈ fill_index order <$> matrix_cells order) as Hall.
    { intros n Hn. destruct (slot_decompose order (Z.of_nat n)) as (Hr & Hq & Ek); [lia..|].
      apply list_elem_of_fmap.
      exists (Z.of_nat n / order, Z.of_nat n mod order). split.
      - unfold fill_index. cbn [fst snd]. lia.
      - apply elem_of_matrix_cells. easy. }
    assert (forall n, (n < Z.to_nat (order * order))%nat ->
              let h' := foldl (fill_step order) (Mem A B) (matrix_cells order) in
              length (bufA h') = length A /\ length (bufB h') = length B /\
              bufA h' !!! n = of_Z (Z.of_nat n) /\ bufB h' !!! n = of_Z 0) as Hfill.
    { intros n Hn.
      destruct (fill_step_lookup order (matrix_cells order) (Mem A B) n Hpos)
        as (HlA & HlB & EA & EB); cbn [bufA bufB]; try lia.
      cbn zeta. rewrite HlA, HlB, EA, EB.
      now rewrite !decide_True by (apply Hall; lia). }
    destruct (Hfill 0%nat ltac:(lia)) as (HlA & HlB & _). cbn zeta in HlA, HlB.
    apply mem_eq; apply list_eq_total.
    + rewrite HlA, length_fmap, length_seqZ. lia.
    + intros n Hn. destruct (Hfill n ltac:(lia)) as (_ & _ & -> & _).
      now rewrite lookup_total_of_Z_seqZ by lia.
    + rewrite HlB, length_replicate. lia.
    + intros n Hn. destruct (Hfill n ltac:(lia)) as (_ & _ & _ & ->).
      now rewrite lookup_total_replicate_2 by lia.
Qed.

(** ** The launch loop *)

Section launch_loop.
Context (TILED : bool) (env : prk) (inp : input).

(** While the counter stays an [int] the loop makes [iterations + 1 - iter]
    turns. *)
Lemma launch_loop_cycles n : forall fuel iter st,
  0 <= iter -> iter + Z.of_nat n = iterations inp + 1 -> iterations inp < INT_MAX ->
  (n < fuel)%nat ->
  launch_loop TILED env inp fuel iter st = cycles TILED env inp n iter st.
Proof.
  induction n as [|n IH]; intros fuel iter st Hiter Hn Hmax Hfuel;
    (destruct fuel as [|fuel]; [lia|]); cbn [launch_loop cycles].
  - replace (iter <=? iterations inp) with false by settle_test.
    reflexivity.
  - replace (iter <=? iterations inp) with true by settle_test.
    destruct (cycle TILED env inp iter st) as [st'|]; [|reflexivity].
    cbn [mbind result_bind]. rewrite int_add_ok by (unfold INT_MAX in *; lia).
    cbn [mbind result_bind]. apply IH; lia.
Qed.

(** With [iterations = INT_MAX] the test [iter <= iterations] cannot fail
    and [iter++] leaves the range of [int]: the loop has no result. *)
Lemma launch_loop_overflow : forall fuel iter st st',
  iterations inp = INT_MAX -> iter <= INT_MAX ->
  launch_loop TILED env inp fuel iter st <> Ok st'.
Proof.
  induction fuel as [|fuel IH]; intros iter st st' Hmax Hiter; cbn [launch_loop]; [easy|].
  replace (iter <=? iterations inp) with true by settle_test.
  destruct (cycle TILED env inp iter st) as [st1|]; [|easy]. cbn [mbind result_bind].
  unfold int_add. destruct ((-2147483648 <=? iter + 1) && (iter + 1 <=? INT_MAX)) eqn:Hr;
    [|easy].
  cbn [mbind result_bind]. apply IH; [assumption|].
  apply andb_true_iff in Hr as [_ Hr%Z.leb_le]. lia.
Qed.

Lemma cycles_spec n : forall iter st m',
  launches TILED inp n (device st) = Ok m' ->
  let timed := (iter <=? 1) && (1 <? iter + Z.of_nat n) in
  cycles TILED env inp n iter st =
  Ok (LoopState m'
        (if timed then wtime env (reads st) else trans_time st)
        (if timed then S (reads st) else reads st)
        (events st ++ loop_events TILED inp n iter)).
Proof.
  induction n as [|n IH]; intros iter st m' Hl timed; cbn [cycles loop_events launches] in *.
  - injection Hl as <-. subst timed.
    replace ((iter <=? 1) && (1 <? iter + Z.of_nat 0)) with false
      by (symmetry; apply andb_false_iff; rewrite Z.leb_gt, Z.ltb_ge; lia).
    rewrite app_nil_r. now destruct st.
  - destruct (launch_once TILED inp (device st)) as [m1|] eqn:E1; [|easy].
    cbn [mbind result_bind] in Hl. unfold cycle. unfold launch_once in E1.
    destruct (iter =? 1) eqn:Hi; [apply Z.eqb_eq in Hi|apply Z.eqb_neq in Hi];
      cbn [device trans_time reads events]; rewrite E1; cbn [mbind result_bind];
      rewrite (IH _ _ m') by exact Hl; cbn [device trans_time reads events]; subst timed.
    + replace ((iter + 1 <=? 1) && (1 <? iter + 1 + Z.of_nat n)) with false
        by (symmetry; apply andb_false_iff; rewrite Z.leb_gt; lia).
      replace ((iter <=? 1) && (1 <? iter + Z.of_nat (S n))) with true
        by (symmetry; apply andb_true_iff; rewrite Z.leb_le, Z.ltb_lt; lia).
      now rewrite <- !app_assoc.
    + replace ((iter + 1 <=? 1) && (1 <? iter + 1 + Z.of_nat n))
        with ((iter <=? 1) && (1 <? iter + Z.of_nat (S n))).
      * now rewrite <- !app_assoc.
      * destruct (Z.leb_spec iter 1), (Z.leb_spec (iter + 1) 1),
          (Z.ltb_spec 1 (iter + Z.of_nat (S n))), (Z.ltb_spec 1 (iter + 1 + Z.of_nat n));
          cbn; lia || reflexivity.
Qed.

Lemma loop_events_steady n : forall iter,
  2 <= iter ->
  loop_events TILED inp n iter =
  concat (replicate n [Launch (dimGrid TILED inp) (dimBlock TILED inp); Sync]).
Proof.
  induction n as [|n IH]; intros iter Hiter; [reflexivity|].
  cbn [loop_events replicate concat].
  replace (iter =? 1) with false by settle_test.
  now rewrite IH by lia.
Qed.

Lemma launches_app n1 n2 m :
  launches TILED inp (n1 + n2) m = launches TILED inp n1 m ≫= launches TILED inp n2.
Proof.
  revert m. induction n1 as [|n1 IH]; intros m; [reflexivity|].
  cbn [Nat.add launches]. destruct (launch_once TILED inp m); [apply IH|reflexivity].
Qed.

End launch_loop.

Lemma holds_le w w' m : 0 <= w' <= w -> holds w m -> holds w' m.
Proof. unfold holds. intros Hw [HA HB]. split; nia. Qed.

(** A launch of the program, with either kernel, ends without a fault and
    keeps the lengths of the buffers. *)
Lemma launch_once_safe TILED inp m :
  1 <= order inp <= INT_MAX -> holds (order inp) m ->
  exists m', launch_once TILED inp m = Ok m' /\
    length (bufA m') = length (bufA m) /\ length (bufB m') = length (bufB m).
Proof.
  intros Ho Hm. unfold launch_once, launch. destruct TILED; cbn [the_kernel].
  - destruct (tiled_geometry inp Ho) as (-> & -> & Hq & Hle).
    destruct (run_threads_tiled_safe (order inp) (order inp / 32) (Dim3 32 8 1)
                (threads (Dim3 (order inp / 32) (order inp / 32) 1) (Dim3 32 8 1)) m)
      as (m' & E & _ & HA & HB & _).
    + unfold INT_MAX in Ho. lia.
    + apply tiled_threads_Forall.
    + apply (holds_le (order inp)); [lia|assumption].
    + exists m'. easy.
  - destruct (run_threads_transpose_safe (order inp) (dimGrid false inp)
                (dimBlock false inp) (threads (dimGrid false inp) (dimBlock false inp)) m Hm)
      as (m' & E & _ & HA & HB).
    exists m'. easy.
Qed.

Lemma launches_safe TILED inp n : forall m,
  1 <= order inp <= INT_MAX -> holds (order inp) m ->
  exists m', launches TILED inp n m = Ok m' /\
    length (bufA m') = length (bufA m) /\ length (bufB m') = length (bufB m).
Proof.
  induction n as [|n IH]; intros m Ho Hm; [now exists m|].
  destruct (launch_once_safe TILED inp m Ho Hm) as (m1 & E1 & HA1 & HB1).
  destruct (IH m1 Ho) as (m' & E' & HA' & HB').
  { unfold holds in *. rewrite HA1, HB1. exact Hm. }
  exists m'. cbn [launches]. rewrite E1. cbn [mbind result_bind].
  repeat split; congruence.
Qed.

(** With [iterations = INT_MAX] and enough fuel the model reaches the turn
    with [iter = INT_MAX] and stops at the overflow of [iter++]. *)
Lemma launch_loop_counter_overflow TILED env inp n : forall fuel iter st,
  iterations inp = INT_MAX -> 1 <= order inp <= INT_MAX ->
  0 <= iter -> iter + Z.of_nat (S n) = INT_MAX + 1 -> (n < fuel)%nat ->
  holds (order inp) (device st) ->
  launch_loop TILED env inp fuel iter st = Fault SignedOverflow.
Proof.
  induction n as [|n IH]; intros fuel iter st Hmax Ho Hiter Hn Hfuel Hst;
    (destruct fuel as [|fuel]; [lia|]); cbn [launch_loop];
    (replace (iter <=? iterations inp) with true by settle_test);
    unfold cycle;
    (assert (holds (order inp)
               (device (if iter =? 1
                        then LoopState (device st) (wtime env (reads st)) (S (reads st))
                               (events st ++ [Sync; Wtime])
                        else st))) as Hst1 by (now destruct (iter =? 1)));
    destruct (launch_once_safe TILED inp _ Ho Hst1) as (m' & E & HA & HB);
    unfold launch_once in E; rewrite E; cbn [mbind result_bind].
  - unfold int_add.
    replace ((-2147483648 <=? iter + 1) && (iter + 1 <=? INT_MAX)) with false
      by (symmetry; apply andb_false_iff; right; apply Z.leb_gt; lia).
    reflexivity.
  - rewrite int_add_ok by (unfold INT_MAX in *; lia). cbn [mbind result_bind].
    apply IH; try assumption; try lia.
    cbn [device]. unfold holds in *. rewrite HA, HB. exact Hst1.
Qed.

(** ** The run as a whole *)

Lemma for_each_total {S T} (Inv : S -> Prop) (body : T -> S -> result S) l : forall s,
  (forall t s, t ∈ l -> Inv s -> exists s', body t s = Ok s' /\ Inv s') ->
  Inv s -> exists s', for_each body l s = Ok s' /\ Inv s'.
Proof.
  induction l as [|t l IH]; intros s Hbody Hs; [now exists s|].
  destruct (Hbody t s) as (s1 & E1 & H1); [left|assumption|].
  destruct (IH s1) as (s' & E' & H'); [|assumption|].
  - intros t' s'' Ht'. apply Hbody. now right.
  - exists s'. cbn [for_each]. rewrite E1. easy.
Qed.

Lemma aggregate_error_total iterations order h_b :
  1 <= order -> order * order <= INT_MAX ->
  Z.of_nat (length h_b) = order * order ->
  exists abserr, aggregate_error iterations order h_b = Ok abserr.
Proof.
  unfold INT_MAX. intros Ho Hsq Hlen. unfold aggregate_error. rewrite for_each_nested.
  fold (matrix_cells order).
  destruct (for_each_total (fun _ => True)
              (fun (p : Z * Z) abserr =>
                 b ← load h_b (size_t (size_t p.1 * size_t order + size_t p.2));
                 Ok (dadd abserr (prk_abs (dsub b (reference iterations order p.2 p.1)))))
              (matrix_cells order) (of_Z 0)) as (e & E & _); [|easy|now exists e].
  intros p s [Hj Hi]%elem_of_matrix_cells _.
  pose proof (cell_index_range order p.2 p.1 Hi Hj) as Hidx.
  rewrite (size_t_small p.1), (size_t_small p.2), (size_t_small order) by lia.
  rewrite size_t_small by lia. unfold load. rewrite in_bounds_true by lia.
  cbn [mbind result_bind]. eauto.
Qed.

(** Once [h_a] is released, the dump faults at its first read. *)
Lemma dump_dangling order h_b :
  1 <= order <= INT_MAX -> dump order Dangling h_b = Fault UseAfterFree.
Proof.
  intros Ho. unfold dump. rewrite (seqZ_cons 0 order) by lia.
  cbn [for_each]. rewrite int_mul_ok by (unfold INT_MAX; lia).
  cbn [mbind result_bind]. rewrite int_add_ok by (unfold INT_MAX; lia).
  reflexivity.
Qed.

Lemma initial_length order :
  0 <= order ->
  Z.of_nat (length (bufA (initial order))) = order * order /\
  Z.of_nat (length (bufB (initial order))) = order * order.
Proof.
  intros Ho. unfold initial. cbn [bufA bufB].
  rewrite length_fmap, length_seqZ, length_replicate. nia.
Qed.

(** For parameters that pass the input check, and an iteration count the
    loop counter can reach, the run ends; its device memory is that of
    [iterations + 1] launches, and the time it reports is the difference of
    the two clock readings. *)
Lemma benchmark_spec TILED VERBOSE env fuel inp :
  1 <= order inp -> order inp * order inp <= INT_MAX ->
  1 <= iterations inp < INT_MAX ->
  (Z.to_nat (iterations inp + 1) < fuel)%nat ->
  exists d err,
    launches TILED inp (Z.to_nat (iterations inp + 1)) (initial (order inp)) = Ok d /\
    Z.of_nat (length (bufA d)) = order inp * order inp /\
    Z.of_nat (length (bufB d)) = order inp * order inp /\
    aggregate_error (iterations inp) (order inp) (bufB d) = Ok err /\
    benchmark TILED VERBOSE env fuel inp =
    Ok (Measurement (benchmark_events TILED VERBOSE inp err)
          (dsub (wtime env 1%nat) (wtime env 0%nat)) err
          (Mem (if VERBOSE then bufA d else bufA (initial (order inp))) (bufB d))
          Dangling Dangling).
Proof.
  intros Ho Hsq Hit Hfuel.
  assert (order inp <= INT_MAX) as Hmax by (unfold INT_MAX in *; nia).
  destruct (initial_length (order inp) ltac:(lia)) as [HA0 HB0].
  destruct (launches_safe TILED inp (Z.to_nat (iterations inp + 1)) (initial (order inp)))
    as (d & Ed & HAd & HBd); [lia|unfold holds; lia|].
  destruct (aggregate_error_total (iterations inp) (order inp) (bufB d))
    as (err & Eerr); [lia..|].
  exists d, err. repeat split; try assumption; try lia.
  unfold benchmark.
  assert (size_t (size_t (order inp) * size_t (order inp)) = order inp * order inp) as ->.
  { unfold INT_MAX in *. rewrite (size_t_small (order inp)) by lia. apply size_t_small. lia. }
  rewrite fill_host_ok; try assumption;
    try (cbn [bufA bufB]; unfold malloc; rewrite length_replicate; lia).
  cbn [mbind result_bind bufA bufB]. fold (initial (order inp)).
  rewrite (launch_loop_cycles TILED env inp (Z.to_nat (iterations inp + 1))) by lia.
  rewrite (cycles_spec TILED env inp _ 0 _ d) by exact Ed.
  cbn [mbind result_bind device trans_time reads events].
  replace ((0 <=? 1) && (1 <? 0 + Z.of_nat (Z.to_nat (iterations inp + 1)))) with true
    by (symmetry; apply andb_true_iff; rewrite Z.leb_le, Z.ltb_lt; lia).
  cbn [bufA bufB]. rewrite Eerr. cbn [mbind result_bind]. unfold benchmark_events, initial. cbn [bufA].
  now rewrite <- !app_assoc.
Qed.

(** A run that ends has released both host buffers. *)
Lemma benchmark_releases TILED VERBOSE env fuel inp r :
  benchmark TILED VERBOSE env fuel inp = Ok r -> h_a r = Dangling /\ h_b r = Dangling.
Proof.
  unfold benchmark. intros H.
  destruct (fill_host _ _) as [h|]; [|discriminate]. cbn [mbind result_bind] in H.
  destruct (launch_loop _ _ _ _ _ _) as [st|]; [|discriminate].
  cbn [mbind result_bind] in H.
  destruct (aggregate_error _ _ _) as [err|]; [|discriminate].
  cbn [mbind result_bind] in H. injection H as <-. easy.
Qed.

(** With [iterations = INT_MAX] the run has no result: the loop does not
    end, and with enough fuel the model stops at the overflow of [iter++]. *)
Lemma benchmark_counter_overflow TILED VERBOSE env inp :
  iterations inp = INT_MAX -> 1 <= order inp -> order inp * order inp <= INT_MAX ->
  (forall fuel r, benchmark TILED VERBOSE env fuel inp <> Ok r) /\
  (forall fuel, INT_MAX + 1 < Z.of_nat fuel ->
     benchmark TILED VERBOSE env fuel inp = Fault SignedOverflow).
Proof.
  intros Hmax Ho Hsq.
  assert (size_t (size_t (order inp) * size_t (order inp)) = order inp * order inp) as Hn.
  { unfold INT_MAX in *. rewrite (size_t_small (order inp)) by nia. apply size_t_small. lia. }
  assert (fill_host (order inp) (Mem (malloc (order inp * order inp))
                                   (malloc (order inp * order inp))) =
          Ok (initial (order inp))) as Hfill.
  { apply fill_host_ok; try lia;
      cbn [bufA bufB]; unfold malloc; rewrite length_replicate; lia. }
  split.
  - intros fuel r. unfold benchmark. rewrite Hn, Hfill. cbn [mbind result_bind].
    destruct (launch_loop TILED env inp fuel 0 _) as [st|f] eqn:E; [|discriminate].
    now apply launch_loop_overflow in E.
  - intros fuel Hfuel. unfold benchmark. rewrite Hn, Hfill. cbn [mbind result_bind].
    rewrite (launch_loop_counter_overflow TILED env inp (Z.to_nat INT_MAX));
      [reflexivity|lia|unfold INT_MAX in *; nia|lia|unfold INT_MAX; lia
      |unfold INT_MAX in *; lia|].
    destruct (initial_length (order inp)) as [HA HB]; [lia|].
    unfold holds. cbn [device bufA bufB]. lia.
Qed.

(** ** The closed form of the accumulation *)

Lemma triangle_double k : 2 * triangle k = k * (k - 1).
Proof.
  unfold triangle. symmetry. apply Z.div_exact; [lia|].
  rewrite Zmod_even, Z.even_mul, Z.even_sub. change (Z.even 1) with false.
  now destruct (Z.even k).
Qed.

Lemma triangle_succ k : triangle (k + 1) = triangle k + k.
Proof. pose proof (triangle_double k). pose proof (triangle_double (k + 1)). nia. Qed.

Lemma triangle_nonneg k : 0 <= k -> 0 <= triangle k.
Proof.
  intros Hk. pose proof (triangle_double k).
  assert (0 <= k * (k - 1)) by (destruct (Z.eq_dec k 0) as [->|]; [lia|nia]). lia.
Qed.

Lemma triangle_mono k k' : 0 <= k <= k' -> triangle k <= triangle k'.
Proof.
  intros Hk. pose proof (triangle_double k). pose proof (triangle_double k').
  assert (k * (k - 1) <= k' * (k' - 1)) by (destruct (Z.eq_dec k 0) as [->|]; nia). lia.
Qed.

Lemma lookup_total_fmap_seqZ (f : Z -> double) len idx :
  0 <= idx < len -> (f <$> seqZ 0 len) !!! Z.to_nat idx = f idx.
Proof.
  intros Hidx. rewrite (list_lookup_total_fmap f) by (rewrite length_seqZ; lia).
  rewrite lookup_total_seqZ_lt by lia. f_equal. lia.
Qed.

Lemma transposed_cell order i j :
  0 <= i < order -> 0 <= j < order -> transposed order (i * order + j) = j * order + i.
Proof.
  intros Hi Hj. unfold transposed. replace (i * order + j) with (j + i * order) by lia.
  rewrite Z.mod_add, Z.div_add, Z.mod_small, Z.div_small by lia. lia.
Qed.

Lemma after_length order k :
  0 <= order ->
  Z.of_nat (length (bufA (after order k))) = order * order /\
  Z.of_nat (length (bufB (after order k))) = order * order.
Proof.
  intros Ho. unfold after. cbn [bufA bufB]. rewrite !length_fmap, length_seqZ. nia.
Qed.

Lemma after_0 order : 0 <= order -> after order 0 = initial order.
Proof.
  intros Ho. unfold after, initial. f_equal.
  - apply list_fmap_ext. intros n idx _. now rewrite Z.add_0_r.
  - apply list_eq_total.
    + rewrite length_fmap, length_seqZ, length_replicate. reflexivity.
    + intros n Hn. rewrite length_fmap, length_seqZ in Hn.
      rewrite lookup_total_replicate_2 by lia.
      rewrite <- (Nat2Z.id n) at 1. rewrite lookup_total_fmap_seqZ by nia.
      reflexivity.
Qed.

Lemma of_Z_add a b :
  0 <= a -> 0 <= b -> a + b < 2 ^ 53 -> dadd (of_Z a) (of_Z b) = of_Z (a + b).
Proof. intros Ha Hb Hab. unfold of_Z. apply dadd_dyadic; lia. Qed.

Lemma of_Z_mul a b :
  0 <= a -> 0 <= b -> a < 2 ^ 53 -> b < 2 ^ 53 -> a * b < 2 ^ 53 ->
  dmul (of_Z a) (of_Z b) = of_Z (a * b).
Proof.
  intros Ha Hb Ha' Hb' Hab. unfold of_Z.
  rewrite (dmul_dyadic a b 0 0 (a * b) 0) by (change (2 ^ 0) with 1; nia).
  reflexivity.
Qed.

Lemma of_Z_sub_diag a : 0 <= a < 2 ^ 53 -> dsub (of_Z a) (of_Z a) = of_Z 0.
Proof. intros Ha. unfold of_Z. rewrite dsub_dyadic_diag by lia. reflexivity. Qed.

(** One more launch takes [after order k] to [after order (k + 1)]. *)
Lemma after_contract order k :
  1 <= order -> 0 <= k ->
  (k + 1) * (order * order) + triangle (k + 1) < 2 ^ 53 ->
  transpose_contract order (after order k) (after order (k + 1)).
Proof.
  intros Ho Hk Hb.
  destruct (after_length order k) as [HA HB]; [lia|].
  destruct (after_length order (k + 1)) as [HA' HB']; [lia|].
  pose proof (triangle_nonneg k Hk) as Ht. pose proof (triangle_succ k) as Hts.
  split; [lia|]. split; [lia|]. intros i j Hi Hj.
  pose proof (cell_index_range order i j Hi Hj) as Hji.
  pose proof (cell_index_range order j i Hj Hi) as Hij.
  unfold after. cbn [bufA bufB]. rewrite !lookup_total_fmap_seqZ by lia.
  rewrite transposed_cell by assumption.
  assert (0 <= k * (j * order + i)) by nia.
  assert ((k + 1) * (j * order + i) <= (k + 1) * (order * order))
    by (apply Z.mul_le_mono_nonneg_l; lia).
  assert (j * order + i + k + 1 <= (k + 1) * (order * order)) by nia.
  rewrite !of_Z_add by lia. split; f_equal; lia.
Qed.

Lemma launches_exact inp n : forall k,
  1 <= order inp -> order inp * order inp <= INT_MAX ->
  1 <= tile_size inp <= INT_MAX -> 0 <= k ->
  (k + Z.of_nat n) * (order inp * order inp) + triangle (k + Z.of_nat n) < 2 ^ 53 ->
  launches false inp n (after (order inp) k) = Ok (after (order inp) (k + Z.of_nat n)).
Proof.
  induction n as [|n IH]; intros k Ho Hsq Hts Hk Hb.
  { cbn [launches]. now rewrite Z.add_0_r. }
  assert (order inp <= INT_MAX) as Hmax by (unfold INT_MAX in *; nia).
  assert (order inp * order inp <= 4294967296) as Hsq' by (unfold INT_MAX in *; lia).
  destruct (after_length (order inp) k) as [HA HB]; [lia|].
  destruct (elementwise_geometry inp) as (Hbx & Hby & Hgx & Hgy); [lia..|].
  pose proof (triangle_mono (k + 1) (k + Z.of_nat (S n)) ltac:(lia)) as Hmono.
  destruct (launch_transpose_contract (order inp) (dimGrid false inp) (dimBlock false inp)
              (after (order inp) k)) as (m' & E & C); try assumption.
  { unfold holds. lia. }
  assert (m' = after (order inp) (k + 1)) as ->.
  { apply (transpose_contract_deterministic (order inp) (after (order inp) k));
      try assumption; try lia.
    apply after_contract; lia || nia. }
  cbn [launches]. unfold launch_once. cbn [the_kernel]. rewrite E. cbn [mbind result_bind].
  rewrite IH; try assumption; try lia.
  - do 2 f_equal. lia.
  - replace (k + 1 + Z.of_nat n) with (k + Z.of_nat (S n)) by lia. exact Hb.
Qed.

Lemma addit_exact n :
  0 <= n -> n + 1 < 2 ^ 53 -> triangle (n + 1) < 2 ^ 53 ->
  addit n = of_Z (triangle (n + 1)).
Proof.
  intros Hn Hn' Ht. unfold addit. rewrite of_Z_add by lia. unfold of_Z.
  rewrite ddiv_dyadic_2 by lia.
  pose proof (triangle_double (n + 1)) as Hd. pose proof (triangle_nonneg (n + 1)) as H0.
  rewrite (dmul_dyadic (n + 1) n 0 (0 - 1) (triangle (n + 1)) 1) by lia.
  reflexivity.
Qed.

Lemma reference_exact n order i j :
  0 <= n -> 0 <= i < order -> 0 <= j < order -> order * order <= INT_MAX ->
  (n + 1) * (order * order) + triangle (n + 1) < 2 ^ 53 ->
  reference n order i j = of_Z ((n + 1) * (i * order + j) + triangle (n + 1)).
Proof.
  unfold INT_MAX. intros Hn Hi Hj Hsq Hb.
  pose proof (cell_index_range order j i Hj Hi) as Hij.
  pose proof (triangle_nonneg (n + 1) ltac:(lia)) as Ht.
  assert (1 <= order * order) by nia.
  assert ((n + 1) * (i * order + j) <= (n + 1) * (order * order)) by nia.
  assert (0 <= (n + 1) * (i * order + j)) by nia.
  assert (n + 1 <= (n + 1) * (order * order)) by nia.
  assert (order <= order * order) by nia.
  unfold reference.
  rewrite (size_t_small i), (size_t_small j), (size_t_small order), size_t_small by lia.
  rewrite addit_exact, of_Z_add, of_Z_mul, of_Z_add by lia. f_equal. lia.
Qed.

(** On the memory of [n + 1] exact launches every term of the error sum
    is zero. *)
Lemma aggregate_error_exact n order :
  0 <= n -> 1 <= order -> order * order <= INT_MAX ->
  (n + 1) * (order * order) + triangle (n + 1) < 2 ^ 53 ->
  aggregate_error n order (bufB (after order (n + 1))) = Ok (of_Z 0).
Proof.
  intros Hn Ho Hsq Hb. unfold aggregate_error. rewrite for_each_nested.
  fold (matrix_cells order).
  destruct (for_each_pure (fun s => s = of_Z 0)
              (fun (p : Z * Z) abserr =>
                 b ← load (bufB (after order (n + 1)))
                      (size_t (size_t p.1 * size_t order + size_t p.2));
                 Ok (dadd abserr (prk_abs (dsub b (reference n order p.2 p.1)))))
              (fun s _ => s) (matrix_cells order) (of_Z 0)) as [E _]; [|reflexivity|].
  - intros p s [Hj Hi]%elem_of_matrix_cells ->. split; [|reflexivity].
    pose proof (cell_index_range order p.2 p.1 Hi Hj) as Hji.
    pose proof (cell_index_range order p.1 p.2 Hj Hi) as Hij.
    pose proof (triangle_nonneg (n + 1) ltac:(lia)) as Ht.
    destruct (after_length order (n + 1)) as [_ HB]; [lia|].
    unfold INT_MAX in Hsq. assert (order <= order * order) by nia.
    rewrite (size_t_small p.1), (size_t_small p.2), (size_t_small order), size_t_small
      by lia.
    unfold load. rewrite in_bounds_true by lia. cbn [mbind result_bind].
    unfold after. cbn [bufB]. rewrite lookup_total_fmap_seqZ by lia.
    rewrite transposed_cell, reference_exact by (assumption || lia).
    assert (0 <= (n + 1) * (p.2 * order + p.1) <= (n + 1) * (order * order)) by nia.
    rewrite of_Z_sub_diag by lia. reflexivity.
  - rewrite E. f_equal. clear E. generalize (of_Z 0).
    induction (matrix_cells order) as [|c l IH]; intros s; [reflexivity|apply IH].
Qed.

(** ** The validation against the analytic reference *)

(** C1 (as amended): for order >= 1 (with order^2 within [int], as the
    input check guarantees), a tile size from 1 to 32 (the sizes [main]
    takes without its warning) and iterations >= 1 such that the largest
    number formed, (iterations+1)*order^2 + iterations*(iterations+1)/2, is
    below 2^53, the run ends, after its iterations + 1 launches every
    [B[j*order+i]] equals the reference value
    [(i*order+j)*(1+iterations) + (iterations+1)*(iterations/2)], and the
    aggregate error is exactly zero, hence below 1.0e-8. *)
Theorem C1_validation_exact (VERBOSE : bool) (env : prk) (iterations order tile_size : Z) :
  1 <= order -> order * order <= INT_MAX -> 1 <= tile_size <= 32 ->
  1 <= iterations ->
  (iterations + 1) * (order * order) + iterations * (iterations + 1) / 2 < 2 ^ 53 ->
  let inp := Input iterations order tile_size in
  exists fuel r,
    benchmark false VERBOSE env fuel inp = Ok r /\
    (forall i j, 0 <= i < order -> 0 <= j < order ->
       bufB (host r) !!! Z.to_nat (j * order + i) = reference iterations order i j) /\
    abserr r = of_Z 0 /\
    dltb (abserr r) epsilon = true.
Proof.
  intros Ho Hsq Hts Hit Hb inp.
  assert (triangle (iterations + 1) = iterations * (iterations + 1) / 2) as Htri.
  { unfold triangle. f_equal. ring. }
  rewrite <- Htri in Hb.
  pose proof (triangle_nonneg (iterations + 1) ltac:(lia)) as Ht.
  assert (1 <= order * order) by nia.
  assert (iterations < INT_MAX) as Hmax.
  { pose proof (triangle_double (iterations + 1)) as Hd. unfold INT_MAX.
    destruct (Z.lt_ge_cases iterations 2147483647) as [Hlt|Hge]; [exact Hlt|].
    assert (2147483647 * 2147483647 <= (iterations + 1) * (iterations + 1 - 1)) by nia.
    lia. }
  exists (S (Z.to_nat (iterations + 1))).
  destruct (benchmark_spec false VERBOSE env (S (Z.to_nat (iterations + 1))) inp)
    as (d & err & Ed & _ & _ & Eerr & Eb); cbn [input_order input_iterations inp];
    try lia.
  cbn [input_order input_iterations inp] in *.
  rewrite <- after_0 in Ed by lia.
  rewrite (launches_exact inp) in Ed; cbn [input_order input_tile_size inp];
    try lia; [|unfold INT_MAX; lia|now rewrite Z.add_0_l, Z2Nat.id by lia].
  cbn [input_order inp] in Ed. rewrite Z.add_0_l, Z2Nat.id in Ed by lia.
  injection Ed as <-.
  rewrite aggregate_error_exact in Eerr by lia. injection Eerr as <-.
  eexists. split; [exact Eb|]. cbn [host abserr bufB]. repeat split.
  intros i j Hi Hj. pose proof (cell_index_range order i j Hi Hj) as Hji.
  unfold after. cbn [bufB]. rewrite lookup_total_fmap_seqZ by lia.
  rewrite transposed_cell, reference_exact by (assumption || lia). reflexivity.
Qed.

Lemma C1_witness :
  let inp := Input 1 4 32 in
  exists fuel r,
    benchmark false false (Prk "" 46340 (fun _ => of_Z 0)) fuel inp = Ok r /\
    (forall i j, 0 <= i < 4 -> 0 <= j < 4 ->
       bufB (host r) !!! Z.to_nat (j * 4 + i) = reference 1 4 i j) /\
    abserr r = of_Z 0 /\
    dltb (abserr r) epsilon = true.
Proof.
  apply (C1_validation_exact false (Prk "" 46340 (fun _ => of_Z 0)) 1 4 32);
    unfold INT_MAX; try lia; reflexivity.
Defined.

(** C1 as stated fails for long runs: with order 1 and 134217730
    iterations the sum 0 + 1 + ... + 134217730 leaves the range in which
    doubles hold every integer. The repeated additions of the kernel and
    the product of the reference formula then round differently, the
    aggregate error is 2, and the program reports the failure and returns
    1. *)
Lemma C1_counterexample :
  read_input false (Prk "" 46340 (fun _ => of_Z 0)) ["transpose"; "134217730"; "1"] =
    ([], inr (Input 134217730 1 32)) /\
  exists r out,
    benchmark false false (Prk "" 46340 (fun _ => of_Z 0)) (Z.to_nat 134217740)
      (Input 134217730 1 32) = Ok r /\
    abserr r = of_Z 2 /\
    dltb (abserr r) epsilon = false /\
    main false false (Prk "" 46340 (fun _ => of_Z 0)) (Z.to_nat 134217740)
      ["transpose"; "134217730"; "1"] = Ok out /\
    exit_code out = 1.
Proof.
  assert (read_input false (Prk "" 46340 (fun _ => of_Z 0))
            ["transpose"; "134217730"; "1"] = ([], inr (Input 134217730 1 32))) as Hread
    by reflexivity.
  split; [exact Hread|].
  set (inp := Input 134217730 1 32) in *.
  destruct (benchmark_spec false false (Prk "" 46340 (fun _ => of_Z 0))
              (Z.to_nat 134217740) inp) as (d & err & Ed & _ & _ & Eerr & Eb);
    cbn [input_order input_iterations inp]; unfold INT_MAX; try lia.
  cbn [input_order input_iterations inp] in Ed, Eerr.
  replace (Z.to_nat (134217730 + 1)) with (Z.to_nat 134217727 + 4)%nat in Ed by lia.
  assert (launches false inp (Z.to_nat 134217727) (initial 1) = Ok (after 1 134217727))
    as Hexact.
  { rewrite <- after_0 by lia.
    pose proof (launches_exact inp (Z.to_nat 134217727) 0) as H.
    cbn [input_order input_tile_size inp] in H. rewrite Z.add_0_l, Z2Nat.id in H by lia.
    apply H; unfold INT_MAX; try lia. reflexivity. }
  rewrite launches_app, Hexact in Ed. cbn [mbind result_bind] in Ed.
  vm_compute in Ed. injection Ed as <-.
  vm_compute in Eerr. injection Eerr as <-.
  eexists. eexists. split; [exact Eb|]. split; [reflexivity|]. split; [reflexivity|].
  unfold main. rewrite Hread, Eb. cbn [mbind result_bind]. unfold verdict.
  cbn [abserr]. change (dltb _ epsilon) with false. cbn [mbind result_bind].
  split; reflexivity.
Qed.

(** ** The input check *)

Lemma atoi_range s : -2147483648 <= atoi s <= INT_MAX.
Proof.
  unfold atoi, int_wrap, INT_MAX.
  pose proof (Z.mod_pos_bound (strtol s + 2147483648) 4294967296 ltac:(lia)). lia.
Qed.

(** What [read_input] has checked when it hands out parameters. *)
Lemma read_input_accepts TILED env argv warn inp :
  read_input TILED env argv = (warn, inr inp) ->
  3 <= Z.of_nat (length argv) /\
  iterations inp = atoi (argv !!! 1%nat) /\ 1 <= iterations inp /\
  order inp = atoi (argv !!! 2%nat) /\ 1 <= order inp <= get_max_matrix_size env /\
  order inp <= INT_MAX /\
  (TILED = false -> 1 <= tile_size inp <= order inp \/ tile_size inp = 32).
Proof.
  unfold read_input, read_tile_size.
  destruct (Z.ltb_spec (Z.of_nat (length argv)) 3); [easy|].
  destruct (Z.ltb_spec (atoi (argv !!! 1%nat)) 1); [easy|].
  destruct (Z.leb_spec (atoi (argv !!! 2%nat)) 0); [easy|].
  destruct (Z.ltb_spec (get_max_matrix_size env) (atoi (argv !!! 2%nat))); [easy|].
  pose proof (atoi_range (argv !!! 2%nat)) as Hr.
  destruct TILED.
  - intros [= _ <-]. cbn [iterations order tile_size]. repeat split; lia || easy.
  - destruct (Z.ltb_spec 3 (Z.of_nat (length argv))).
    + destruct (Z.leb_spec (atoi (argv !!! 3%nat)) 0);
        [|destruct (Z.ltb_spec (atoi (argv !!! 2%nat)) (atoi (argv !!! 3%nat)))];
        rewrite ?Z.ltb_irrefl; intros [= _ <-]; cbn [iterations order tile_size];
        repeat split; lia.
    + intros [= _ <-]. cbn [iterations order tile_size]. repeat split; lia.
Qed.

(** C6: with fewer than two arguments, with iterations < 1, with
    order <= 0 or with an order above the ceiling, [main] prints one of its
    four messages right after the banner and returns 1; nothing was
    allocated and no kernel was launched. *)
Theorem C6_input_errors (TILED VERBOSE : bool) (env : prk) (fuel : nat)
    (argv : list string) :
  Z.of_nat (length argv) < 3 \/
  atoi (argv !!! 1%nat) < 1 \/
  atoi (argv !!! 2%nat) <= 0 \/
  get_max_matrix_size env < atoi (argv !!! 2%nat) ->
  exists e,
    e ∈ ["Usage: <# iterations> <matrix order>"; "ERROR: iterations must be >= 1";
         "ERROR: Matrix Order must be greater than 0";
         "ERROR: matrix dimension too large - overflow risk"] /\
    main TILED VERBOSE env fuel argv =
      Ok (Outcome (banner env ++ [Cout [Str e; Endl]]) 1) /\
    Forall (fun ev => ~ allocates_or_launches ev) (banner env ++ [Cout [Str e; Endl]]).
Proof.
  intros Hbad.
  assert (exists e,
            e ∈ ["Usage: <# iterations> <matrix order>"; "ERROR: iterations must be >= 1";
                 "ERROR: Matrix Order must be greater than 0";
                 "ERROR: matrix dimension too large - overflow risk"] /\
            read_input TILED env argv = ([], inl e)) as (e & He & E).
  { unfold read_input.
    destruct (Z.ltb_spec (Z.of_nat (length argv)) 3).
    { eexists. split; [|reflexivity]. rewrite !elem_of_cons. tauto. }
    destruct (Z.ltb_spec (atoi (argv !!! 1%nat)) 1).
    { eexists. split; [|reflexivity]. rewrite !elem_of_cons. tauto. }
    destruct (Z.leb_spec (atoi (argv !!! 2%nat)) 0).
    { eexists. split; [|reflexivity]. rewrite !elem_of_cons. tauto. }
    destruct (Z.ltb_spec (get_max_matrix_size env) (atoi (argv !!! 2%nat))).
    { eexists. split; [|reflexivity]. rewrite !elem_of_cons. tauto. }
    lia. }
  exists e. split; [exact He|]. split.
  - unfold main. rewrite E. reflexivity.
  - unfold banner. repeat constructor; cbn; tauto.
Qed.

Lemma C6_witness :
  exists e,
    e ∈ ["Usage: <# iterations> <matrix order>"; "ERROR: iterations must be >= 1";
         "ERROR: Matrix Order must be greater than 0";
         "ERROR: matrix dimension too large - overflow risk"] /\
    main false false (Prk "" 46340 (fun _ => of_Z 0)) 0 ["transpose"; "0"; "4"] =
      Ok (Outcome (banner (Prk "" 46340 (fun _ => of_Z 0)) ++ [Cout [Str e; Endl]]) 1) /\
    Forall (fun ev => ~ allocates_or_launches ev)
      (banner (Prk "" 46340 (fun _ => of_Z 0)) ++ [Cout [Str e; Endl]]).
Proof.
  apply (C6_input_errors false false (Prk "" 46340 (fun _ => of_Z 0)) 0
           ["transpose"; "0"; "4"]).
  right. left. vm_compute. reflexivity.
Defined.

(** The scenario of the specification: iterations = 0. *)
Example iterations_zero :
  main false false (Prk "" 46340 (fun _ => of_Z 0)) 0 ["transpose"; "0"; "4"] =
  Ok (Outcome (banner (Prk "" 46340 (fun _ => of_Z 0))
                 ++ [Cout [Str "ERROR: iterations must be >= 1"; Endl]]) 1).
Proof. reflexivity. Qed.

(** ** Arguments that are not numbers *)

Lemma digits_value_no_digit s : starts_with_digit s = false -> digits_value s 0 = 0.
Proof. destruct s as [|c s]; [reflexivity|]. cbn. now intros ->. Qed.

(** Where [atoi] finds nothing to convert it returns 0. *)
Lemma atoi_not_numeric s : numeric s = false -> atoi s = 0.
Proof.
  unfold atoi, strtol, numeric.
  destruct (skip_space s) as [|c s']; [reflexivity|].
  destruct c as [[] [] [] [] [] [] [] []];
    try (intros H; rewrite (digits_value_no_digit _ H); reflexivity);
    cbn; try discriminate; reflexivity.
Qed.

(** ** The optional tile size *)

(** What the element-wise build reads from arguments that pass the
    checks on iterations and order. *)
Lemma read_input_elementwise (env : prk) (argv : list string) :
  3 <= Z.of_nat (length argv) ->
  1 <= atoi (argv !!! 1%nat) ->
  0 < atoi (argv !!! 2%nat) <= get_max_matrix_size env ->
  let order := atoi (argv !!! 2%nat) in
  let supplied := atoi (argv !!! 3%nat) in
  let given := 3 <? Z.of_nat (length argv) in
  let effective :=
    if given
    then (if (supplied <=? 0) || (order <? supplied) then order else supplied)
    else 32 in
  read_input false env argv =
  (if given && (32 <? effective) then [tile_warning] else [],
   inr (Input (atoi (argv !!! 1%nat)) order effective)).
Proof.
  intros Hlen Hit Ho order supplied given effective.
  unfold read_input, read_tile_size. fold order supplied given.
  replace (Z.of_nat (length argv) <? 3) with false by settle_test.
  replace (atoi (argv !!! 1%nat) <? 1) with false by settle_test.
  replace (order <=? 0) with false by (unfold order; settle_test).
  replace (get_max_matrix_size env <? order) with false by (unfold order; settle_test).
  subst effective. destruct given; [|reflexivity]. cbn [andb].
  destruct (Z.leb_spec supplied 0); cbn [orb].
  - now rewrite Z.ltb_irrefl.
  - destruct (order <? supplied); reflexivity.
Qed.

(** C8 (as amended): without a third argument the tile size is 32; a
    third argument that is <= 0 or above the order is replaced by the order;
    in both cases the parameters are accepted and the run goes on. The
    warning is printed exactly when a tile size was supplied and the value
    in effect after the replacement is above 32. *)
Theorem C8_tile_size_resolution (env : prk) (argv : list string) :
  3 <= Z.of_nat (length argv) ->
  1 <= atoi (argv !!! 1%nat) ->
  0 < atoi (argv !!! 2%nat) <= get_max_matrix_size env ->
  let order := atoi (argv !!! 2%nat) in
  let supplied := atoi (argv !!! 3%nat) in
  let given := 3 <? Z.of_nat (length argv) in
  let effective :=
    if given
    then (if (supplied <=? 0) || (order <? supplied) then order else supplied)
    else 32 in
  read_input false env argv =
  (if given && (32 <? effective) then [tile_warning] else [],
   inr (Input (atoi (argv !!! 1%nat)) order effective)).
Proof. apply read_input_elementwise. Qed.

Lemma C8_witness :
  let argv := ["transpose"; "10"; "1024"; "1124"] in
  let env := Prk "" 46340 (fun _ => of_Z 0) in
  let order := atoi (argv !!! 2%nat) in
  let supplied := atoi (argv !!! 3%nat) in
  let given := 3 <? Z.of_nat (length argv) in
  let effective :=
    if given
    then (if (supplied <=? 0) || (order <? supplied) then order else supplied)
    else 32 in
  read_input false env argv =
  (if given && (32 <? effective) then [tile_warning] else [],
   inr (Input (atoi (argv !!! 1%nat)) order effective)).
Proof.
  apply (C8_tile_size_resolution (Prk "" 46340 (fun _ => of_Z 0))
           ["transpose"; "10"; "1024"; "1124"]); vm_compute; intuition discriminate.
Defined.

(** C8 as stated fails: a supplied tile size above 32 is not always
    answered with the warning. With order 16 the supplied 116 (order + 100)
    becomes 16 before the test against 32, and nothing is printed. *)
Lemma C8_counterexample :
  32 < atoi "116" /\
  read_input false (Prk "" 46340 (fun _ => of_Z 0)) ["transpose"; "1"; "16"; "116"] =
  ([], inr (Input 1 16 16)).
Proof. split; reflexivity. Qed.

(** C10 (as amended): an argument without a number reads as 0. In the
    place of the iteration count it ends the program with the message about
    iterations and exit code 1; in the place of the order, with the message
    about the order and exit code 1; in the place of the tile size it is
    replaced by the order without any error, and the tile-size warning is
    printed exactly when that order is above 32. *)
Theorem C10_non_numeric_arguments (TILED VERBOSE : bool) (env : prk) (fuel : nat)
    (argv : list string) :
  3 <= Z.of_nat (length argv) ->
  (numeric (argv !!! 1%nat) = false ->
     main TILED VERBOSE env fuel argv =
     Ok (Outcome (banner env ++ [Cout [Str "ERROR: iterations must be >= 1"; Endl]]) 1)) /\
  (1 <= atoi (argv !!! 1%nat) -> numeric (argv !!! 2%nat) = false ->
     main TILED VERBOSE env fuel argv =
     Ok (Outcome (banner env
                    ++ [Cout [Str "ERROR: Matrix Order must be greater than 0"; Endl]]) 1)) /\
  (1 <= atoi (argv !!! 1%nat) -> 0 < atoi (argv !!! 2%nat) <= get_max_matrix_size env ->
   3 < Z.of_nat (length argv) -> numeric (argv !!! 3%nat) = false ->
     read_input false env argv =
     (if 32 <? atoi (argv !!! 2%nat) then [tile_warning] else [],
      inr (Input (atoi (argv !!! 1%nat)) (atoi (argv !!! 2%nat)) (atoi (argv !!! 2%nat))))).
Proof.
  intros Hlen. split; [|split].
  - intros Hn%atoi_not_numeric. unfold main, read_input. rewrite Hn.
    replace (Z.of_nat (length argv) <? 3) with false by settle_test.
    reflexivity.
  - intros Hit Hn%atoi_not_numeric. unfold main, read_input. rewrite Hn.
    replace (Z.of_nat (length argv) <? 3) with false by settle_test.
    replace (atoi (argv !!! 1%nat) <? 1) with false by settle_test.
    reflexivity.
  - intros Hit Ho Hgiven Hn%atoi_not_numeric.
    rewrite (read_input_elementwise env argv) by lia. rewrite Hn.
    replace (3 <? Z.of_nat (length argv)) with true by settle_test.
    cbn [Z.leb Z.compare orb andb]. reflexivity.
Qed.

Lemma C10_witness :
  main false false (Prk "" 46340 (fun _ => of_Z 0)) 0 ["transpose"; "abc"; "4"] =
  Ok (Outcome (banner (Prk "" 46340 (fun _ => of_Z 0))
                 ++ [Cout [Str "ERROR: iterations must be >= 1"; Endl]]) 1).
Proof.
  apply (C10_non_numeric_arguments false false (Prk "" 46340 (fun _ => of_Z 0)) 0
           ["transpose"; "abc"; "4"]); [cbn; lia|reflexivity].
Defined.

(** C10 as stated fails in its last part: a tile size without a number is
    not always replaced silently. With order 64 the replacement value 64 is
    above 32 and the warning is printed. *)
Lemma C10_counterexample :
  numeric "abc" = false /\
  read_input false (Prk "" 46340 (fun _ => of_Z 0)) ["transpose"; "1"; "64"; "abc"] =
  ([tile_warning], inr (Input 1 64 64)).
Proof. split; reflexivity. Qed.

(** ** The verdict *)

Lemma loop_events_kind TILED inp n : forall iter e,
  e ∈ loop_events TILED inp n iter ->
  e = Sync \/ e = Wtime \/ e = Launch (dimGrid TILED inp) (dimBlock TILED inp).
Proof.
  induction n as [|n IH]; intros iter e He; cbn [loop_events] in He.
  { now apply elem_of_nil in He. }
  rewrite !elem_of_app in He. destruct He as [He|[He|He]].
  - destruct (iter =? 1); [|now apply elem_of_nil in He].
    rewrite !elem_of_cons, elem_of_nil in He. tauto.
  - rewrite !elem_of_cons, elem_of_nil in He. tauto.
  - now apply (IH (iter + 1)).
Qed.

Lemma read_input_warnings TILED env argv warn res :
  read_input TILED env argv = (warn, res) ->
  forall e, e ∈ warn -> e = tile_warning \/ exists o, e = order_warning o.
Proof.
  unfold read_input, read_tile_size.
  destruct (Z.of_nat (length argv) <? 3);
    [intros [= <- _] e He; now apply elem_of_nil in He|].
  destruct (atoi (argv !!! 1%nat) <? 1);
    [intros [= <- _] e He; now apply elem_of_nil in He|].
  destruct (atoi (argv !!! 2%nat) <=? 0);
    [intros [= <- _] e He; now apply elem_of_nil in He|].
  destruct (get_max_matrix_size env <? atoi (argv !!! 2%nat));
    [intros [= <- _] e He; now apply elem_of_nil in He|].
  destruct TILED.
  - destruct (negb (Z.rem (atoi (argv !!! 2%nat)) tile_dim =? 0)); intros [= <- _] e He;
      [apply list_elem_of_singleton in He; eauto|now apply elem_of_nil in He].
  - destruct (3 <? Z.of_nat (length argv));
      [|intros [= <- _] e He; now apply elem_of_nil in He].
    match goal with |- context [if 32 <? ?t then _ else _] => destruct (32 <? t) end;
      intros [= <- _] e He;
      [apply list_elem_of_singleton in He; eauto|now apply elem_of_nil in He].
Qed.

(** No line printed before the verdict announces success. *)
Lemma no_success_before_verdict TILED VERBOSE env argv warn inp err :
  read_input TILED env argv = (warn, inr inp) ->
  success_line ∉ banner env ++ warn ++ echo TILED inp
                 ++ benchmark_events TILED VERBOSE inp err.
Proof.
  intros Hread. rewrite !elem_of_app. intros [H|[H|[H|H]]].
  - unfold banner in H. rewrite !elem_of_cons, elem_of_nil in H.
    destruct H as [H|[H|[H|[]]]]; discriminate.
  - destruct (read_input_warnings _ _ _ _ _ Hread _ H) as [E|[o E]]; discriminate.
  - unfold echo in H. rewrite !elem_of_cons, elem_of_nil in H.
    destruct H as [H|[H|[H|[]]]]; discriminate.
  - unfold benchmark_events in H. rewrite !elem_of_app in H.
    destruct H as [H|[H|[[H|[H|H]]|[H|H]]]].
    + rewrite !elem_of_cons, elem_of_nil in H. intuition discriminate.
    + destruct (loop_events_kind _ _ _ _ _ H) as [E|[E|E]]; discriminate.
    + rewrite !elem_of_cons, elem_of_nil in H. intuition discriminate.
    + destruct VERBOSE; rewrite ?elem_of_cons, elem_of_nil in H; intuition discriminate.
    + rewrite !elem_of_cons, elem_of_nil in H. intuition discriminate.
    + destruct VERBOSE; rewrite ?elem_of_cons, elem_of_nil in H; intuition discriminate.
    + rewrite !elem_of_cons, elem_of_nil in H. intuition discriminate.
Qed.

(** X17: in the build the source configures ([VERBOSE] is not defined),
    with either kernel, for arguments that pass the input check and an
    iteration count below [INT_MAX] the program ends; its exit code is 0
    if and only if the aggregate error is below 1.0e-8. In that
    case it prints "Solution validates" and then the rate and the average
    time; otherwise the exit code is 1, the last line printed carries the
    aggregate error and the threshold, and "Solution validates" is not
    printed anywhere. *)
Theorem X17_verdict (TILED : bool) (env : prk) (argv : list string)
    (warn : list event) (inp : input) :
  read_input TILED env argv = (warn, inr inp) ->
  get_max_matrix_size env * get_max_matrix_size env <= INT_MAX ->
  iterations inp < INT_MAX ->
  exists fuel r out,
    benchmark TILED false env fuel inp = Ok r /\
    main TILED false env fuel argv = Ok out /\
    (exit_code out = 0 <-> dltb (abserr r) epsilon = true) /\
    (dltb (abserr r) epsilon = true ->
       exit_code out = 0 /\
       exists before,
         trace out = before ++ [Cout [Str "Solution validates"; Endl];
           Cout [Str "Rate (MB/s): ";
                 Dbl (rate (order inp) (avgtime (elapsed r) (iterations inp)));
                 Str " Avg time (s): "; Dbl (avgtime (elapsed r) (iterations inp)); Endl]]) /\
    (dltb (abserr r) epsilon = false ->
       exit_code out = 1 /\
       last (trace out) =
         Some (Cout [Str "ERROR: Aggregate squared error "; Dbl (abserr r);
                     Str " exceeds threshold "; Dbl epsilon; Endl]) /\
       Cout [Str "Solution validates"; Endl] ∉ trace out).
Proof.
  intros Hread Hceil Hmax.
  destruct (read_input_accepts _ _ _ _ _ Hread) as (_ & _ & Hit & _ & Ho & _ & _).
  assert (order inp * order inp <= INT_MAX) as Hsq by nia.
  exists (S (Z.to_nat (iterations inp + 1))).
  destruct (benchmark_spec TILED false env (S (Z.to_nat (iterations inp + 1))) inp)
    as (d & err & _ & HAd & HBd & _ & Eb); try lia.
  eexists. unfold main. rewrite Hread, Eb. cbn [mbind result_bind].
  unfold verdict. cbn [abserr elapsed host run_events].
  destruct (dltb err epsilon) eqn:Hlt.
  - eexists. split; [reflexivity|]. split; [reflexivity|].
    cbn [exit_code trace abserr elapsed]. rewrite Hlt.
    split; [easy|]. split; [|intros ?; discriminate]. intros _. split; [reflexivity|].
    unfold success_report. eexists. rewrite !app_assoc. reflexivity.
  - cbn [mbind result_bind]. eexists. split; [reflexivity|]. split; [reflexivity|].
    cbn [exit_code trace abserr elapsed]. rewrite Hlt.
    split; [easy|]. split; [intros ?; discriminate|]. intros _.
    split; [reflexivity|]. split.
    + rewrite !app_assoc. apply last_snoc.
    + fold success_line. fold (failure_report err).
      match goal with
      | |- _ ∉ ?t =>
          replace t with ((banner env ++ warn ++ echo TILED inp
                             ++ benchmark_events TILED false inp err)
                            ++ [failure_report err])
            by (now rewrite <- !app_assoc)
      end.
      rewrite elem_of_app.
      intros [H|H]; [now apply (no_success_before_verdict _ _ _ _ _ _ err Hread) in H|].
      rewrite list_elem_of_singleton in H. discriminate.
Qed.

Lemma X17_verdict_witness :
  exists fuel r out,
    benchmark false false (Prk "" 46340 (fun _ => of_Z 0)) fuel (Input 1 4 32) = Ok r /\
    main false false (Prk "" 46340 (fun _ => of_Z 0)) fuel ["transpose"; "1"; "4"] = Ok out /\
    (exit_code out = 0 <-> dltb (abserr r) epsilon = true) /\
    (dltb (abserr r) epsilon = true ->
       exit_code out = 0 /\
       exists before,
         trace out = before ++ [Cout [Str "Solution validates"; Endl];
           Cout [Str "Rate (MB/s): ";
                 Dbl (rate (order (Input 1 4 32))
                        (avgtime (elapsed r) (iterations (Input 1 4 32))));
                 Str " Avg time (s): ";
                 Dbl (avgtime (elapsed r) (iterations (Input 1 4 32))); Endl]]) /\
    (dltb (abserr r) epsilon = false ->
       exit_code out = 1 /\
       last (trace out) =
         Some (Cout [Str "ERROR: Aggregate squared error "; Dbl (abserr r);
                     Str " exceeds threshold "; Dbl epsilon; Endl]) /\
       Cout [Str "Solution validates"; Endl] ∉ trace out).
Proof.
  apply (X17_verdict false (Prk "" 46340 (fun _ => of_Z 0)) ["transpose"; "1"; "4"]
           [] (Input 1 4 32)); [reflexivity|vm_compute; discriminate|vm_compute; reflexivity].
Defined.

(** With [VERBOSE] defined the verdict of a run that validates is the same.
    A run whose validation fails goes on to the dump, which reads [h_a]
    after [free_host] has released it: the program faults there, before the
    line with the aggregate error. *)
Lemma verbose_verdict (TILED : bool) (env : prk) (argv : list string)
    (warn : list event) (inp : input) :
  read_input TILED env argv = (warn, inr inp) ->
  get_max_matrix_size env * get_max_matrix_size env <= INT_MAX ->
  iterations inp < INT_MAX ->
  exists fuel r,
    benchmark TILED true env fuel inp = Ok r /\
    (dltb (abserr r) epsilon = true ->
       exists out, main TILED true env fuel argv = Ok out /\ exit_code out = 0) /\
    (dltb (abserr r) epsilon = false ->
       main TILED true env fuel argv = Fault UseAfterFree).
Proof.
  intros Hread Hceil Hmax.
  destruct (read_input_accepts _ _ _ _ _ Hread) as (_ & _ & Hit & _ & Ho & _ & _).
  assert (order inp * order inp <= INT_MAX) as Hsq by nia.
  assert (order inp <= INT_MAX) as Hle by (unfold INT_MAX in *; nia).
  exists (S (Z.to_nat (iterations inp + 1))).
  destruct (benchmark_spec TILED true env (S (Z.to_nat (iterations inp + 1))) inp)
    as (d & err & _ & _ & _ & _ & Eb); try lia.
  eexists. split; [exact Eb|]. unfold main. rewrite Hread, Eb.
  cbn [mbind result_bind]. unfold verdict. cbn [abserr h_a h_b].
  split; intros ->; cbn [mbind result_bind].
  - eexists. split; reflexivity.
  - rewrite dump_dangling by lia. reflexivity.
Qed.

(** The run of 134217730 iterations on a matrix of order 1, with or
    without [VERBOSE]: the aggregate error is 2. *)
Lemma rounding_run VERBOSE env :
  exists r,
    benchmark false VERBOSE env (Z.to_nat 134217740) (Input 134217730 1 32) = Ok r /\
    abserr r = of_Z 2.
Proof.
  set (inp := Input 134217730 1 32).
  destruct (benchmark_spec false VERBOSE env (Z.to_nat 134217740) inp)
    as (d & err & Ed & _ & _ & Eerr & Eb);
    cbn [input_order input_iterations inp]; unfold INT_MAX; try lia.
  cbn [input_order input_iterations inp] in Ed, Eerr.
  replace (Z.to_nat (134217730 + 1)) with (Z.to_nat 134217727 + 4)%nat in Ed by lia.
  assert (launches false inp (Z.to_nat 134217727) (initial 1) = Ok (after 1 134217727))
    as Hexact.
  { rewrite <- after_0 by lia.
    pose proof (launches_exact inp (Z.to_nat 134217727) 0) as H.
    cbn [input_order input_tile_size inp] in H. rewrite Z.add_0_l, Z2Nat.id in H by lia.
    apply H; unfold INT_MAX; try lia. reflexivity. }
  rewrite launches_app, Hexact in Ed. cbn [mbind result_bind] in Ed.
  vm_compute in Ed. injection Ed as <-.
  vm_compute in Eerr. injection Eerr as <-.
  eexists. split; [exact Eb|reflexivity].
Qed.

(** C7: the statement of the verdict holds on every run that reaches it
    (X17), and two runs on accepted arguments do not reach it. With
    [iterations = INT_MAX], which the input check accepts, the loop
    counter overflows and [main] returns no exit code. With [VERBOSE]
    defined, the run of 134217730 iterations on order 1 fails its
    validation and goes on to the dump, which reads [h_a] after
    [free_host]: the line with the aggregate error and the threshold is
    not printed and no exit code 1 is returned. *)
Theorem C7_verdict_not_reached :
  let env := Prk "" 46340 (fun _ => of_Z 0) in
  (read_input false env ["transpose"; "2147483647"; "1"] =
     ([], inr (Input 2147483647 1 32)) /\
   (forall fuel out, main false false env fuel ["transpose"; "2147483647"; "1"] <> Ok out) /\
   (forall fuel, INT_MAX + 1 < Z.of_nat fuel ->
      main false false env fuel ["transpose"; "2147483647"; "1"] = Fault SignedOverflow)) /\
  (read_input false env ["transpose"; "134217730"; "1"] =
     ([], inr (Input 134217730 1 32)) /\
   exists r,
     benchmark false true env (Z.to_nat 134217740) (Input 134217730 1 32) = Ok r /\
     dltb (abserr r) epsilon = false /\
     main false true env (Z.to_nat 134217740) ["transpose"; "134217730"; "1"] =
       Fault UseAfterFree).
Proof.
  intros env. split.
  - assert (read_input false env ["transpose"; "2147483647"; "1"] =
              ([], inr (Input 2147483647 1 32))) as Hread by reflexivity.
    destruct (benchmark_counter_overflow false false env (Input 2147483647 1 32))
      as [Hnever Hfault]; [reflexivity|cbn; lia|cbn; unfold INT_MAX; lia|].
    split; [exact Hread|]. split.
    + intros fuel out. unfold main. rewrite Hread.
      destruct (benchmark false false env fuel (Input 2147483647 1 32)) as [r|f] eqn:E;
        [now apply Hnever in E|discriminate].
    + intros fuel Hfuel. unfold main. rewrite Hread, (Hfault fuel Hfuel). reflexivity.
  - assert (read_input false env ["transpose"; "134217730"; "1"] =
              ([], inr (Input 134217730 1 32))) as Hread by reflexivity.
    split; [exact Hread|].
    destruct (rounding_run true env) as (r & Eb & Eerr).
    destruct (benchmark_releases _ _ _ _ _ _ Eb) as [Ha _].
    exists r. split; [exact Eb|]. rewrite Eerr. split; [reflexivity|].
    unfold main. rewrite Hread, Eb. cbn [mbind result_bind].
    unfold verdict. rewrite Eerr, Ha.
    change (dltb (of_Z 2) epsilon) with false. cbv iota.
    rewrite dump_dangling by (cbn; unfold INT_MAX; lia). reflexivity.
Qed.

(** ** The timing harness *)

(** X16: for an iteration count below [INT_MAX] the loop makes
    iterations + 1 turns, each a launch followed by a synchronisation. The
    first turn is not timed: the clock is first read after it, at the
    start of turn 1 and before the launch of that turn; it is read a
    second time right after the last synchronisation. The time reported as
    average is the difference of the two readings divided by iterations. *)
Theorem X16_timing_harness (TILED VERBOSE : bool) (env : prk)
    (iterations order tile_size : Z) :
  1 <= order -> order * order <= INT_MAX -> 1 <= iterations < INT_MAX ->
  let inp := Input iterations order tile_size in
  let turn := [Launch (dimGrid TILED inp) (dimBlock TILED inp); Sync] in
  exists fuel r setup teardown,
    benchmark TILED VERBOSE env fuel inp = Ok r /\
    run_events r =
      setup ++ turn ++ [Sync; Wtime] ++ concat (replicate (Z.to_nat iterations) turn)
        ++ [Wtime] ++ teardown /\
    Forall (fun e => e <> Wtime /\ e <> Sync /\ forall g b, e <> Launch g b)
      (setup ++ teardown) /\
    elapsed r = dsub (wtime env 1%nat) (wtime env 0%nat) /\
    avgtime (elapsed r) iterations = ddiv (elapsed r) (of_Z iterations) /\
    (dltb (abserr r) epsilon = true ->
     verdict VERBOSE inp r =
     Ok (Outcome
           [Cout [Str "Solution validates"; Endl];
            Cout [Str "Rate (MB/s): "; Dbl (rate order (ddiv (elapsed r) (of_Z iterations)));
                  Str " Avg time (s): "; Dbl (ddiv (elapsed r) (of_Z iterations)); Endl]] 0)).
Proof.
  intros Ho Hsq Hit inp turn.
  exists (S (Z.to_nat (iterations + 1))).
  destruct (benchmark_spec TILED VERBOSE env (S (Z.to_nat (iterations + 1))) inp)
    as (d & err & _ & _ & _ & _ & Eb); cbn [input_order input_iterations inp]; try lia.
  cbn [input_order input_iterations inp] in Eb.
  exists (Measurement (benchmark_events TILED VERBOSE inp err)
            (dsub (wtime env 1%nat) (wtime env 0%nat)) err
            (Mem (if VERBOSE then bufA d else bufA (initial order)) (bufB d))
            Dangling Dangling).
  exists [CheckDims (dimBlock TILED inp) (dimGrid TILED inp);
          MallocHost (order * order); MallocHost (order * order);
          MallocDevice (order * order); MallocDevice (order * order);
          CopyH2D (order * order); CopyH2D (order * order)].
  exists ([CopyD2H (order * order)]
            ++ (if VERBOSE then [CopyD2H (order * order)] else [])
            ++ [FreeDevice; FreeDevice]
            ++ (if VERBOSE
                then [Cout [Str "Sum of absolute differences: "; Dbl err; Endl]] else [])
            ++ [FreeHost; FreeHost]).
  split; [exact Eb|]. cbn [run_events elapsed abserr].
  split; [|split; [|split; [reflexivity|split; [reflexivity|]]]].
  - unfold benchmark_events. cbn [input_order input_iterations inp].
    replace (Z.to_nat (iterations + 1)) with (S (S (Z.to_nat (iterations - 1)))) by lia.
    cbn [loop_events]. change (0 =? 1) with false. change (0 + 1 =? 1) with true.
    rewrite loop_events_steady by lia.
    replace (Z.to_nat iterations) with (S (Z.to_nat (iterations - 1))) by lia.
    cbn [replicate concat]. fold turn.
    rewrite <- !app_assoc. reflexivity.
  - rewrite Forall_app. split.
    + repeat constructor; try discriminate.
    + destruct VERBOSE; repeat constructor; try discriminate.
  - intros Hlt. unfold verdict. cbn [abserr elapsed]. rewrite Hlt. reflexivity.
Qed.

Lemma X16_timing_harness_witness :
  let inp := Input 3 4 32 in
  let env := Prk "" 46340 (fun n => of_Z (Z.of_nat n)) in
  let turn := [Launch (dimGrid false inp) (dimBlock false inp); Sync] in
  exists fuel r setup teardown,
    benchmark false false env fuel inp = Ok r /\
    run_events r =
      setup ++ turn ++ [Sync; Wtime] ++ concat (replicate (Z.to_nat 3) turn)
        ++ [Wtime] ++ teardown /\
    Forall (fun e => e <> Wtime /\ e <> Sync /\ forall g b, e <> Launch g b)
      (setup ++ teardown) /\
    elapsed r = dsub (wtime env 1%nat) (wtime env 0%nat) /\
    avgtime (elapsed r) 3 = ddiv (elapsed r) (of_Z 3) /\
    (dltb (abserr r) epsilon = true ->
     verdict false inp r =
     Ok (Outcome
           [Cout [Str "Solution validates"; Endl];
            Cout [Str "Rate (MB/s): "; Dbl (rate 4 (ddiv (elapsed r) (of_Z 3)));
                  Str " Avg time (s): "; Dbl (ddiv (elapsed r) (of_Z 3)); Endl]] 0)).
Proof.
  apply (X16_timing_harness false false (Prk "" 46340 (fun n => of_Z (Z.of_nat n))) 3 4 32);
    unfold INT_MAX; lia.
Defined.

(** C2: the harness is as the claim says for every iteration count below
    [INT_MAX] (X16), and not for [INT_MAX] itself, which the input check
    accepts: the test [iter <= iterations] of the loop then never fails and
    [iter++] overflows after the turn with [iter = INT_MAX]. The loop has
    no end, the clock is not read a second time, and the run gives no
    elapsed time and no average. *)
Theorem C2_timer_never_stopped :
  let env := Prk "" 46340 (fun n => of_Z (Z.of_nat n)) in
  let inp := Input 2147483647 1 32 in
  read_input false env ["transpose"; "2147483647"; "1"] = ([], inr inp) /\
  (forall fuel iter st st',
     iter <= INT_MAX -> launch_loop false env inp fuel iter st <> Ok st') /\
  (forall fuel r, benchmark false false env fuel inp <> Ok r) /\
  (forall fuel, INT_MAX + 1 < Z.of_nat fuel ->
     benchmark false false env fuel inp = Fault SignedOverflow).
Proof.
  intros env inp. split; [reflexivity|]. split.
  - intros fuel iter st st' Hiter. now apply launch_loop_overflow.
  - apply benchmark_counter_overflow; [reflexivity|cbn; lia|cbn; unfold INT_MAX; lia].
Qed.

(** ** The tiled build with an order that is not a multiple of 32 *)

(** X18: in the tiled build, for arguments that pass the input check
    with an iteration count below [INT_MAX] and an order that is not a
    multiple of 32, the input check prints its warning and hands out the
    parameters; the program runs to its end without a fault ([VERBOSE] not
    defined, as the source has it); a launch on buffers of exactly order^2
    elements ends without a fault; and every index a thread of the grid
    forms, with the row length width = (order/32)*32, is below order^2. *)
Theorem X18_tiled_indivisible_order (env : prk) (argv : list string) :
  3 <= Z.of_nat (length argv) ->
  1 <= atoi (argv !!! 1%nat) < INT_MAX ->
  0 < atoi (argv !!! 2%nat) <= get_max_matrix_size env ->
  get_max_matrix_size env * get_max_matrix_size env <= INT_MAX ->
  Z.rem (atoi (argv !!! 2%nat)) 32 <> 0 ->
  let order := atoi (argv !!! 2%nat) in
  let inp := Input (atoi (argv !!! 1%nat)) order tile_dim in
  let width := u32 (dim_x (dimGrid true inp) * tile_dim) in
  read_input true env argv = ([order_warning order], inr inp) /\
  (exists fuel out,
     main true false env fuel argv = Ok out /\ order_warning order ∈ trace out) /\
  (forall m,
     Z.of_nat (length (bufA m)) = order * order ->
     Z.of_nat (length (bufB m)) = order * order ->
     exists m',
       launch transpose_tiled (dimGrid true inp) (dimBlock true inp) order m = Ok m' /\
       length (bufA m') = length (bufA m) /\ length (bufB m') = length (bufB m)) /\
  width = order / 32 * 32 /\
  (forall t c,
     t ∈ threads (dimGrid true inp) (dimBlock true inp) -> c ∈ tiled_cells t ->
     0 <= a_index width c.1 c.2 < order * order /\
     0 <= b_index width c.1 c.2 < order * order).
Proof.
  intros Hlen Hit Ho Hceil Hrem order inp width.
  assert (order * order <= INT_MAX) as Hsq by (unfold order; nia).
  assert (1 <= order <= INT_MAX) as Ho' by (unfold order, INT_MAX in *; nia).
  assert (read_input true env argv = ([order_warning order], inr inp)) as Hread.
  { unfold read_input. fold order.
    replace (Z.of_nat (length argv) <? 3) with false by settle_test.
    replace (atoi (argv !!! 1%nat) <? 1) with false by settle_test.
    replace (order <=? 0) with false by settle_test.
    replace (get_max_matrix_size env <? order) with false by (unfold order; settle_test).
    replace (Z.rem order tile_dim =? 0) with false
      by (symmetry; apply Z.eqb_neq; exact Hrem).
    reflexivity. }
  destruct (tiled_geometry inp) as (Hg & Hb & Hq & Hle); [exact Ho'|].
  cbn [input_order inp] in Hq, Hle.
  assert (width = order / 32 * 32) as Hwidth.
  { unfold width. rewrite Hg. cbn [dim_x]. unfold tile_dim. apply u32_small.
    unfold INT_MAX in *. lia. }
  split; [exact Hread|]. split; [|split; [|split; [exact Hwidth|]]].
  - exists (S (Z.to_nat (atoi (argv !!! 1%nat) + 1))).
    destruct (benchmark_spec true false env
                (S (Z.to_nat (atoi (argv !!! 1%nat) + 1))) inp)
      as (d & err & _ & _ & _ & _ & Eb); cbn [input_order input_iterations inp];
      try lia.
    destruct (dltb err epsilon) eqn:Hlt; eexists; unfold main;
      rewrite Hread, Eb; cbn [mbind result_bind]; unfold verdict; cbn [abserr];
      rewrite Hlt; cbn [mbind result_bind]; (split; [reflexivity|]); cbn [trace];
      rewrite !elem_of_app; right; left; now left.
  - intros m HA HB. rewrite Hg, Hb.
    destruct (run_threads_tiled_safe order (order / 32) (Dim3 32 8 1)
                (threads (Dim3 (order / 32) (order / 32) 1) (Dim3 32 8 1)) m)
      as (m' & E & _ & HA' & HB' & _).
    + unfold INT_MAX in *. lia.
    + apply tiled_threads_Forall.
    + apply (holds_le order); [lia|unfold holds; lia].
    + exists m'. easy.
  - intros t c Ht Hc. rewrite Hg, Hb in Ht. rewrite Hwidth.
    destruct (tiled_cells_range (order / 32) t c) as (j & _ & _ & Hx & Hy);
      [unfold INT_MAX in *; lia|now apply tiled_thread_threads|exact Hc|].
    pose proof (cell_index_range (order / 32 * 32) c.1 c.2 Hx Hy) as Ha.
    pose proof (cell_index_range (order / 32 * 32) c.2 c.1 Hy Hx) as Hb'.
    pose proof (u32_le (c.2 * (order / 32 * 32) + c.1) ltac:(lia)) as Hua.
    pose proof (u32_le (c.1 * (order / 32 * 32) + c.2) ltac:(lia)) as Hub.
    pose proof (u32_range (c.2 * (order / 32 * 32) + c.1)) as Hra.
    pose proof (u32_range (c.1 * (order / 32 * 32) + c.2)) as Hrb.
    assert (order / 32 * 32 * (order / 32 * 32) <= order * order)
      by (apply Z.mul_le_mono_nonneg; lia).
    unfold a_index, b_index. lia.
Qed.

Lemma X18_tiled_indivisible_order_witness :
  let env := Prk "" 46340 (fun _ => of_Z 0) in
  let argv := ["transpose"; "1"; "33"] in
  let inp := Input 1 33 tile_dim in
  let width := u32 (dim_x (dimGrid true inp) * tile_dim) in
  read_input true env argv = ([order_warning 33], inr inp) /\
  (exists fuel out,
     main true false env fuel argv = Ok out /\ order_warning 33 ∈ trace out) /\
  (forall m,
     Z.of_nat (length (bufA m)) = 33 * 33 ->
     Z.of_nat (length (bufB m)) = 33 * 33 ->
     exists m',
       launch transpose_tiled (dimGrid true inp) (dimBlock true inp) 33 m = Ok m' /\
       length (bufA m') = length (bufA m) /\ length (bufB m') = length (bufB m)) /\
  width = 33 / 32 * 32 /\
  (forall t c,
     t ∈ threads (dimGrid true inp) (dimBlock true inp) -> c ∈ tiled_cells t ->
     0 <= a_index width c.1 c.2 < 33 * 33 /\
     0 <= b_index width c.1 c.2 < 33 * 33).
Proof.
  apply (X18_tiled_indivisible_order (Prk "" 46340 (fun _ => of_Z 0))
           ["transpose"; "1"; "33"]);
    vm_compute; repeat split; discriminate || reflexivity.
Defined.

(** With order 33 the tiled build covers a 32 x 32 corner only: the run
    ends, and the validation fails. *)
Example tiled_order_33 :
  exists out,
    main true false (Prk "" 46340 (fun _ => of_Z 0)) 4 ["transpose"; "1"; "33"] = Ok out /\
    exit_code out = 1.
Proof. eexists. split; [vm_compute; reflexivity|reflexivity]. Qed.

(** The same run with [VERBOSE] defined reaches the dump of the failed
    validation, which reads the released [h_a]. *)
Example tiled_order_33_verbose :
  main true true (Prk "" 46340 (fun _ => of_Z 0)) 4 ["transpose"; "1"; "33"] =
  Fault UseAfterFree.
Proof. vm_compute. reflexivity. Qed.

(** C9: the indices of the tiled kernel stay inside the buffers for every
    order (X11, X18), but two runs of the tiled build on an order that is
    not a multiple of 32 do not execute to completion. With
    [iterations = INT_MAX] and order 33, which the input check accepts
    with its warning, the loop counter overflows and [main] returns
    nothing. With [VERBOSE] defined, the run of one iteration on order 33
    fails its validation, as it does for every such order, and the dump
    then reads [h_a] after [free_host]. *)
Theorem C9_tiled_run_not_completed :
  let env := Prk "" 46340 (fun _ => of_Z 0) in
  (read_input true env ["transpose"; "2147483647"; "33"] =
     ([order_warning 33], inr (Input 2147483647 33 tile_dim)) /\
   (forall fuel out, main true false env fuel ["transpose"; "2147483647"; "33"] <> Ok out) /\
   (forall fuel, INT_MAX + 1 < Z.of_nat fuel ->
      main true false env fuel ["transpose"; "2147483647"; "33"] = Fault SignedOverflow)) /\
  (read_input true env ["transpose"; "1"; "33"] =
     ([order_warning 33], inr (Input 1 33 tile_dim)) /\
   main true true env 4 ["transpose"; "1"; "33"] = Fault UseAfterFree).
Proof.
  intros env. split.
  - assert (read_input true env ["transpose"; "2147483647"; "33"] =
              ([order_warning 33], inr (Input 2147483647 33 tile_dim))) as Hread
      by reflexivity.
    destruct (benchmark_counter_overflow true false env (Input 2147483647 33 tile_dim))
      as [Hnever Hfault]; [reflexivity|cbn; lia|cbn; unfold INT_MAX; lia|].
    split; [exact Hread|]. split.
    + intros fuel out. unfold main. rewrite Hread.
      destruct (benchmark true false env fuel (Input 2147483647 33 tile_dim))
        as [r|f] eqn:E; [now apply Hnever in E|discriminate].
    + intros fuel Hfuel. unfold main. rewrite Hread, (Hfault fuel Hfuel). reflexivity.
  - split; [reflexivity|exact tiled_order_33_verbose].
Qed.

(** * Further properties *)

(** ** Filling the host buffers, continued *)

(** X1: for an order whose square fits an [int], the two nested loops
    at the start of [main] end without a fault whatever the allocation
    held, keep the lengths of both buffers, and leave [order*j+i] in
    [h_a[j*order+i]] and 0 in [h_b[j*order+i]] for every [i] and [j] below
    [order]. *)
Theorem X1_fill_host (order : Z) (h : mem) :
  1 <= order -> order * order <= INT_MAX ->
  Z.of_nat (length (bufA h)) = order * order ->
  Z.of_nat (length (bufB h)) = order * order ->
  exists h',
    fill_host order h = Ok h' /\
    length (bufA h') = length (bufA h) /\
    length (bufB h') = length (bufB h) /\
    forall i j, 0 <= i < order -> 0 <= j < order ->
      bufA h' !!! Z.to_nat (j * order + i) = of_Z (order * j + i) /\
      bufB h' !!! Z.to_nat (j * order + i) = of_Z 0.
Proof.
  intros Ho Hsq HA HB. rewrite fill_host_ok by assumption.
  eexists. split; [reflexivity|]. fold (initial order).
  destruct (initial_length order ltac:(lia)) as [HA' HB'].
  split; [lia|]. split; [lia|].
  intros i j Hi Hj. pose proof (cell_index_range order i j Hi Hj) as Hji.
  unfold initial. cbn [bufA bufB]. split.
  - rewrite lookup_total_fmap_seqZ by lia. f_equal. ring.
  - apply lookup_total_replicate_2. lia.
Qed.

Lemma X1_fill_host_witness :
  exists h',
    fill_host 3 (Mem (malloc 9) (malloc 9)) = Ok h' /\
    length (bufA h') = length (bufA (Mem (malloc 9) (malloc 9))) /\
    length (bufB h') = length (bufB (Mem (malloc 9) (malloc 9))) /\
    forall i j, 0 <= i < 3 -> 0 <= j < 3 ->
      bufA h' !!! Z.to_nat (j * 3 + i) = of_Z (3 * j + i) /\
      bufB h' !!! Z.to_nat (j * 3 + i) = of_Z 0.
Proof.
  apply (X1_fill_host 3 (Mem (malloc 9) (malloc 9))); unfold INT_MAX; try lia; reflexivity.
Defined.

Lemma for_each_first_fault {S T} (Inv : S -> Prop) (body : T -> S -> result S) f l :
  forall s,
  (forall t s, t ∈ l -> Inv s ->
     (exists s', body t s = Ok s' /\ Inv s') \/ body t s = Fault f) ->
  (exists t, t ∈ l /\ forall s, Inv s -> body t s = Fault f) ->
  Inv s -> for_each body l s = Fault f.
Proof.
  induction l as [|t l IH]; intros s Hstep (bad & Hbad & Hfault) Hs.
  { now apply elem_of_nil in Hbad. }
  cbn [for_each].
  destruct (Hstep t s ltac:(left) Hs) as [(s' & E & Hs')|E]; rewrite E; [|reflexivity].
  cbn [mbind result_bind]. apply IH; [|exists bad; split; [|exact Hfault]|exact Hs'].
  - intros t' s'' Ht'. apply Hstep. now right.
  - apply elem_of_cons in Hbad as [->|Hbad]; [|exact Hbad].
    rewrite (Hfault s Hs) in E. discriminate.
Qed.

Lemma int_mul_overflow a b : INT_MAX < a * b -> int_mul a b = Fault SignedOverflow.
Proof.
  intros H. unfold int_mul.
  replace (a * b <=? INT_MAX) with false by settle_test. now rewrite andb_false_r.
Qed.

Lemma int_add_overflow a b : INT_MAX < a + b -> int_add a b = Fault SignedOverflow.
Proof.
  intros H. unfold int_add.
  replace (a + b <=? INT_MAX) with false by settle_test. now rewrite andb_false_r.
Qed.

(** X2: for an order above 46340 the index arithmetic of the filling
    loops, done in [int], leaves the range of [int] before the loops end:
    the ceiling on the order is what keeps [j*order+i] defined. *)
Theorem X2_fill_overflow (order : Z) (h : mem) :
  46340 < order <= INT_MAX ->
  Z.of_nat (length (bufA h)) = order * order ->
  Z.of_nat (length (bufB h)) = order * order ->
  fill_host order h = Fault SignedOverflow.
Proof.
  intros Ho HA HB. unfold fill_host. rewrite for_each_nested. fold (matrix_cells order).
  apply (for_each_first_fault
           (fun h => Z.of_nat (length (bufA h)) = order * order /\
                     Z.of_nat (length (bufB h)) = order * order)); [| |easy].
  - intros p s [Hj Hi]%elem_of_matrix_cells [HAs HBs].
    pose proof (cell_index_range order p.2 p.1 Hi Hj) as Hji.
    assert (0 <= p.1 * order) by nia.
    destruct (Z.le_gt_cases (p.1 * order + p.2) INT_MAX) as [Hfit|Hover].
    + left. rewrite (int_mul_ok p.1 order) by lia. cbn [mbind result_bind].
      rewrite (int_add_ok (p.1 * order) p.2) by lia. cbn [mbind result_bind].
      rewrite (int_mul_ok order p.1) by lia. cbn [mbind result_bind].
      rewrite (int_add_ok (order * p.1) p.2) by lia. cbn [mbind result_bind].
      unfold store. rewrite !in_bounds_true by lia. cbn [mbind result_bind].
      eexists. split; [reflexivity|]. cbn [bufA bufB]. rewrite !length_insert. easy.
    + right. destruct (Z.le_gt_cases (p.1 * order) INT_MAX) as [Hmul|Hmul].
      * rewrite (int_mul_ok p.1 order) by lia. cbn [mbind result_bind].
        rewrite (int_add_overflow (p.1 * order) p.2) by lia. reflexivity.
      * rewrite (int_mul_overflow p.1 order) by lia. reflexivity.
  - exists (order - 1, order - 1). split; [apply elem_of_matrix_cells; cbn; lia|].
    intros s _. cbn [fst snd].
    assert (INT_MAX < (order - 1) * order + (order - 1)) by (unfold INT_MAX in *; nia).
    assert (0 <= (order - 1) * order) by nia.
    destruct (Z.le_gt_cases ((order - 1) * order) INT_MAX) as [Hmul|Hmul].
    + rewrite (int_mul_ok (order - 1) order) by lia. cbn [mbind result_bind].
      rewrite (int_add_overflow ((order - 1) * order) (order - 1)) by lia. reflexivity.
    + rewrite (int_mul_overflow (order - 1) order) by lia. reflexivity.
Qed.

Lemma X2_fill_overflow_witness :
  fill_host 46341 (Mem (malloc 2147488281) (malloc 2147488281)) = Fault SignedOverflow.
Proof.
  apply (X2_fill_overflow 46341); unfold INT_MAX, malloc; cbn [bufA bufB];
    rewrite ?length_replicate; lia.
Defined.

(** ** The command line *)

Lemma read_input_more_arguments TILED env argv more :
  4 <= Z.of_nat (length argv) \/ TILED = true /\ 3 <= Z.of_nat (length argv) ->
  read_input TILED env (argv ++ more) = read_input TILED env argv.
Proof.
  intros H. unfold read_input, read_tile_size. rewrite length_app, Nat2Z.inj_add.
  rewrite !(lookup_total_app_l argv) by lia.
  replace (Z.of_nat (length argv) + Z.of_nat (length more) <? 3) with false by settle_test.
  replace (Z.of_nat (length argv) <? 3) with false by settle_test.
  destruct TILED; [reflexivity|].
  replace (3 <? Z.of_nat (length argv) + Z.of_nat (length more)) with true by settle_test.
  replace (3 <? Z.of_nat (length argv)) with true by settle_test.
  rewrite (lookup_total_app_l argv) by lia. reflexivity.
Qed.

(** X3: [main] reads at most [argv[1]], [argv[2]] and [argv[3]]. With four
    arguments or more (three or more in the tiled build, which never reads
    [argv[3]]) anything that follows on the command line changes nothing. *)
Theorem X3_more_arguments (TILED VERBOSE : bool) (env : prk) (fuel : nat)
    (argv more : list string) :
  4 <= Z.of_nat (length argv) \/ TILED = true /\ 3 <= Z.of_nat (length argv) ->
  main TILED VERBOSE env fuel (argv ++ more) = main TILED VERBOSE env fuel argv.
Proof. intros H. unfold main. now rewrite read_input_more_arguments. Qed.

Lemma X3_more_arguments_witness :
  main false false (Prk "" 46340 (fun _ => of_Z 0)) 3
    (["transpose"; "1"; "2"; "2"] ++ ["7"; "x"]) =
  main false false (Prk "" 46340 (fun _ => of_Z 0)) 3 ["transpose"; "1"; "2"; "2"].
Proof.
  apply (X3_more_arguments false false (Prk "" 46340 (fun _ => of_Z 0)) 3
           ["transpose"; "1"; "2"; "2"] ["7"; "x"]).
  left. cbn. lia.
Defined.

(** An input check that prints no warning has found an order the kernel of
    the build handles: a multiple of 32 for the tiled kernel, and a block
    edge of at most 32 for the element-wise one. *)
Lemma read_input_quiet TILED env argv inp :
  read_input TILED env argv = ([], inr inp) ->
  if TILED then order inp mod 32 = 0 /\ tile_size inp = tile_dim
  else 1 <= tile_size inp <= 32.
Proof.
  unfold read_input, read_tile_size.
  destruct (Z.ltb_spec (Z.of_nat (length argv)) 3); [easy|].
  destruct (Z.ltb_spec (atoi (argv !!! 1%nat)) 1); [easy|].
  destruct (Z.leb_spec (atoi (argv !!! 2%nat)) 0); [easy|].
  destruct (Z.ltb_spec (get_max_matrix_size env) (atoi (argv !!! 2%nat))); [easy|].
  destruct TILED.
  - destruct (Z.eqb_spec (Z.rem (atoi (argv !!! 2%nat)) tile_dim) 0) as [Hrem|Hrem];
      cbn [negb]; [|discriminate].
    intros [= <-]. cbn [order tile_size]. split; [|reflexivity].
    rewrite <- Z.rem_mod_nonneg by (unfold tile_dim; lia). exact Hrem.
  - destruct (Z.ltb_spec 3 (Z.of_nat (length argv))).
    + destruct (Z.leb_spec (atoi (argv !!! 3%nat)) 0);
        [|destruct (Z.ltb_spec (atoi (argv !!! 2%nat)) (atoi (argv !!! 3%nat)))];
        rewrite ?Z.ltb_irrefl;
        match goal with
        | |- context [32 <? ?t] => destruct (Z.ltb_spec 32 t); [discriminate|]
        end;
        intros [= <-]; cbn [tile_size]; lia.
    + intros [= <-]. cbn [tile_size]. lia.
Qed.

(** ** Runs that validate *)

Lemma iterations_below_INT_MAX n order :
  1 <= n -> 1 <= order ->
  (n + 1) * (order * order) + triangle (n + 1) < 2 ^ 53 -> n < INT_MAX.
Proof.
  intros Hn Ho Hb. pose proof (triangle_double (n + 1)) as Hd. unfold INT_MAX.
  destruct (Z.lt_ge_cases n 2147483647) as [Hlt|Hge]; [exact Hlt|].
  assert (2147483647 * 2147483647 <= (n + 1) * (n + 1 - 1)) by nia.
  assert (0 <= (n + 1) * (order * order)) by nia.
  lia.
Qed.

(** X4: [h_a] is copied back from the device only when [VERBOSE] is
    defined. For a tile size from 1 to 32: without [VERBOSE] the host copy
    of A still holds what the filling
    loops wrote, [order*j+i]; with it every element has grown by the
    number of launches, [iterations + 1] (for numbers that stay below
    2^53). *)
Theorem X4_read_back (env : prk) (iterations order tile_size : Z) :
  1 <= order -> order * order <= INT_MAX -> 1 <= tile_size <= 32 ->
  1 <= iterations ->
  (iterations + 1) * (order * order) + iterations * (iterations + 1) / 2 < 2 ^ 53 ->
  let inp := Input iterations order tile_size in
  exists fuel quiet verbose,
    benchmark false false env fuel inp = Ok quiet /\
    benchmark false true env fuel inp = Ok verbose /\
    forall i j, 0 <= i < order -> 0 <= j < order ->
      bufA (host quiet) !!! Z.to_nat (j * order + i) = of_Z (order * j + i) /\
      bufA (host verbose) !!! Z.to_nat (j * order + i) =
        of_Z (order * j + i + (iterations + 1)).
Proof.
  intros Ho Hsq Hts Hit Hb inp.
  assert (triangle (iterations + 1) = iterations * (iterations + 1) / 2) as Htri.
  { unfold triangle. f_equal. ring. }
  rewrite <- Htri in Hb.
  pose proof (triangle_nonneg (iterations + 1) ltac:(lia)) as Ht.
  pose proof (iterations_below_INT_MAX iterations order Hit Ho Hb) as Hmax.
  exists (S (Z.to_nat (iterations + 1))).
  destruct (benchmark_spec false false env (S (Z.to_nat (iterations + 1))) inp)
    as (d & err & Ed & _ & _ & _ & Eq); cbn [input_order input_iterations inp];
    try lia.
  destruct (benchmark_spec false true env (S (Z.to_nat (iterations + 1))) inp)
    as (d' & err' & Ed' & _ & _ & _ & Ev); cbn [input_order input_iterations inp];
    try lia.
  cbn [input_order input_iterations inp] in *.
  rewrite <- after_0 in Ed' by lia.
  rewrite (launches_exact inp) in Ed'; cbn [input_order input_tile_size inp];
    try lia; [|unfold INT_MAX; lia|now rewrite Z.add_0_l, Z2Nat.id by lia].
  cbn [input_order inp] in Ed'. rewrite Z.add_0_l, Z2Nat.id in Ed' by lia.
  injection Ed' as <-.
  eexists. eexists. split; [exact Eq|]. split; [exact Ev|]. cbn [host bufA].
  intros i j Hi Hj. pose proof (cell_index_range order i j Hi Hj) as Hji.
  unfold initial, after. cbn [bufA]. rewrite !lookup_total_fmap_seqZ by lia.
  split; f_equal; ring.
Qed.

Lemma X4_read_back_witness :
  let inp := Input 1 4 32 in
  let env := Prk "" 46340 (fun _ => of_Z 0) in
  exists fuel quiet verbose,
    benchmark false false env fuel inp = Ok quiet /\
    benchmark false true env fuel inp = Ok verbose /\
    forall i j, 0 <= i < 4 -> 0 <= j < 4 ->
      bufA (host quiet) !!! Z.to_nat (j * 4 + i) = of_Z (4 * j + i) /\
      bufA (host verbose) !!! Z.to_nat (j * 4 + i) = of_Z (4 * j + i + (1 + 1)).
Proof.
  apply (X4_read_back (Prk "" 46340 (fun _ => of_Z 0)) 1 4 32);
    unfold INT_MAX; try lia; reflexivity.
Defined.

(** X5: in the element-wise build the tile size decides the shape of the
    grid only. For two block edges between 1 and 32 a launch on the same
    memory ends in the same memory. *)
Theorem X5_tile_size_free (iterations order tile_size tile_size' : Z) (m : mem) :
  1 <= order -> order * order <= INT_MAX ->
  1 <= tile_size <= 32 -> 1 <= tile_size' <= 32 ->
  Z.of_nat (length (bufA m)) = order * order ->
  Z.of_nat (length (bufB m)) = order * order ->
  let inp := Input iterations order tile_size in
  let inp' := Input iterations order tile_size' in
  exists m',
    launch transpose (dimGrid false inp) (dimBlock false inp) order m = Ok m' /\
    launch transpose (dimGrid false inp') (dimBlock false inp') order m = Ok m'.
Proof.
  intros Ho Hsq Hts Hts' HA HB inp inp'.
  assert (order <= INT_MAX) as Hmax by (unfold INT_MAX in *; nia).
  assert (order * order <= 4294967296) as Hsq' by (unfold INT_MAX in *; lia).
  assert (holds order m) as Hm by (unfold holds; lia).
  destruct (elementwise_geometry inp) as (Hbx & Hby & Hgx & Hgy);
    [cbn; lia|cbn; unfold INT_MAX; lia|].
  destruct (elementwise_geometry inp') as (Hbx' & Hby' & Hgx' & Hgy');
    [cbn; lia|cbn; unfold INT_MAX; lia|].
  destruct (launch_transpose_contract order (dimGrid false inp) (dimBlock false inp) m)
    as (m1 & E1 & C1); try assumption.
  destruct (launch_transpose_contract order (dimGrid false inp') (dimBlock false inp') m)
    as (m2 & E2 & C2); try assumption.
  assert (m2 = m1) as ->
    by (eapply (transpose_contract_deterministic order m); eauto; lia).
  exists m1. easy.
Qed.

Lemma X5_tile_size_free_witness :
  let m := Mem (replicate 9 (of_Z 5)) (replicate 9 (of_Z 0)) in
  exists m',
    launch transpose (dimGrid false (Input 1 3 2)) (dimBlock false (Input 1 3 2)) 3 m =
      Ok m' /\
    launch transpose (dimGrid false (Input 1 3 32)) (dimBlock false (Input 1 3 32)) 3 m =
      Ok m'.
Proof.
  apply (X5_tile_size_free 1 3 2 32 (Mem (replicate 9 (of_Z 5)) (replicate 9 (of_Z 0))));
    unfold INT_MAX; try lia; reflexivity.
Defined.

Lemma launches_tiled_exact inp n : forall k,
  1 <= order inp -> order inp mod 32 = 0 -> order inp * order inp <= INT_MAX -> 0 <= k ->
  (k + Z.of_nat n) * (order inp * order inp) + triangle (k + Z.of_nat n) < 2 ^ 53 ->
  launches true inp n (after (order inp) k) = Ok (after (order inp) (k + Z.of_nat n)).
Proof.
  induction n as [|n IH]; intros k Ho Hmul Hsq Hk Hb.
  { cbn [launches]. now rewrite Z.add_0_r. }
  assert (order inp <= INT_MAX) as Hmax by (unfold INT_MAX in *; nia).
  assert (order inp * order inp <= 4294967296) as Hsq' by (unfold INT_MAX in *; lia).
  assert (order inp / 32 * 32 = order inp) as Hw by (Z.div_mod_to_equations; lia).
  destruct (after_length (order inp) k) as [HA HB]; [lia|].
  destruct (tiled_geometry inp) as (Hg & Hbl & Hq & _); [lia|].
  pose proof (triangle_mono (k + 1) (k + Z.of_nat (S n)) ltac:(lia)) as Hmono.
  destruct (launch_tiled_contract (order inp) (order inp / 32) (after (order inp) k))
    as (m' & E & C); rewrite ?Hw; try assumption.
  { unfold holds. lia. }
  rewrite Hw in C.
  assert (m' = after (order inp) (k + 1)) as ->.
  { apply (transpose_contract_deterministic (order inp) (after (order inp) k));
      try assumption; try lia.
    apply after_contract; lia || nia. }
  cbn [launches]. unfold launch_once. cbn [the_kernel]. rewrite Hg, Hbl, E.
  cbn [mbind result_bind].
  rewrite IH; try assumption; try lia.
  - do 2 f_equal. lia.
  - replace (k + 1 + Z.of_nat n) with (k + Z.of_nat (S n)) by lia. exact Hb.
Qed.

(** X6: in the tiled build, for an order that is a multiple of 32 and
    numbers that stay below 2^53, the run leaves in B the values the
    reference formula gives, the aggregate error is exactly 0, and the
    verdict is the success report with exit code 0. *)
Theorem X6_tiled_validates (VERBOSE : bool) (env : prk) (iterations order : Z) :
  1 <= order -> order mod 32 = 0 -> order * order <= INT_MAX -> 1 <= iterations ->
  (iterations + 1) * (order * order) + iterations * (iterations + 1) / 2 < 2 ^ 53 ->
  let inp := Input iterations order tile_dim in
  exists fuel r,
    benchmark true VERBOSE env fuel inp = Ok r /\
    (forall i j, 0 <= i < order -> 0 <= j < order ->
       bufB (host r) !!! Z.to_nat (j * order + i) = reference iterations order i j) /\
    abserr r = of_Z 0 /\
    verdict VERBOSE inp r = Ok (Outcome (success_report inp (elapsed r)) 0).
Proof.
  intros Ho Hmul Hsq Hit Hb inp.
  assert (triangle (iterations + 1) = iterations * (iterations + 1) / 2) as Htri.
  { unfold triangle. f_equal. ring. }
  rewrite <- Htri in Hb.
  pose proof (triangle_nonneg (iterations + 1) ltac:(lia)) as Ht.
  assert (1 <= order * order) by nia.
  pose proof (iterations_below_INT_MAX iterations order Hit Ho Hb) as Hmax.
  exists (S (Z.to_nat (iterations + 1))).
  destruct (benchmark_spec true VERBOSE env (S (Z.to_nat (iterations + 1))) inp)
    as (d & err & Ed & _ & _ & Eerr & Eb); cbn [input_order input_iterations inp];
    try lia.
  cbn [input_order input_iterations inp] in *.
  rewrite <- after_0 in Ed by lia.
  rewrite (launches_tiled_exact inp) in Ed; cbn [input_order inp];
    try lia; [|now rewrite Z.add_0_l, Z2Nat.id by lia].
  cbn [input_order inp] in Ed. rewrite Z.add_0_l, Z2Nat.id in Ed by lia.
  injection Ed as <-.
  rewrite aggregate_error_exact in Eerr by lia. injection Eerr as <-.
  eexists. split; [exact Eb|]. cbn [host abserr bufB elapsed]. repeat split.
  intros i j Hi Hj. pose proof (cell_index_range order i j Hi Hj) as Hji.
  unfold after. cbn [bufB]. rewrite lookup_total_fmap_seqZ by lia.
  rewrite transposed_cell, reference_exact by (assumption || lia). reflexivity.
Qed.

Lemma X6_tiled_validates_witness :
  let inp := Input 2 32 tile_dim in
  let env := Prk "" 46340 (fun _ => of_Z 0) in
  exists fuel r,
    benchmark true false env fuel inp = Ok r /\
    (forall i j, 0 <= i < 32 -> 0 <= j < 32 ->
       bufB (host r) !!! Z.to_nat (j * 32 + i) = reference 2 32 i j) /\
    abserr r = of_Z 0 /\
    verdict false inp r = Ok (Outcome (success_report inp (elapsed r)) 0).
Proof.
  apply (X6_tiled_validates false (Prk "" 46340 (fun _ => of_Z 0)) 2 32);
    unfold INT_MAX; try lia; reflexivity.
Defined.

(** X7: in either build, when the input check passes without printing a
    warning and the numbers stay below 2^53, [main] ends with exit code 0
    and prints "Solution validates". *)
Theorem X7_quiet_run_validates (TILED VERBOSE : bool) (env : prk) (argv : list string)
    (inp : input) :
  read_input TILED env argv = ([], inr inp) ->
  get_max_matrix_size env * get_max_matrix_size env <= INT_MAX ->
  (iterations inp + 1) * (order inp * order inp)
    + iterations inp * (iterations inp + 1) / 2 < 2 ^ 53 ->
  exists fuel out,
    main TILED VERBOSE env fuel argv = Ok out /\
    exit_code out = 0 /\
    Cout [Str "Solution validates"; Endl] ∈ trace out.
Proof.
  intros Hread Hceil Hb.
  destruct (read_input_accepts _ _ _ _ _ Hread) as (_ & _ & Hit & _ & Ho & Hole & Hts).
  pose proof (read_input_quiet _ _ _ _ Hread) as Hquiet.
  assert (order inp * order inp <= INT_MAX) as Hsq by nia.
  assert (triangle (iterations inp + 1) = iterations inp * (iterations inp + 1) / 2)
    as Htri by (unfold triangle; f_equal; ring).
  rewrite <- Htri in Hb.
  pose proof (triangle_nonneg (iterations inp + 1) ltac:(lia)) as Ht.
  pose proof (iterations_below_INT_MAX (iterations inp) (order inp) Hit ltac:(lia) Hb)
    as Hmax.
  exists (S (Z.to_nat (iterations inp + 1))).
  destruct (benchmark_spec TILED VERBOSE env (S (Z.to_nat (iterations inp + 1))) inp)
    as (d & err & Ed & _ & _ & Eerr & Eb); try lia.
  rewrite <- after_0 in Ed by lia.
  assert (d = after (order inp) (iterations inp + 1)) as ->.
  { destruct TILED.
    - destruct Hquiet as [Hmul _].
      rewrite (launches_tiled_exact inp) in Ed; try lia;
        [|now rewrite Z.add_0_l, Z2Nat.id by lia].
      rewrite Z.add_0_l, Z2Nat.id in Ed by lia. now injection Ed.
    - rewrite (launches_exact inp) in Ed; try lia;
        [|unfold INT_MAX; lia|now rewrite Z.add_0_l, Z2Nat.id by lia].
      rewrite Z.add_0_l, Z2Nat.id in Ed by lia. now injection Ed. }
  rewrite aggregate_error_exact in Eerr by lia. injection Eerr as <-.
  eexists. unfold main. rewrite Hread, Eb. cbn [mbind result_bind].
  unfold verdict. cbn [abserr elapsed run_events].
  change (dltb (of_Z 0) epsilon) with true. cbn [mbind result_bind].
  split; [reflexivity|]. cbn [exit_code trace]. split; [reflexivity|].
  unfold success_report. rewrite !elem_of_app. do 4 right. left.
Qed.

Lemma X7_quiet_run_validates_witness :
  exists fuel out,
    main false false (Prk "" 46340 (fun _ => of_Z 0)) fuel ["transpose"; "3"; "5"] = Ok out /\
    exit_code out = 0 /\
    Cout [Str "Solution validates"; Endl] ∈ trace out.
Proof.
  apply (X7_quiet_run_validates false false (Prk "" 46340 (fun _ => of_Z 0))
           ["transpose"; "3"; "5"] (Input 3 5 32));
    [reflexivity|vm_compute; discriminate|reflexivity].
Defined.

(** ** The loop counter at [INT_MAX] *)

(** X8: the input check accepts [iterations = INT_MAX]. The loop test
    [iter <= iterations] then never fails, and after the last launch
    [iter++] leaves the range of [int]: [main] has no result, and with
    enough fuel the model stops at the signed overflow. *)
Theorem X8_iteration_counter_overflow (TILED VERBOSE : bool) (env : prk)
    (argv : list string) (warn : list event) (inp : input) :
  read_input TILED env argv = (warn, inr inp) ->
  get_max_matrix_size env * get_max_matrix_size env <= INT_MAX ->
  iterations inp = INT_MAX ->
  (forall fuel out, main TILED VERBOSE env fuel argv <> Ok out) /\
  (forall fuel, INT_MAX + 1 < Z.of_nat fuel ->
     main TILED VERBOSE env fuel argv = Fault SignedOverflow).
Proof.
  intros Hread Hceil Hmax.
  destruct (read_input_accepts _ _ _ _ _ Hread) as (_ & _ & Hit & _ & Ho & Hole & _).
  assert (order inp * order inp <= INT_MAX) as Hsq by nia.
  assert (size_t (size_t (order inp) * size_t (order inp)) = order inp * order inp) as Hn.
  { unfold INT_MAX in *. rewrite (size_t_small (order inp)) by lia. apply size_t_small. lia. }
  assert (fill_host (order inp) (Mem (malloc (order inp * order inp))
                                   (malloc (order inp * order inp))) =
          Ok (initial (order inp))) as Hfill.
  { apply fill_host_ok; try lia;
      cbn [bufA bufB]; unfold malloc; rewrite length_replicate; lia. }
  split.
  - intros fuel out. unfold main, benchmark. rewrite Hread, Hn, Hfill.
    cbn [mbind result_bind].
    destruct (launch_loop TILED env inp fuel 0 _) as [st|f] eqn:E; [|discriminate].
    now apply launch_loop_overflow in E.
  - intros fuel Hfuel. unfold main, benchmark. rewrite Hread, Hn, Hfill.
    cbn [mbind result_bind].
    rewrite (launch_loop_counter_overflow TILED env inp (Z.to_nat INT_MAX));
      [reflexivity|lia|lia|lia|unfold INT_MAX; lia|unfold INT_MAX in *; lia|].
    destruct (initial_length (order inp)) as [HA HB]; [lia|].
    unfold holds. cbn [device bufA bufB]. lia.
Qed.

Lemma X8_iteration_counter_overflow_witness :
  let env := Prk "" 46340 (fun _ => of_Z 0) in
  let argv := ["transpose"; "2147483647"; "1"] in
  (forall fuel out, main false false env fuel argv <> Ok out) /\
  (forall fuel, INT_MAX + 1 < Z.of_nat fuel ->
     main false false env fuel argv = Fault SignedOverflow).
Proof.
  apply (X8_iteration_counter_overflow false false (Prk "" 46340 (fun _ => of_Z 0))
           ["transpose"; "2147483647"; "1"] [] (Input 2147483647 1 32));
    [reflexivity|vm_compute; discriminate|reflexivity].
Defined.

(** ** The validator *)

Lemma dabs_dsub_dyadic a b e :
  0 <= a < 2 ^ 53 -> 0 <= b < 2 ^ 53 -> -1000 <= e <= 900 ->
  dabs (dsub (dyadic a e) (dyadic b e)) = dyadic (Z.abs (a - b)) e.
Proof.
  intros Ha Hb He.
  destruct (Z.eq_dec a 0) as [->|Ha0]; destruct (Z.eq_dec b 0) as [->|Hb0];
    rewrite ?dyadic_zero; try reflexivity.
  - replace (Z.abs (0 - b)) with b by lia. rewrite dyadic_pos by lia. reflexivity.
  - replace (Z.abs (a - 0)) with a by lia. rewrite dyadic_pos by lia. reflexivity.
  - rewrite (dyadic_pos a), (dyadic_pos b) by lia.
    destruct a as [|a|a], b as [|b|b]; try lia. cbn [Z.to_pos].
    assert (Zpos (digits2_pos a) <= 53) as Hda by (apply digits2_lt; lia).
    assert (Zpos (digits2_pos b) <= 53) as Hdb by (apply digits2_lt; lia).
    unfold canon, dsub, SFsub. cbn [cond_Zopp].
    set (ez := Z.min _ _).
    destruct (shl_align_le (Z.to_pos (Zpos a * 2 ^ (53 - Zpos (digits2_pos a))))
                (e + Zpos (digits2_pos a) - 53) ez) as (ma & -> & Hma); [lia|].
    destruct (shl_align_le (Z.to_pos (Zpos b * 2 ^ (53 - Zpos (digits2_pos b))))
                (e + Zpos (digits2_pos b) - 53) ez) as (mb & -> & Hmb); [lia|].
    cbn [fst]. rewrite Hma, Hmb, !canon_mantissa by lia.
    rewrite <- !Z.mul_assoc, <- !Z.pow_add_r by lia.
    replace (53 - Zpos (digits2_pos a) + (e + Zpos (digits2_pos a) - 53 - ez))
      with (e - ez) by lia.
    replace (53 - Zpos (digits2_pos b) + (e + Zpos (digits2_pos b) - 53 - ez))
      with (e - ez) by lia.
    rewrite <- Z.mul_sub_distr_r.
    assert (0 < 2 ^ (e - ez)) as Hp by (apply Z.pow_pos_nonneg; lia).
    destruct (Z.lt_trichotomy (Zpos a) (Zpos b)) as [Hlt|[Heq|Hgt]].
    + assert (Z.abs (Zpos a - Zpos b) = Zpos b - Zpos a) as -> by lia.
      assert (0 < Zpos b - Zpos a < 2 ^ 53) as Hd by lia.
      destruct (Zpos b - Zpos a) as [|d|d] eqn:Ed; try lia.
      assert ((Zpos a - Zpos b) * 2 ^ (e - ez) = - (Zpos d * 2 ^ (e - ez))) as ->
        by (rewrite <- Ed; ring).
      assert (Zpos (digits2_pos d) <= 53) as Hdd by (apply digits2_lt; lia).
      assert (0 < Zpos (digits2_pos d)) by lia.
      rewrite dyadic_canon by lia.
      assert (0 < Zpos d * 2 ^ (e - ez)) as Hpos by (apply Z.mul_pos_pos; lia).
      destruct (Zpos d * 2 ^ (e - ez)) as [|m|m] eqn:Em; try lia.
      change (- Z.pos m) with (Z.neg m). cbv beta iota delta [binary_normalize].
      rewrite (binary_round_exact true m d ez (e - ez)) by lia.
      unfold canon, dabs, SFabs. f_equal. lia.
    + rewrite Heq, Z.sub_diag, Z.mul_0_l. reflexivity.
    + assert (Z.abs (Zpos a - Zpos b) = Zpos a - Zpos b) as -> by lia.
      fold (dyadic ((Zpos a - Zpos b) * 2 ^ (e - ez)) ez).
      rewrite dyadic_shift by lia.
      replace (ez + (e - ez)) with e by lia.
      rewrite dyadic_pos by lia. reflexivity.
Qed.

Lemma of_Z_abs_sub a b :
  0 <= a < 2 ^ 53 -> 0 <= b < 2 ^ 53 ->
  prk_abs (dsub (of_Z a) (of_Z b)) = of_Z (Z.abs (a - b)).
Proof. intros Ha Hb. unfold prk_abs, of_Z. apply dabs_dsub_dyadic; lia. Qed.

Lemma of_Z_not_below_epsilon s : 1 <= s < 2 ^ 53 -> dltb (of_Z s) epsilon = false.
Proof.
  intros Hs. unfold of_Z. rewrite dyadic_pos by lia.
  assert (0 < Zpos (digits2_pos (Z.to_pos s))) by lia.
  unfold canon, dltb, SFltb, SFcompare, epsilon.
  destruct (Z.compare_spec (0 + Zpos (digits2_pos (Z.to_pos s)) - 53) (-79));
    lia || reflexivity.
Qed.

Lemma length_nested {X Y T} (g : X -> Y -> T) (l1 : list X) (l2 : list Y) :
  length (x ← l1; y ← l2; [g x y]) = (length l1 * length l2)%nat.
Proof.
  assert (forall x, length (y ← l2; [g x y]) = length l2) as Hin.
  { intros x. induction l2 as [|y l2 IH]; [reflexivity|]. cbn. now rewrite IH. }
  induction l1 as [|x l1 IH]; [reflexivity|].
  cbn [mbind list_bind]. rewrite length_app, IH. cbn. f_equal. apply Hin.
Qed.

Lemma matrix_cells_length order :
  0 <= order -> Z.of_nat (length (matrix_cells order)) = order * order.
Proof.
  intros Ho. unfold matrix_cells. rewrite length_nested, length_seqZ. nia.
Qed.

(** Summing the absolute differences of integer-valued elements: the sum is
    the integer sum, and it stays where it was exactly when every element
    met agrees with its reference. *)
Lemma error_sum_integers n order M (h_b : list double) (b : Z -> Z) :
  0 <= n -> 1 <= order -> order * order <= INT_MAX ->
  Z.of_nat (length h_b) = order * order ->
  (forall idx, 0 <= idx < order * order ->
     0 <= b idx < M /\ h_b !!! Z.to_nat idx = of_Z (b idx)) ->
  (n + 1) * (order * order) + triangle (n + 1) <= M -> M < 2 ^ 53 ->
  forall l s,
    (forall p, p ∈ l -> 0 <= p.1 < order /\ 0 <= p.2 < order) ->
    0 <= s -> s + Z.of_nat (length l) * M < 2 ^ 53 ->
    exists s',
      for_each (fun (p : Z * Z) abserr =>
                  v ← load h_b (size_t (size_t p.1 * size_t order + size_t p.2));
                  Ok (dadd abserr (prk_abs (dsub v (reference n order p.2 p.1)))))
        l (of_Z s) = Ok (of_Z s') /\
      s <= s' <= s + Z.of_nat (length l) * M /\
      (s' = s <->
       forall p, p ∈ l ->
         b (p.1 * order + p.2) = (n + 1) * (p.2 * order + p.1) + triangle (n + 1)).
Proof.
  intros Hn Ho Hsq Hlen Hb HM HM'.
  pose proof (triangle_nonneg (n + 1) ltac:(lia)) as Ht.
  match goal with |- context [for_each ?f] => set (body := f) end.
  induction l as [|p l IH]; intros s Hl Hs Hbound.
  { exists s. split; [reflexivity|]. split; [cbn; lia|]. split; [|reflexivity].
    intros _ p Hp. now apply elem_of_nil in Hp. }
  destruct (Hl p ltac:(left)) as [Hj Hi].
  pose proof (cell_index_range order p.2 p.1 Hi Hj) as Hji.
  pose proof (cell_index_range order p.1 p.2 Hj Hi) as Hij.
  destruct (Hb (p.1 * order + p.2) ltac:(lia)) as [Hbv Hlook].
  set (R := (n + 1) * (p.2 * order + p.1) + triangle (n + 1)).
  assert (0 <= (n + 1) * (p.2 * order + p.1) < (n + 1) * (order * order)) as HRb
    by (split; [apply Z.mul_nonneg_nonneg|apply Z.mul_lt_mono_pos_l]; lia).
  assert (0 <= R < M) as HR by (unfold R; lia).
  cbn [length] in Hbound. rewrite Nat2Z.inj_succ, Z.mul_succ_l in Hbound.
  assert (0 <= Z.of_nat (length l) * M) by (apply Z.mul_nonneg_nonneg; lia).
  destruct (IH (s + Z.abs (b (p.1 * order + p.2) - R))) as (s' & E & Hs' & Hiff).
  { intros q Hq. apply Hl. now right. }
  { lia. }
  { lia. }
  exists s'. split; [|split].
  - assert (body p (of_Z s) = Ok (of_Z (s + Z.abs (b (p.1 * order + p.2) - R)))) as Hstep.
    { unfold body. unfold INT_MAX in Hsq. assert (order <= order * order)
      by (rewrite <- (Z.mul_1_r order) at 1; apply Z.mul_le_mono_nonneg_l; lia).
      rewrite (size_t_small p.1), (size_t_small p.2), (size_t_small order), size_t_small
        by lia.
      unfold load. rewrite in_bounds_true by lia. cbn [mbind result_bind].
      rewrite Hlook, reference_exact by (assumption || lia). fold R.
      now rewrite of_Z_abs_sub, of_Z_add by lia. }
    cbn [for_each]. rewrite Hstep. exact E.
  - cbn [length]. rewrite Nat2Z.inj_succ, Z.mul_succ_l. lia.
  - split.
    + intros -> q [->|Hq]%elem_of_cons.
      * fold R. lia.
      * apply Hiff; [lia|exact Hq].
    + intros Hall.
      assert (b (p.1 * order + p.2) = R) as Hp by (apply Hall; left).
      rewrite Hp, Z.sub_diag in Hiff, Hs'. cbn [Z.abs] in Hiff, Hs'.
      rewrite Z.add_0_r in Hiff. apply Hiff. intros q Hq. apply Hall. now right.
Qed.

Lemma validator_integers (iterations order bound : Z) (h_b : list double) (b : Z -> Z) :
  0 <= iterations -> 1 <= order -> order * order <= INT_MAX ->
  Z.of_nat (length h_b) = order * order ->
  (forall idx, 0 <= idx < order * order ->
     0 <= b idx < bound /\ h_b !!! Z.to_nat idx = of_Z (b idx)) ->
  (iterations + 1) * (order * order) + iterations * (iterations + 1) / 2 <= bound ->
  order * order * bound < 2 ^ 53 ->
  exists err,
    aggregate_error iterations order h_b = Ok err /\
    (dltb err epsilon = true <->
     forall i j, 0 <= i < order -> 0 <= j < order ->
       b (j * order + i) =
       (i * order + j) * (1 + iterations) + iterations * (iterations + 1) / 2).
Proof.
  intros Hn Ho Hsq Hlen Hb HM Hbound.
  assert (triangle (iterations + 1) = iterations * (iterations + 1) / 2) as Htri.
  { unfold triangle. f_equal. ring. }
  rewrite <- Htri in *.
  assert (0 < bound) as Hpos by (destruct (Hb 0); nia).
  assert (bound < 2 ^ 53) as HM' by nia.
  destruct (error_sum_integers iterations order bound h_b b Hn Ho Hsq Hlen Hb HM HM'
              (matrix_cells order) 0) as (s & E & Hs & Hiff).
  { intros p Hp. now apply elem_of_matrix_cells. }
  { lia. }
  { rewrite matrix_cells_length by lia. lia. }
  rewrite matrix_cells_length in Hs by lia.
  exists (of_Z s). split.
  { unfold aggregate_error. rewrite for_each_nested. exact E. }
  assert ((forall p, p ∈ matrix_cells order ->
             b (p.1 * order + p.2) =
             (iterations + 1) * (p.2 * order + p.1) + triangle (iterations + 1)) <->
          (forall i j, 0 <= i < order -> 0 <= j < order ->
             b (j * order + i) =
             (i * order + j) * (1 + iterations) + triangle (iterations + 1))) as Hcells.
  { split.
    - intros H i j Hi Hj.
      pose proof (H (j, i) ltac:(apply elem_of_matrix_cells; easy)) as Hp.
      cbn [fst snd] in Hp. rewrite Hp. ring.
    - intros H p [Hj Hi]%elem_of_matrix_cells. rewrite H by easy. ring. }
  rewrite <- Hcells, <- Hiff.
  destruct (Z.eq_dec s 0) as [->|Hne]; [easy|].
  rewrite of_Z_not_below_epsilon by lia. split; [discriminate|lia].
Qed.

(** X9: the validator on whole numbers. When every element of [h_b] is an
    integer below a bound that also covers the reference values, with
    [order^2 * bound] below 2^53, the summation ends without a fault and
    the aggregate error is below 1.0e-8 exactly when every [h_b[j*order+i]]
    equals [(i*order+j)*(1+iterations) + iterations*(iterations+1)/2]. *)
Theorem X9_validator (iterations order bound : Z) (h_b : list double) (b : Z -> Z) :
  0 <= iterations -> 1 <= order -> order * order <= INT_MAX ->
  Z.of_nat (length h_b) = order * order ->
  (forall idx, 0 <= idx < order * order ->
     0 <= b idx < bound /\ h_b !!! Z.to_nat idx = of_Z (b idx)) ->
  (iterations + 1) * (order * order) + iterations * (iterations + 1) / 2 <= bound ->
  order * order * bound < 2 ^ 53 ->
  exists err,
    aggregate_error iterations order h_b = Ok err /\
    (dltb err epsilon = true <->
     forall i j, 0 <= i < order -> 0 <= j < order ->
       b (j * order + i) =
       (i * order + j) * (1 + iterations) + iterations * (iterations + 1) / 2).
Proof. apply validator_integers. Qed.

Lemma X9_validator_witness :
  exists err,
    aggregate_error 1 1 [of_Z 1] = Ok err /\
    (dltb err epsilon = true <->
     forall i j, 0 <= i < 1 -> 0 <= j < 1 ->
       (fun _ => 1) (j * 1 + i) = (i * 1 + j) * (1 + 1) + 1 * (1 + 1) / 2).
Proof.
  apply (X9_validator 1 1 3 [of_Z 1] (fun _ => 1)); unfold INT_MAX; try lia;
    try reflexivity.
  intros idx Hidx. replace idx with 0 by lia. split; [lia|reflexivity].
Defined.

Lemma error_sum_nan n order (h_b : list double) idx :
  1 <= order -> order * order <= INT_MAX ->
  Z.of_nat (length h_b) = order * order ->
  h_b !!! Z.to_nat idx = (S754_nan : double) ->
  forall l s,
    (forall p, p ∈ l -> 0 <= p.1 < order /\ 0 <= p.2 < order) ->
    s = S754_nan \/ (exists p, p ∈ l /\ p.1 * order + p.2 = idx) ->
    for_each (fun (p : Z * Z) abserr =>
                v ← load h_b (size_t (size_t p.1 * size_t order + size_t p.2));
                Ok (dadd abserr (prk_abs (dsub v (reference n order p.2 p.1)))))
      l s = Ok S754_nan.
Proof.
  intros Ho Hsq Hlen Hnan.
  match goal with |- context [for_each ?f] => set (body := f) end.
  induction l as [|p l IH]; intros s Hl Hs.
  { destruct Hs as [->|(p & Hp & _)]; [reflexivity|now apply elem_of_nil in Hp]. }
  destruct (Hl p ltac:(left)) as [Hj Hi].
  pose proof (cell_index_range order p.2 p.1 Hi Hj) as Hji.
  assert (body p s =
          Ok (dadd s (prk_abs (dsub (h_b !!! Z.to_nat (p.1 * order + p.2))
                                 (reference n order p.2 p.1))))) as Hstep.
  { unfold body. unfold INT_MAX in Hsq. assert (order <= order * order)
      by (rewrite <- (Z.mul_1_r order) at 1; apply Z.mul_le_mono_nonneg_l; lia).
    rewrite (size_t_small p.1), (size_t_small p.2), (size_t_small order), size_t_small
      by lia.
    unfold load. now rewrite in_bounds_true by lia. }
  cbn [for_each]. rewrite Hstep. cbn [mbind result_bind]. apply IH.
  { intros q Hq. apply Hl. now right. }
  destruct Hs as [->|(q & [->|Hq]%elem_of_cons & Hidx)].
  - now left.
  - left. rewrite Hidx, Hnan. now destruct s.
  - right. now exists q.
Qed.

(** X10: a NaN anywhere in [h_b] makes the aggregate error a NaN, and
    the test [abserr < epsilon] fails. *)
Theorem X10_validator_nan (iterations order idx : Z) (h_b : list double) :
  1 <= order -> order * order <= INT_MAX ->
  Z.of_nat (length h_b) = order * order ->
  0 <= idx < order * order -> h_b !!! Z.to_nat idx = (S754_nan : double) ->
  exists err,
    aggregate_error iterations order h_b = Ok err /\ dltb err epsilon = false.
Proof.
  intros Ho Hsq Hlen Hidx Hnan. exists S754_nan. split; [|reflexivity].
  unfold aggregate_error. rewrite for_each_nested. fold (matrix_cells order).
  apply (error_sum_nan iterations order h_b idx); try assumption.
  - intros p Hp. now apply elem_of_matrix_cells.
  - right. destruct (slot_decompose order idx ltac:(lia) Hidx) as (Hm & Hd & Heq).
    exists (idx / order, idx mod order). split; [now apply elem_of_matrix_cells|].
    cbn [fst snd]. lia.
Qed.

Lemma X10_validator_nan_witness :
  exists err,
    aggregate_error 1 2 [of_Z 3; of_Z 4; S754_nan; of_Z 6] = Ok err /\
    dltb err epsilon = false.
Proof.
  apply (X10_validator_nan 1 2 2 [of_Z 3; of_Z 4; S754_nan; of_Z 6]);
    unfold INT_MAX; try lia; reflexivity.
Defined.

(** ** The tiled kernel on an order that is not a multiple of 32 *)

Lemma cell_step_untouched w m p : 0 <= w -> untouched_from (w * w) m (cell_step w m p).
Proof.
  intros Hw k Hk. unfold cell_step. case_match eqn:Hg; [|easy].
  rewrite !andb_true_iff, !Z.leb_le, !Z.ltb_lt in Hg.
  pose proof (cell_index_range w p.1 p.2 ltac:(lia) ltac:(lia)) as Ha.
  pose proof (cell_index_range w p.2 p.1 ltac:(lia) ltac:(lia)) as Hb.
  unfold accumulated. cbn [bufA bufB].
  rewrite !list_lookup_total_insert_ne by lia. easy.
Qed.

Lemma cellwise_untouched w cells : forall m,
  0 <= w -> untouched_from (w * w) m (cellwise w cells m).
Proof.
  induction cells as [|c cells IH]; intros m Hw k Hk; [easy|].
  unfold cellwise. cbn [foldl]. fold (cellwise w cells (cell_step w m c)).
  destruct (IH (cell_step w m c) Hw k Hk) as [-> ->].
  now apply cell_step_untouched.
Qed.

(** One launch of the tiled kernel on a [q] x [q] grid: the contract of a
    matrix with rows of length [32 q], and nothing beyond that matrix. *)
Lemma launch_tiled_width order q m :
  0 <= q -> q * 32 * (q * 32) <= 4294967296 -> holds (q * 32) m ->
  exists m', launch transpose_tiled (Dim3 q q 1) (Dim3 32 8 1) order m = Ok m' /\
    transpose_contract (q * 32) m m' /\ untouched_from (q * 32 * (q * 32)) m m'.
Proof.
  intros Hq Hw Hm. assert (0 <= q * 32 < 4294967296) as Hq' by nia.
  destruct (run_threads_tiled_safe order q (Dim3 32 8 1) _ m Hq'
              (tiled_threads_Forall q) Hm) as (m' & E & _ & _ & _ & C).
  exists m'. split; [exact E|]. rewrite (C Hw). split.
  - apply cellwise_contract; [now apply NoDup_tiled_cells|assumption|].
    intros i j Hi Hj. now apply tiled_cells_cover.
  - apply cellwise_untouched. lia.
Qed.

Lemma contract_untouched_deterministic w m m1 m2 :
  0 <= w ->
  transpose_contract w m m1 -> untouched_from (w * w) m m1 ->
  transpose_contract w m m2 -> untouched_from (w * w) m m2 -> m1 = m2.
Proof.
  intros Hw (HlA1 & HlB1 & H1) U1 (HlA2 & HlB2 & H2) U2.
  destruct m1 as [A1 B1], m2 as [A2 B2]. cbn [bufA bufB] in *.
  f_equal; apply list_eq_total; try congruence; intros n Hn;
    (destruct (Z.lt_ge_cases (Z.of_nat n) (w * w)) as [Hin|Hout];
     [|destruct (U1 (Z.of_nat n) Hout) as [EA1 EB1];
       destruct (U2 (Z.of_nat n) Hout) as [EA2 EB2];
       cbn [bufA bufB] in *; rewrite Nat2Z.id in *; congruence]).
  - destruct (slot_decompose w (Z.of_nat n)) as (Hi & Hj & Hk); [lia..|].
    destruct (H1 _ _ Hi Hj) as [_ E1]. destruct (H2 _ _ Hi Hj) as [_ E2].
    rewrite <- Hk, Nat2Z.id in E1, E2. congruence.
  - destruct (slot_decompose w (Z.of_nat n)) as (Hj & Hi & Hk); [lia..|].
    destruct (H1 _ _ Hi Hj) as [E1 _]. destruct (H2 _ _ Hi Hj) as [E2 _].
    rewrite <- Hk, Nat2Z.id in E1, E2. congruence.
Qed.

Lemma after_tiled_length w len k :
  0 <= len ->
  Z.of_nat (length (bufA (after_tiled w len k))) = len /\
  Z.of_nat (length (bufB (after_tiled w len k))) = len.
Proof.
  intros Hl. unfold after_tiled. cbn [bufA bufB]. rewrite !length_fmap, !length_seqZ. lia.
Qed.

Lemma after_tiled_in w len k idx :
  0 <= idx < w * w -> w * w <= len ->
  bufA (after_tiled w len k) !!! Z.to_nat idx = of_Z (idx + k) /\
  bufB (after_tiled w len k) !!! Z.to_nat idx = of_Z (k * transposed w idx + triangle k).
Proof.
  intros Hidx Hlen. unfold after_tiled. cbn [bufA bufB].
  rewrite !lookup_total_fmap_seqZ by lia.
  replace (idx <? w * w) with true by settle_test. easy.
Qed.

Lemma after_tiled_out w len k idx :
  w * w <= idx < len ->
  bufA (after_tiled w len k) !!! Z.to_nat idx = of_Z idx /\
  bufB (after_tiled w len k) !!! Z.to_nat idx = of_Z 0.
Proof.
  intros Hidx. unfold after_tiled. cbn [bufA bufB].
  assert (0 <= w * w) by nia.
  rewrite !lookup_total_fmap_seqZ by lia.
  replace (idx <? w * w) with false by settle_test. easy.
Qed.

Lemma after_tiled_0 w order :
  0 <= order -> after_tiled w (order * order) 0 = initial order.
Proof.
  intros Ho. unfold after_tiled, initial. f_equal.
  - apply list_fmap_ext. intros n idx _. rewrite Z.add_0_r. now destruct (idx <? w * w).
  - apply list_eq_total.
    + rewrite length_fmap, length_seqZ, length_replicate. reflexivity.
    + intros n Hn. rewrite length_fmap, length_seqZ in Hn.
      rewrite lookup_total_replicate_2 by lia.
      rewrite <- (Nat2Z.id n) at 1. rewrite lookup_total_fmap_seqZ by nia.
      now destruct (Z.of_nat n <? w * w).
Qed.

Lemma after_tiled_step w len k :
  0 <= w -> w * w <= len -> 0 <= k ->
  (k + 1) * len + triangle (k + 1) < 2 ^ 53 ->
  transpose_contract w (after_tiled w len k) (after_tiled w len (k + 1)) /\
  untouched_from (w * w) (after_tiled w len k) (after_tiled w len (k + 1)).
Proof.
  intros Hw Hlen Hk Hb.
  assert (0 <= len) as Hl by nia.
  destruct (after_tiled_length w len k Hl) as [HA HB].
  destruct (after_tiled_length w len (k + 1) Hl) as [HA' HB'].
  pose proof (triangle_nonneg k Hk) as Ht. pose proof (triangle_succ k) as Hts.
  split; [split; [lia|split; [lia|]]|].
  - intros i j Hi Hj.
    pose proof (cell_index_range w i j Hi Hj) as Hji.
    pose proof (cell_index_range w j i Hj Hi) as Hij.
    destruct (after_tiled_in w len k (i * w + j)) as [_ ->]; [lia..|].
    destruct (after_tiled_in w len (k + 1) (i * w + j)) as [_ ->]; [lia..|].
    destruct (after_tiled_in w len k (j * w + i)) as [-> _]; [lia..|].
    destruct (after_tiled_in w len (k + 1) (j * w + i)) as [-> _]; [lia..|].
    rewrite transposed_cell by assumption.
    assert (0 <= k * (j * w + i)) by nia.
    assert ((k + 1) * (j * w + i) <= (k + 1) * len)
      by (apply Z.mul_le_mono_nonneg_l; lia).
    assert (j * w + i + k + 1 <= (k + 1) * len) by nia.
    rewrite !of_Z_add by lia. split; f_equal; lia.
  - intros idx Hidx. destruct (Z.lt_ge_cases idx len) as [Hin|Hout].
    + destruct (after_tiled_out w len k idx) as [-> ->]; [lia|].
      destruct (after_tiled_out w len (k + 1) idx) as [-> ->]; [lia|]. easy.
    + rewrite !list_lookup_total_alt, !lookup_ge_None_2 by lia. easy.
Qed.

Lemma launches_tiled_width inp n : forall k,
  1 <= order inp -> order inp * order inp <= INT_MAX -> 0 <= k ->
  (k + Z.of_nat n) * (order inp * order inp) + triangle (k + Z.of_nat n) < 2 ^ 53 ->
  launches true inp n (after_tiled (order inp / 32 * 32) (order inp * order inp) k) =
  Ok (after_tiled (order inp / 32 * 32) (order inp * order inp) (k + Z.of_nat n)).
Proof.
  induction n as [|n IH]; intros k Ho Hsq Hk Hb.
  { cbn [launches]. now rewrite Z.add_0_r. }
  assert (order inp <= INT_MAX) as Hmax by (unfold INT_MAX in *; nia).
  destruct (tiled_geometry inp) as (Hg & Hbl & Hq & Hle); [lia|].
  set (w := order inp / 32 * 32) in *.
  assert (0 <= w) as Hw by (unfold w; lia).
  assert (w * w <= order inp * order inp) as Hww by (apply Z.mul_le_mono_nonneg; lia).
  destruct (after_tiled_length w (order inp * order inp) k) as [HA HB]; [nia|].
  pose proof (triangle_mono (k + 1) (k + Z.of_nat (S n)) ltac:(lia)) as Hmono.
  destruct (launch_tiled_width (order inp) (order inp / 32)
              (after_tiled w (order inp * order inp) k)) as (m' & E & C & U);
    fold w; try assumption.
  { unfold INT_MAX in *. lia. }
  { unfold holds. lia. }
  destruct (after_tiled_step w (order inp * order inp) k) as [C' U'];
    try assumption; [nia|].
  assert (m' = after_tiled w (order inp * order inp) (k + 1)) as ->
    by (eapply (contract_untouched_deterministic w); eassumption).
  cbn [launches]. unfold launch_once. cbn [the_kernel]. rewrite Hg, Hbl, E.
  cbn [mbind result_bind].
  rewrite IH; try assumption; try lia.
  - do 2 f_equal. lia.
  - replace (k + 1 + Z.of_nat n) with (k + Z.of_nat (S n)) by lia. exact Hb.
Qed.

Lemma transposed_range w idx :
  0 <= w -> 0 <= idx < w * w -> 0 <= transposed w idx < w * w.
Proof.
  intros Hw Hidx. destruct (slot_decompose w idx Hw Hidx) as (Hm & Hd & _).
  unfold transposed. pose proof (cell_index_range w (idx / w) (idx mod w) Hd Hm). lia.
Qed.

(** X11: the tiled kernel takes the length of a row from the grid, not
    from [order]. For every order the input check accepts, one launch of
    the tiled build ends without a fault; with [width = (order/32)*32] it
    performs [B[i*width+j] += A[j*width+i]; A[j*width+i] += 1] for all
    [i], [j] below [width], and leaves every slot from [width^2] on as it
    was. *)
Theorem X11_tiled_row_length (iterations order : Z) (m : mem) :
  1 <= order -> order * order <= INT_MAX ->
  Z.of_nat (length (bufA m)) = order * order ->
  Z.of_nat (length (bufB m)) = order * order ->
  let inp := Input iterations order tile_dim in
  let width := order / 32 * 32 in
  exists m',
    launch transpose_tiled (dimGrid true inp) (dimBlock true inp) order m = Ok m' /\
    transpose_contract width m m' /\
    forall k, width * width <= k ->
      bufA m' !!! Z.to_nat k = bufA m !!! Z.to_nat k /\
      bufB m' !!! Z.to_nat k = bufB m !!! Z.to_nat k.
Proof.
  intros Ho Hsq HA HB inp width.
  assert (order <= INT_MAX) as Hmax by (unfold INT_MAX in *; nia).
  destruct (tiled_geometry inp) as (-> & -> & Hq & Hle); [cbn; lia|].
  cbn [input_order inp] in *. fold width in Hle.
  assert (0 <= width) as Hw by (unfold width; lia).
  assert (width * width <= order * order) as Hww by (apply Z.mul_le_mono_nonneg; lia).
  destruct (launch_tiled_width order (order / 32) m) as (m' & E & C & U);
    fold width; try assumption.
  { unfold INT_MAX in *. lia. }
  { unfold holds. lia. }
  exists m'. easy.
Qed.

Lemma X11_tiled_row_length_witness :
  let m := Mem (replicate 1089 (of_Z 0)) (replicate 1089 (of_Z 0)) in
  let inp := Input 1 33 tile_dim in
  let width := 33 / 32 * 32 in
  exists m',
    launch transpose_tiled (dimGrid true inp) (dimBlock true inp) 33 m = Ok m' /\
    transpose_contract width m m' /\
    forall k, width * width <= k ->
      bufA m' !!! Z.to_nat k = bufA m !!! Z.to_nat k /\
      bufB m' !!! Z.to_nat k = bufB m !!! Z.to_nat k.
Proof.
  apply (X11_tiled_row_length 1 33 (Mem (replicate 1089 (of_Z 0)) (replicate 1089 (of_Z 0))));
    unfold INT_MAX; try lia; reflexivity.
Defined.

(** X12: for an order below 32 the grid of the tiled build has no
    block, and a launch leaves the memory as it was. *)
Theorem X12_tiled_small_order (iterations order : Z) (m : mem) :
  1 <= order < 32 ->
  let inp := Input iterations order tile_dim in
  dimGrid true inp = Dim3 0 0 1 /\
  launch transpose_tiled (dimGrid true inp) (dimBlock true inp) order m = Ok m.
Proof.
  intros Ho inp.
  assert (dimGrid true inp = Dim3 0 0 1) as Hg.
  { unfold dimGrid, tile_dim. cbn [input_order inp]. now rewrite Z.quot_small by lia. }
  split; [exact Hg|]. rewrite Hg. reflexivity.
Qed.

Lemma X12_tiled_small_order_witness :
  let inp := Input 1 31 tile_dim in
  let m := Mem [of_Z 7] [] in
  dimGrid true inp = Dim3 0 0 1 /\
  launch transpose_tiled (dimGrid true inp) (dimBlock true inp) 31 m = Ok m.
Proof. apply (X12_tiled_small_order 1 31 (Mem [of_Z 7] [])). lia. Defined.

(** X13: in the tiled build, for an order that is not a multiple of 32
    (and numbers that stay below 2^53) the run ends, the last element of B
    is still 0, the aggregate error is not below 1.0e-8, and the verdict
    is the error line with exit code 1. *)
Theorem X13_tiled_indivisible_fails (env : prk) (iterations order : Z) :
  1 <= order -> order mod 32 <> 0 -> order * order <= INT_MAX -> 1 <= iterations ->
  order * order
    * ((iterations + 1) * (order * order) + iterations * (iterations + 1) / 2 + 1) < 2 ^ 53 ->
  let inp := Input iterations order tile_dim in
  exists fuel r,
    benchmark true false env fuel inp = Ok r /\
    bufB (host r) !!! Z.to_nat (order * order - 1) = of_Z 0 /\
    dltb (abserr r) epsilon = false /\
    verdict false inp r = Ok (Outcome [failure_report (abserr r)] 1).
Proof.
  intros Ho Hmod Hsq Hit Hbound inp.
  assert (triangle (iterations + 1) = iterations * (iterations + 1) / 2) as Htri.
  { unfold triangle. f_equal. ring. }
  rewrite <- Htri in Hbound.
  pose proof (triangle_nonneg (iterations + 1) ltac:(lia)) as Ht.
  assert (1 <= triangle (iterations + 1)) as Ht1.
  { pose proof (triangle_double (iterations + 1)). nia. }
  set (M := (iterations + 1) * (order * order) + triangle (iterations + 1) + 1) in *.
  assert (1 <= order * order) by nia.
  assert (M < 2 ^ 53) as HM by nia.
  assert (iterations < INT_MAX) as Hmax
    by (apply (iterations_below_INT_MAX iterations order); unfold M in HM; lia).
  set (w := order / 32 * 32).
  assert (0 <= w < order) as Hw by (unfold w; Z.div_mod_to_equations; lia).
  assert (w * w <= order * order - 1) as Hww by nia.
  exists (S (Z.to_nat (iterations + 1))).
  destruct (benchmark_spec true false env (S (Z.to_nat (iterations + 1))) inp)
    as (d & err & Ed & _ & _ & Eerr & Eb); cbn [input_order input_iterations inp];
    try lia.
  cbn [input_order input_iterations inp] in *.
  rewrite <- (after_tiled_0 w) in Ed by lia.
  pose proof (launches_tiled_width inp (Z.to_nat (iterations + 1)) 0) as Hl.
  cbn [input_order inp] in Hl. fold w in Hl.
  rewrite Hl in Ed; try lia; [|rewrite Z.add_0_l, Z2Nat.id by lia; unfold M in HM; lia].
  clear Hl. rewrite Z.add_0_l, Z2Nat.id in Ed by lia. injection Ed as <-.
  set (b := fun idx => if idx <? w * w
                       then (iterations + 1) * transposed w idx + triangle (iterations + 1)
                       else 0).
  destruct (after_tiled_length w (order * order) (iterations + 1)) as [_ HB]; [lia|].
  destruct (validator_integers iterations order M
              (bufB (after_tiled w (order * order) (iterations + 1))) b)
    as (err' & Eerr' & Hiff); try lia.
  { intros idx Hidx. unfold b.
    assert (0 <= (iterations + 1) * (order * order))
      by (apply Z.mul_nonneg_nonneg; lia).
    destruct (Z.ltb_spec idx (w * w)) as [Hin|Hout].
    - pose proof (transposed_range w idx ltac:(lia) ltac:(lia)) as Hr.
      destruct (after_tiled_in w (order * order) (iterations + 1) idx) as [_ ->];
        [lia..|].
      assert (0 <= (iterations + 1) * transposed w idx
                <= (iterations + 1) * (order * order))
        by (split; [apply Z.mul_nonneg_nonneg|apply Z.mul_le_mono_nonneg_l]; lia).
      split; [|reflexivity]. unfold M. lia.
    - destruct (after_tiled_out w (order * order) (iterations + 1) idx) as [_ ->]; [lia|].
      split; [|reflexivity]. unfold M. lia. }
  rewrite Eerr in Eerr'. injection Eerr' as <-.
  assert (dltb err epsilon = false) as Hlt.
  { destruct (dltb err epsilon); [|reflexivity]. exfalso.
    destruct Hiff as [Hall _].
    specialize (Hall eq_refl (order - 1) (order - 1) ltac:(lia) ltac:(lia)).
    unfold b in Hall.
    replace ((order - 1) * order + (order - 1) <? w * w) with false in Hall
      by settle_test.
    rewrite <- Htri in Hall. nia. }
  eexists. split; [exact Eb|]. cbn [host abserr bufB]. split; [|split; [exact Hlt|]].
  - destruct (after_tiled_out w (order * order) (iterations + 1) (order * order - 1))
      as [_ ->]; [lia|reflexivity].
  - unfold verdict. cbn [abserr]. rewrite Hlt. reflexivity.
Qed.

Lemma X13_tiled_indivisible_fails_witness :
  let inp := Input 1 33 tile_dim in
  let env := Prk "" 46340 (fun _ => of_Z 0) in
  exists fuel r,
    benchmark true false env fuel inp = Ok r /\
    bufB (host r) !!! Z.to_nat (33 * 33 - 1) = of_Z 0 /\
    dltb (abserr r) epsilon = false /\
    verdict false inp r = Ok (Outcome [failure_report (abserr r)] 1).
Proof.
  apply (X13_tiled_indivisible_fails (Prk "" 46340 (fun _ => of_Z 0)) 1 33);
    unfold INT_MAX; try lia; [vm_compute; discriminate|reflexivity].
Defined.

(** ** A clock that stands still *)

Lemma dsub_same x : is_finite x = true -> dsub x x = S754_zero false.
Proof.
  destruct x as [s| | |s m e]; try discriminate; intros _.
  - now destruct s.
  - unfold dsub, SFsub. rewrite Z.min_id. unfold shl_align. rewrite Z.sub_diag.
    reflexivity.
Qed.

(** X14: the elapsed time is not tested before it is divided. When the
    two readings of the clock are the same number, the elapsed time and
    the average time are 0, and the rate computed from them is an
    infinity or a NaN. *)
Theorem X14_clock_standstill (TILED VERBOSE : bool) (env : prk)
    (iterations order tile_size : Z) :
  1 <= order -> order * order <= INT_MAX -> 1 <= iterations < INT_MAX ->
  is_finite (wtime env 0%nat) = true -> wtime env 1%nat = wtime env 0%nat ->
  let inp := Input iterations order tile_size in
  exists fuel r,
    benchmark TILED VERBOSE env fuel inp = Ok r /\
    elapsed r = S754_zero false /\
    avgtime (elapsed r) iterations = S754_zero false /\
    is_finite (rate order (avgtime (elapsed r) iterations)) = false.
Proof.
  intros Ho Hsq Hit Hfin Hsame inp.
  exists (S (Z.to_nat (iterations + 1))).
  destruct (benchmark_spec TILED VERBOSE env (S (Z.to_nat (iterations + 1))) inp)
    as (d & err & _ & _ & _ & _ & Eb); cbn [input_order input_iterations inp]; try lia.
  eexists. split; [exact Eb|]. cbn [elapsed].
  rewrite Hsame, dsub_same by exact Hfin.
  assert (avgtime (S754_zero false) iterations = S754_zero false) as ->.
  { unfold avgtime, of_Z. rewrite dyadic_pos by (unfold INT_MAX in *; lia).
    reflexivity. }
  split; [reflexivity|]. split; [reflexivity|].
  unfold rate. now destruct (dmul _ _) as [[]|[]| |[]].
Qed.

Lemma X14_clock_standstill_witness :
  let env := Prk "" 46340 (fun _ => of_Z 5) in
  let inp := Input 1 2 32 in
  exists fuel r,
    benchmark false false env fuel inp = Ok r /\
    elapsed r = S754_zero false /\
    avgtime (elapsed r) 1 = S754_zero false /\
    is_finite (rate 2 (avgtime (elapsed r) 1)) = false.
Proof.
  apply (X14_clock_standstill false false (Prk "" 46340 (fun _ => of_Z 5)) 1 2 32);
    unfold INT_MAX; try lia; reflexivity.
Defined.

(** ** The dump after the release of the host buffers *)

(** X15: with [VERBOSE] defined, a run whose validation fails goes on to
    the dump of [h_a] and [h_b], which [free_host] has released by then:
    [main] faults at the first element and never prints the error line. *)
Theorem X15_verbose_dump (TILED : bool) (env : prk) (fuel : nat) (argv : list string)
    (warn : list event) (inp : input) (r : measurement) :
  read_input TILED env argv = (warn, inr inp) ->
  benchmark TILED true env fuel inp = Ok r ->
  dltb (abserr r) epsilon = false ->
  main TILED true env fuel argv = Fault UseAfterFree.
Proof.
  intros Hread Hb Hlt.
  destruct (read_input_accepts _ _ _ _ _ Hread) as (_ & _ & _ & _ & Ho & Hole & _).
  destruct (benchmark_releases _ _ _ _ _ _ Hb) as [Ha _].
  unfold main. rewrite Hread, Hb. cbn [mbind result_bind].
  unfold verdict. rewrite Hlt, Ha, dump_dangling by lia. reflexivity.
Qed.

Lemma X15_verbose_dump_witness :
  exists r,
    benchmark true true (Prk "" 46340 (fun _ => of_Z 0)) 3 (Input 1 1 tile_dim) = Ok r /\
    main true true (Prk "" 46340 (fun _ => of_Z 0)) 3 ["transpose"; "1"; "1"] =
      Fault UseAfterFree.
Proof.
  eexists. split; [vm_compute; reflexivity|].
  eapply (X15_verbose_dump true (Prk "" 46340 (fun _ => of_Z 0)) 3 ["transpose"; "1"; "1"]);
    [reflexivity|vm_compute; reflexivity|vm_compute; reflexivity].
Defined.
